(** * med3web: the active-volume engine (lib/scripts/actvolume/actvol.js)

    A shallow embedding of class [ActiveVolume] and the properties of its
    driver [skullRemove], its step function [updateGeo], the band smoother
    [applyPartGaussSmooth] and the classifier [getHistogram].

    Numbers.  A JavaScript number is embedded as [num]: the IEEE-754 special
    values (NaN, the two infinities, the two zeros) are kept, with the
    standard's rules for them, and a finite non-zero value is a rational.
    Module [B64] is the arithmetic of the language, every result rounded
    to binary64 (overflow to an infinity and the subnormal numbers
    included): [smoothStep], a static function of any three numbers, and
    the key of a pixel in [saveVolumeSliceToFile] are embedded on it.  The
    arithmetic on the voxels and the tables of the engine (module [Num]) is
    embedded without the rounding of its results to binary64 (and of a
    store into a [Float32Array] to binary32).  [Math.exp] and the power
    operator [**] are parameters of the sections that use them.  Volume
    dimensions, stage counters and array lengths are integers ([Z]).

    Typed arrays are lists: a read outside the array yields [undefined],
    which every use in this file turns into NaN, and a write outside the
    array (or at a key that is not an integer) is dropped.  The allocation
    of a typed array throws a RangeError for a length that is negative or
    above [2^53 - 1]; whether a buffer of 2 GiB or more is allocated is the
    decision of the host (class [Host]). *)

From Stdlib Require Import ZArith QArith Qabs Qround Qpower Bool Lia Lqa
  Floats.
From stdpp Require Import base list.

Local Open Scope Z_scope.

(** * Part I: the program *)

(** ** JavaScript numbers *)

Module Num.

Inductive num : Type :=
| NaN
| Inf (neg : bool)
| Zero (neg : bool)
| Fin (q : Q).

(** [Fin q] stands for a non-zero finite value. *)
Definition finite (x : num) : Prop :=
  match x with Zero _ => True | Fin q => ~ (q == 0)%Q | _ => False end.

Definition Qltb (p q : Q) : bool := negb (Qle_bool q p).

Definition of_Q (q : Q) : num :=
  if Qeq_bool q 0 then Zero false else Fin (Qred q).

Definition of_Z (z : Z) : num := of_Q (inject_Z z).

(** sign bit *)
Definition sgn (x : num) : bool :=
  match x with
  | NaN => false
  | Inf s => s
  | Zero s => s
  | Fin q => Qltb q 0
  end.

(** the rational a finite value stands for *)
Definition toQ (x : num) : Q :=
  match x with Fin q => q | _ => 0%Q end.

Definition neg (x : num) : num :=
  match x with
  | NaN => NaN
  | Inf s => Inf (negb s)
  | Zero s => Zero (negb s)
  | Fin q => Fin (Qred (- q))
  end.

Definition add (x y : num) : num :=
  match x, y with
  | NaN, _ | _, NaN => NaN
  | Inf a, Inf b => if Bool.eqb a b then Inf a else NaN
  | Inf a, _ => Inf a
  | _, Inf b => Inf b
  | Zero a, Zero b => Zero (a && b)
  | Zero _, Fin q => Fin q
  | Fin p, Zero _ => Fin p
  | Fin p, Fin q => of_Q (p + q)
  end.

Definition sub (x y : num) : num := add x (neg y).

Definition mul (x y : num) : num :=
  match x, y with
  | NaN, _ | _, NaN => NaN
  | Inf _, Zero _ | Zero _, Inf _ => NaN
  | Inf a, _ => Inf (xorb a (sgn y))
  | _, Inf b => Inf (xorb (sgn x) b)
  | Zero a, _ => Zero (xorb a (sgn y))
  | _, Zero b => Zero (xorb (sgn x) b)
  | Fin p, Fin q => of_Q (p * q)
  end.

Definition div (x y : num) : num :=
  match x, y with
  | NaN, _ | _, NaN => NaN
  | Inf _, Inf _ => NaN
  | Inf a, _ => Inf (xorb a (sgn y))
  | _, Inf b => Zero (xorb (sgn x) b)
  | Zero _, Zero _ => NaN
  | Zero a, Fin _ => Zero (xorb a (sgn y))
  | Fin _, Zero b => Inf (xorb (sgn x) b)
  | Fin p, Fin q => of_Q (p / q)
  end.

(** [x < y]; false as soon as one side is NaN *)
Definition ltb (x y : num) : bool :=
  match x, y with
  | NaN, _ | _, NaN => false
  | Inf a, Inf b => a && negb b
  | Inf a, _ => a
  | _, Inf b => negb b
  | _, _ => Qltb (toQ x) (toQ y)
  end.

Definition gtb (x y : num) : bool := ltb y x.

(** [x === y] on numbers: NaN differs from everything, the zeros are equal *)
Definition eqb (x y : num) : bool :=
  match x, y with
  | NaN, _ | _, NaN => false
  | Inf a, Inf b => Bool.eqb a b
  | Inf _, _ | _, Inf _ => false
  | _, _ => Qeq_bool (toQ x) (toQ y)
  end.

Definition leb (x y : num) : bool := ltb x y || eqb x y.
Definition geb (x y : num) : bool := leb y x.

(** [Math.abs] *)
Definition abs (x : num) : num :=
  match x with
  | NaN => NaN
  | Inf _ => Inf false
  | Zero _ => Zero false
  | Fin q => Fin (Qred (Qabs q))
  end.

(** [Math.floor] *)
Definition floor (x : num) : num :=
  match x with
  | Fin q => if Qeq_bool (inject_Z (Qfloor q)) 0 then Zero false
             else Fin (inject_Z (Qfloor q))
  | _ => x
  end.

(** The integer a number is, when it is one: the index test of an element
    access [a[x]]. *)
Definition to_index (x : num) : option Z :=
  match x with
  | Zero _ => Some 0
  | Fin q => if Qeq_bool (inject_Z (Qfloor q)) q then Some (Qfloor q) else None
  | _ => None
  end.

End Num.

Import Num.

Declare Scope num_scope.
Delimit Scope num_scope with num.
Bind Scope num_scope with num.
Infix "+" := add : num_scope.
Infix "-" := sub : num_scope.
Infix "*" := mul : num_scope.
Infix "/" := div : num_scope.
Infix "<?" := ltb : num_scope.
Infix ">?" := gtb : num_scope.
Infix "<=?" := leb : num_scope.
Infix ">=?" := geb : num_scope.
Infix "=?" := eqb : num_scope.

(** Integer literals in [num_scope] are the numbers they denote. *)
Definition num_to_Z (x : num) : option Z :=
  match x with
  | Zero false => Some 0%Z
  | Fin (Qmake z 1) => if (z =? 0)%Z then None else Some z
  | _ => None
  end.

Number Notation num of_Z num_to_Z : num_scope.

(** ** Binary64 arithmetic

    The numbers of the language are binary64: a result that is not one is
    rounded to the nearest, ties to the even mantissa; it becomes an
    infinity from [2^1024] on and keeps 53 bits above [2^-1022],
    multiples of [2^-1074] below. *)

Module B64.

(** [2^e] *)
Definition pow2 (e : Z) : Q := (2 ^ e)%Q.

(** [floor (log2 q)], for [q > 0] *)
Definition ilog2 (q : Q) : Z :=
  let e := Z.log2 (Qnum q) - Z.log2 (Zpos (Qden q)) in
  if Qle_bool (pow2 e) q then e else e - 1.

(** The nearest integer, the even one of two. *)
Definition rne (q : Q) : Z :=
  let f := Qfloor q in
  match (q - inject_Z f ?= 1 # 2)%Q with
  | Lt => f
  | Gt => f + 1
  | Eq => if Z.even f then f else f + 1
  end.

(** The spacing of the binary64 numbers at [q > 0]. *)
Definition ulp (q : Q) : Q := pow2 (Z.max (ilog2 q) (-1022) - 52).

(** The binary64 number nearest to [q > 0], with the sign [s]. *)
Definition round_mag (s : bool) (q : Q) : num :=
  let m := rne (q / ulp q) in
  let r := (inject_Z m * ulp q)%Q in
  if (m =? 0)%Z then Zero s
  else if Qle_bool (pow2 1024) r then Inf s
  else Fin (Qred (if s then - r else r)).

Definition round (q : Q) : num :=
  if Qeq_bool q 0 then Zero false else round_mag (Qltb q 0) (Qabs q).

Definition add (x y : num) : num :=
  match x, y with
  | NaN, _ | _, NaN => NaN
  | Inf a, Inf b => if Bool.eqb a b then Inf a else NaN
  | Inf a, _ => Inf a
  | _, Inf b => Inf b
  | Zero a, Zero b => Zero (a && b)
  | Zero _, Fin q => Fin q
  | Fin p, Zero _ => Fin p
  | Fin p, Fin q => round (p + q)
  end.

Definition sub (x y : num) : num := add x (neg y).

Definition mul (x y : num) : num :=
  match x, y with
  | NaN, _ | _, NaN => NaN
  | Inf _, Zero _ | Zero _, Inf _ => NaN
  | Inf a, _ => Inf (xorb a (sgn y))
  | _, Inf b => Inf (xorb (sgn x) b)
  | Zero a, _ => Zero (xorb a (sgn y))
  | _, Zero b => Zero (xorb (sgn x) b)
  | Fin p, Fin q => round (p * q)
  end.

Definition div (x y : num) : num :=
  match x, y with
  | NaN, _ | _, NaN => NaN
  | Inf _, Inf _ => NaN
  | Inf a, _ => Inf (xorb a (sgn y))
  | _, Inf b => Zero (xorb (sgn x) b)
  | Zero _, Zero _ => NaN
  | Zero a, Fin _ => Zero (xorb a (sgn y))
  | Fin _, Zero b => Inf (xorb (sgn x) b)
  | Fin p, Fin q => round (p / q)
  end.

(** The number a binary64 value is. *)
Definition of_float (f : float) : num :=
  match Prim2SF f with
  | S754_zero s => Zero s
  | S754_infinity s => Inf s
  | S754_nan => NaN
  | S754_finite s m e =>
      Fin (Qred (if s then - (inject_Z (Zpos m) * pow2 e)
                 else inject_Z (Zpos m) * pow2 e))
  end.

End B64.

(** ** smoothStep (actvol.js, static smoothStep) *)

Definition smoothStep (minRange maxRange arg : num) : num :=
  let t := B64.div (B64.sub arg minRange) (B64.sub maxRange minRange) in
  let t := if (t >? 0)%num then t else 0%num in
  let t := if (t <? 1)%num then t else 1%num in
  let NUM_2 := 2%num in
  let NUM_3 := 3%num in
  B64.mul (B64.mul t t) (B64.sub NUM_3 (B64.mul NUM_2 t)).

(** ** Exceptions and typed arrays *)

Inductive exn : Type := TypeError | RangeError.

Inductive result (A : Type) : Type :=
| Ok (a : A)
| Throw (e : exn).
Arguments Ok {A} a.
Arguments Throw {A} e.

Definition bind {A B : Type} (m : result A) (k : A -> result B) : result B :=
  match m with
  | Ok a => k a
  | Throw e => Throw e
  end.

#[global] Instance result_bind : MBind result :=
  fun A B k m => bind m k.
#[global] Instance result_ret : MRet result := @Ok.

(** A field that holds [null] (or [undefined]) until it is assigned an
    array: an element access on it throws a TypeError. *)
Definition deref {A : Type} (a : option A) : result A :=
  match a with
  | Some x => Ok x
  | None => Throw TypeError
  end.

(** A loop whose body may throw, over the successive values of its
    variable. *)
Definition for_each {A S : Type} (l : list A) (body : A -> S -> result S)
    (s : S) : result S :=
  foldl (fun acc i => s' ← acc; body i s') (Ok s) l.

(** [for (i = lo; i < hi; i++) body], the loop variable an integer *)
Definition for_range {S : Type} (lo hi : Z) (body : Z -> S -> result S)
    (s : S) : result S :=
  for_each (seqZ lo (hi - lo)) body s.

(** The values [lo, lo + 1, ...] below [hi] of a loop variable that need
    not be an integer (the bounds are finite). *)
Definition Qrange (lo hi : Q) : list Q :=
  (fun i => Qred (lo + inject_Z i)) <$> seqZ 0 (Qceiling (hi - lo)).

(** [for (x = lo; x < hi; x++) body] *)
Definition for_Q {S : Type} (lo hi : Q) (body : Q -> S -> result S)
    (s : S) : result S :=
  for_each (Qrange lo hi) body s.

(** Element read [a[i]] used as a number: [undefined] outside the array,
    NaN once it enters arithmetic, [Math.floor], a comparison or a store
    into a typed array. *)
Definition get_num (a : list num) (i : Z) : num :=
  if (i <? 0)%Z then NaN else default NaN (a !! Z.to_nat i).

(** Element write [a[i] = v] on a typed array: dropped outside the array. *)
Definition set_elem {A : Type} (a : list A) (i : Z) (v : A) : list A :=
  if (i <? 0)%Z then a else <[Z.to_nat i := v]> a.

(** The same read, the key a number that need not be an integer. *)
Definition get_at (a : list num) (k : num) : num :=
  match to_index k with
  | Some i => get_num a i
  | None => NaN
  end.

(** The host.  Whether a large buffer is allocated is the host's decision:
    [can_allocate b] tells whether it grants a buffer of [b] bytes.  A
    buffer of less than 2 GiB is taken to be granted (the exhaustion of the
    memory is not modelled), and no array has more than [2^53 - 1]
    elements. *)
Class Host : Type := can_allocate : Z -> bool.

(** The test of [new T(length)], [T] a typed array of [bytesPerElement]
    bytes an element: a RangeError when it fails. *)
Definition allocates {host : Host} (length bytesPerElement : Z) : bool :=
  (0 <=? length)%Z && (length <=? 2 ^ 53 - 1)%Z &&
  ((length * bytesPerElement <? 2 ^ 31)%Z
   || can_allocate (length * bytesPerElement)).

(** [new Float32Array(n)]: [n] zeros. *)
Definition new_Float32Array {host : Host} (n : Z) : result (list num) :=
  if allocates n 4 then Ok (replicate (Z.to_nat n) 0%num)
  else Throw RangeError.

(** Wrap-around of a store into an [Int32Array]. *)
Definition to_int32 (z : Z) : Z :=
  ((z + 2 ^ 31) mod 2 ^ 32 - 2 ^ 31)%Z.

(** ** The engine *)

Definition ACT_VOL_NUM_SMOOTH_STAGES : Z := 18.
Definition AV_NUM_COLORS : Z := 256.

Inductive State : Type :=
| AV_STATE_NA
| AV_STATE_NOT_STARTED
| AV_STATE_PREPARE_GAUSS
| AV_STATE_PREPARE_UNIFORMITY
| AV_STATE_UPDATE_GEO
| AV_STATE_FINISHED.

Definition state_code (s : State) : Z :=
  match s with
  | AV_STATE_NA => -1
  | AV_STATE_NOT_STARTED => 0
  | AV_STATE_PREPARE_GAUSS => 1
  | AV_STATE_PREPARE_UNIFORMITY => 2
  | AV_STATE_UPDATE_GEO => 3
  | AV_STATE_FINISHED => 4
  end.

Definition State_eqb (a b : State) : bool := (state_code a =? state_code b)%Z.

Definition AV_METHOD_NORMALS : Z := 1.
Definition AV_METHOD_UNIFORMITY : Z := 2.
Definition AV_METHOD_COLOR_KOEFS : Z := 4.
Definition AV_METHOD_ALL : Z := 65535.

(** The fields of [ActiveVolume] ([m_lapSmoother] is never read nor
    assigned after the constructor and is left out). *)
Record ActiveVolume : Type := mkActiveVolume {
  m_state : State;
  m_pixelsSrc : option (list num);
  m_xDim : Z;
  m_yDim : Z;
  m_zDim : Z;
  m_imageGauss : option (list num);
  m_imageUniformity : option (list num);
  m_verticesNew : option (list num);
  m_imageSrc : option (list num);
  m_imageGrad : option (list num);
  m_gaussMatrix : option (list num);
  m_gaussStage : Z;
  m_uniformityStage : Z;
  m_geoStage : Z;
  m_histogram : list Z;
  m_colorProbability : list num;
  m_colorKoefs : list num;
  m_indexMinColor : Z
}.

(** Field assignments [this.f = v]. *)

Definition set_m_state v (this : ActiveVolume) : ActiveVolume :=
    mkActiveVolume v (m_pixelsSrc this) (m_xDim this) (m_yDim this)
      (m_zDim this) (m_imageGauss this) (m_imageUniformity this)
      (m_verticesNew this) (m_imageSrc this) (m_imageGrad this)
      (m_gaussMatrix this) (m_gaussStage this) (m_uniformityStage this)
      (m_geoStage this) (m_histogram this) (m_colorProbability this)
      (m_colorKoefs this) (m_indexMinColor this).

Definition set_m_pixelsSrc v (this : ActiveVolume) : ActiveVolume :=
    mkActiveVolume (m_state this) v (m_xDim this) (m_yDim this)
      (m_zDim this) (m_imageGauss this) (m_imageUniformity this)
      (m_verticesNew this) (m_imageSrc this) (m_imageGrad this)
      (m_gaussMatrix this) (m_gaussStage this) (m_uniformityStage this)
      (m_geoStage this) (m_histogram this) (m_colorProbability this)
      (m_colorKoefs this) (m_indexMinColor this).

Definition set_m_xDim v (this : ActiveVolume) : ActiveVolume :=
    mkActiveVolume (m_state this) (m_pixelsSrc this) v (m_yDim this)
      (m_zDim this) (m_imageGauss this) (m_imageUniformity this)
      (m_verticesNew this) (m_imageSrc this) (m_imageGrad this)
      (m_gaussMatrix this) (m_gaussStage this) (m_uniformityStage this)
      (m_geoStage this) (m_histogram this) (m_colorProbability this)
      (m_colorKoefs this) (m_indexMinColor this).

Definition set_m_yDim v (this : ActiveVolume) : ActiveVolume :=
    mkActiveVolume (m_state this) (m_pixelsSrc this) (m_xDim this) v
      (m_zDim this) (m_imageGauss this) (m_imageUniformity this)
      (m_verticesNew this) (m_imageSrc this) (m_imageGrad this)
      (m_gaussMatrix this) (m_gaussStage this) (m_uniformityStage this)
      (m_geoStage this) (m_histogram this) (m_colorProbability this)
      (m_colorKoefs this) (m_indexMinColor this).

Definition set_m_zDim v (this : ActiveVolume) : ActiveVolume :=
    mkActiveVolume (m_state this) (m_pixelsSrc this) (m_xDim this)
      (m_yDim this) v (m_imageGauss this) (m_imageUniformity this)
      (m_verticesNew this) (m_imageSrc this) (m_imageGrad this)
      (m_gaussMatrix this) (m_gaussStage this) (m_uniformityStage this)
      (m_geoStage this) (m_histogram this) (m_colorProbability this)
      (m_colorKoefs this) (m_indexMinColor this).

Definition set_m_imageGauss v (this : ActiveVolume) : ActiveVolume :=
    mkActiveVolume (m_state this) (m_pixelsSrc this) (m_xDim this)
      (m_yDim this) (m_zDim this) v (m_imageUniformity this)
      (m_verticesNew this) (m_imageSrc this) (m_imageGrad this)
      (m_gaussMatrix this) (m_gaussStage this) (m_uniformityStage this)
      (m_geoStage this) (m_histogram this) (m_colorProbability this)
      (m_colorKoefs this) (m_indexMinColor this).

Definition set_m_imageUniformity v (this : ActiveVolume) : ActiveVolume :=
    mkActiveVolume (m_state this) (m_pixelsSrc this) (m_xDim this)
      (m_yDim this) (m_zDim this) (m_imageGauss this) v (m_verticesNew this)
      (m_imageSrc this) (m_imageGrad this) (m_gaussMatrix this)
      (m_gaussStage this) (m_uniformityStage this) (m_geoStage this)
      (m_histogram this) (m_colorProbability this) (m_colorKoefs this)
      (m_indexMinColor this).

Definition set_m_verticesNew v (this : ActiveVolume) : ActiveVolume :=
    mkActiveVolume (m_state this) (m_pixelsSrc this) (m_xDim this)
      (m_yDim this) (m_zDim this) (m_imageGauss this)
      (m_imageUniformity this) v (m_imageSrc this) (m_imageGrad this)
      (m_gaussMatrix this) (m_gaussStage this) (m_uniformityStage this)
      (m_geoStage this) (m_histogram this) (m_colorProbability this)
      (m_colorKoefs this) (m_indexMinColor this).

Definition set_m_imageSrc v (this : ActiveVolume) : ActiveVolume :=
    mkActiveVolume (m_state this) (m_pixelsSrc this) (m_xDim this)
      (m_yDim this) (m_zDim this) (m_imageGauss this)
      (m_imageUniformity this) (m_verticesNew this) v (m_imageGrad this)
      (m_gaussMatrix this) (m_gaussStage this) (m_uniformityStage this)
      (m_geoStage this) (m_histogram this) (m_colorProbability this)
      (m_colorKoefs this) (m_indexMinColor this).

Definition set_m_imageGrad v (this : ActiveVolume) : ActiveVolume :=
    mkActiveVolume (m_state this) (m_pixelsSrc this) (m_xDim this)
      (m_yDim this) (m_zDim this) (m_imageGauss this)
      (m_imageUniformity this) (m_verticesNew this) (m_imageSrc this) v
      (m_gaussMatrix this) (m_gaussStage this) (m_uniformityStage this)
      (m_geoStage this) (m_histogram this) (m_colorProbability this)
      (m_colorKoefs this) (m_indexMinColor this).

Definition set_m_gaussMatrix v (this : ActiveVolume) : ActiveVolume :=
    mkActiveVolume (m_state this) (m_pixelsSrc this) (m_xDim this)
      (m_yDim this) (m_zDim this) (m_imageGauss this)
      (m_imageUniformity this) (m_verticesNew this) (m_imageSrc this)
      (m_imageGrad this) v (m_gaussStage this) (m_uniformityStage this)
      (m_geoStage this) (m_histogram this) (m_colorProbability this)
      (m_colorKoefs this) (m_indexMinColor this).

Definition set_m_gaussStage v (this : ActiveVolume) : ActiveVolume :=
    mkActiveVolume (m_state this) (m_pixelsSrc this) (m_xDim this)
      (m_yDim this) (m_zDim this) (m_imageGauss this)
      (m_imageUniformity this) (m_verticesNew this) (m_imageSrc this)
      (m_imageGrad this) (m_gaussMatrix this) v (m_uniformityStage this)
      (m_geoStage this) (m_histogram this) (m_colorProbability this)
      (m_colorKoefs this) (m_indexMinColor this).

Definition set_m_uniformityStage v (this : ActiveVolume) : ActiveVolume :=
    mkActiveVolume (m_state this) (m_pixelsSrc this) (m_xDim this)
      (m_yDim this) (m_zDim this) (m_imageGauss this)
      (m_imageUniformity this) (m_verticesNew this) (m_imageSrc this)
      (m_imageGrad this) (m_gaussMatrix this) (m_gaussStage this) v
      (m_geoStage this) (m_histogram this) (m_colorProbability this)
      (m_colorKoefs this) (m_indexMinColor this).

Definition set_m_geoStage v (this : ActiveVolume) : ActiveVolume :=
    mkActiveVolume (m_state this) (m_pixelsSrc this) (m_xDim this)
      (m_yDim this) (m_zDim this) (m_imageGauss this)
      (m_imageUniformity this) (m_verticesNew this) (m_imageSrc this)
      (m_imageGrad this) (m_gaussMatrix this) (m_gaussStage this)
      (m_uniformityStage this) v (m_histogram this)
      (m_colorProbability this) (m_colorKoefs this) (m_indexMinColor this).

Definition set_m_histogram v (this : ActiveVolume) : ActiveVolume :=
    mkActiveVolume (m_state this) (m_pixelsSrc this) (m_xDim this)
      (m_yDim this) (m_zDim this) (m_imageGauss this)
      (m_imageUniformity this) (m_verticesNew this) (m_imageSrc this)
      (m_imageGrad this) (m_gaussMatrix this) (m_gaussStage this)
      (m_uniformityStage this) (m_geoStage this) v (m_colorProbability this)
      (m_colorKoefs this) (m_indexMinColor this).

Definition set_m_colorProbability v (this : ActiveVolume) : ActiveVolume :=
    mkActiveVolume (m_state this) (m_pixelsSrc this) (m_xDim this)
      (m_yDim this) (m_zDim this) (m_imageGauss this)
      (m_imageUniformity this) (m_verticesNew this) (m_imageSrc this)
      (m_imageGrad this) (m_gaussMatrix this) (m_gaussStage this)
      (m_uniformityStage this) (m_geoStage this) (m_histogram this) v
      (m_colorKoefs this) (m_indexMinColor this).

Definition set_m_colorKoefs v (this : ActiveVolume) : ActiveVolume :=
    mkActiveVolume (m_state this) (m_pixelsSrc this) (m_xDim this)
      (m_yDim this) (m_zDim this) (m_imageGauss this)
      (m_imageUniformity this) (m_verticesNew this) (m_imageSrc this)
      (m_imageGrad this) (m_gaussMatrix this) (m_gaussStage this)
      (m_uniformityStage this) (m_geoStage this) (m_histogram this)
      (m_colorProbability this) v (m_indexMinColor this).

Definition set_m_indexMinColor v (this : ActiveVolume) : ActiveVolume :=
    mkActiveVolume (m_state this) (m_pixelsSrc this) (m_xDim this)
      (m_yDim this) (m_zDim this) (m_imageGauss this)
      (m_imageUniformity this) (m_verticesNew this) (m_imageSrc this)
      (m_imageGrad this) (m_gaussMatrix this) (m_gaussStage this)
      (m_uniformityStage this) (m_geoStage this) (m_histogram this)
      (m_colorProbability this) (m_colorKoefs this) v.

(** The constructor: the three 256-entry tables are allocated and zeroed. *)
Definition constructor : ActiveVolume :=
  {| m_state := AV_STATE_NA;
     m_pixelsSrc := None;
     m_xDim := 0;
     m_yDim := 0;
     m_zDim := 0;
     m_imageGauss := None;
     m_imageUniformity := None;
     m_verticesNew := None;
     m_imageSrc := None;
     m_imageGrad := None;
     m_gaussMatrix := None;
     m_gaussStage := -1;
     m_uniformityStage := -1;
     m_geoStage := -1;
     m_histogram := replicate (Z.to_nat AV_NUM_COLORS) 0%Z;
     m_colorProbability := replicate (Z.to_nat AV_NUM_COLORS) 0%num;
     m_colorKoefs := replicate (Z.to_nat AV_NUM_COLORS) 0%num;
     m_indexMinColor := -1 |}.

(** *** create *)

Definition create {host : Host} (xDim yDim zDim : Z) (volTexSrc : list num)
    (this : ActiveVolume) : result (Z * ActiveVolume) :=
  let this := set_m_state AV_STATE_NOT_STARTED this in
  let this := set_m_pixelsSrc (Some volTexSrc) this in
  let this := set_m_xDim xDim this in
  let this := set_m_yDim yDim this in
  let this := set_m_zDim zDim this in
  let numPixels := xDim * yDim * zDim in
  imageGauss ← new_Float32Array numPixels;
  let this := set_m_imageGauss (Some imageGauss) this in
  imageUniformity ← new_Float32Array numPixels;
  let this := set_m_imageUniformity (Some imageUniformity) this in
  let this := set_m_verticesNew None this in
  Ok (1, this).

(** *** getPredictedStepsForActiveVolumeUpdate *)

Definition getPredictedStepsForActiveVolumeUpdate (this : ActiveVolume)
    : num :=
  let TWO := 2%num in
  let hx := (of_Z (m_xDim this) / TWO)%num in
  let hy := (of_Z (m_yDim this) / TWO)%num in
  let hz := (of_Z (m_zDim this) / TWO)%num in
  let xyMax := if (hx >? hy)%num then hx else hy in
  let xyzMax := if (xyMax >? hz)%num then xyMax else hz in
  (xyzMax + of_Z ACT_VOL_NUM_SMOOTH_STAGES)%num.

(** *** startImageSmooth, stopImageSmooth *)

Definition startImageSmooth {host : Host} (this : ActiveVolume)
    : result (Z * ActiveVolume) :=
  let numPixels := m_xDim this * m_yDim this * m_zDim this in
  this ← for_range 0 numPixels (fun i this =>
    g ← deref (m_imageGauss this);
    let this := set_m_imageGauss (Some (set_elem g i 0%num)) this in
    u ← deref (m_imageUniformity this);
    Ok (set_m_imageUniformity (Some (set_elem u i 0%num)) this)) this;
  imageSrc ← new_Float32Array numPixels;
  let this := set_m_imageSrc (Some imageSrc) this in
  imageGrad ← new_Float32Array numPixels;
  let this := set_m_imageGrad (Some imageGrad) this in
  this ← for_range 0 numPixels (fun i this =>
    gr ← deref (m_imageGrad this);
    let this := set_m_imageGrad (Some (set_elem gr i 0%num)) this in
    src ← deref (m_pixelsSrc this);
    let val := get_num src i in
    s ← deref (m_imageSrc this);
    Ok (set_m_imageSrc (Some (set_elem s i val)) this)) this;
  Ok (1, this).

Definition stopImageSmooth (this : ActiveVolume) : ActiveVolume :=
  let this := set_m_imageGrad None this in
  set_m_imageSrc None this.

(** [for (i = lo; i < hi; i++) body] where the body cannot throw *)
Definition loop {S : Type} (lo hi : Z) (body : Z -> S -> S) (s : S) : S :=
  foldl (fun acc i => body i acc) s (seqZ lo (hi - lo)).

(** ** The band smoother *)

Section Smoother.

Context {host : Host}.
(** [Math.exp] *)
Variable Math_exp : num -> num.

Definition GAUSS_MAX_RAD : Z := 9.
Definition GAUSS_MAX_DIA : Z := 1 + 2 * GAUSS_MAX_RAD.

(** The weights of the kernel, before normalisation: the matrix, the next
    index [j] and the running sum [wSum]. *)
Definition fillGaussMatrix (rad : Z) (koef : num)
    (s : list num * Z * num) : list num * Z * num :=
  loop (- rad) (rad + 1) (fun dz s =>
    let fz := (of_Z dz / of_Z rad)%num in
    loop (- rad) (rad + 1) (fun dy s =>
      let fy := (of_Z dy / of_Z rad)%num in
      loop (- rad) (rad + 1) (fun dx '(gaussMatrix, j, wSum) =>
        let fx := (of_Z dx / of_Z rad)%num in
        let dist2 := (fx * fx + fy * fy + fz * fz)%num in
        let weight := Math_exp (neg 1 * dist2 * koef)%num in
        (set_elem gaussMatrix j weight, j + 1, (wSum + weight)%num)) s) s) s.

(** The weighted sum under the kernel footprint centred at [(cx, cy, cz)]. *)
Definition convolveAt (this : ActiveVolume) (rad cx cy cz : Z) : result num :=
  '(_, sum) ← for_range (- rad) (rad + 1) (fun dz s =>
    let z := cz + dz in
    let zOff := z * m_xDim this * m_yDim this in
    for_range (- rad) (rad + 1) (fun dy s =>
      let y := cy + dy in
      let yOff := y * m_xDim this in
      for_range (- rad) (rad + 1) (fun dx '(j, sum) =>
        let x := cx + dx in
        gaussMatrix ← deref (m_gaussMatrix this);
        let weight := get_num gaussMatrix j in
        pixelsSrc ← deref (m_pixelsSrc this);
        let val := get_num pixelsSrc (x + yOff + zOff) in
        Ok (j + 1, (sum + val * weight)%num)) s) s) (0, 0%num);
  Ok sum.

(** One slice [cz] of the convolution loop. *)
Definition smoothSlice (rad cz : Z) (this : ActiveVolume)
    : result ActiveVolume :=
  let czOff := cz * m_xDim this * m_yDim this in
  for_range rad (m_yDim this - rad) (fun cy this =>
    let cyOff := cy * m_xDim this in
    for_range rad (m_xDim this - rad) (fun cx this =>
      sum ← convolveAt this rad cx cy cz;
      imageGauss ← deref (m_imageGauss this);
      Ok (set_m_imageGauss
            (Some (set_elem imageGauss (cx + cyOff + czOff) sum)) this))
      this) this.

(** The block guarded by [zStart === 0]: kernel and first copy. *)
Definition initGaussSmooth (rad : Z) (koef : num) (this : ActiveVolume)
    : result ActiveVolume :=
  let dia := 1 + 2 * rad in
  gaussMatrix ← new_Float32Array (GAUSS_MAX_DIA * GAUSS_MAX_DIA * GAUSS_MAX_DIA);
  let '(gaussMatrix, _, wSum) :=
    fillGaussMatrix rad koef (gaussMatrix, 0, 0%num) in
  let numGaussElems := dia * dia * dia in
  let gScale := (1 / wSum)%num in
  let gaussMatrix :=
    loop 0 numGaussElems (fun j m =>
      set_elem m j (get_num m j * gScale)%num) gaussMatrix in
  let this := set_m_gaussMatrix (Some gaussMatrix) this in
  let numPixels := m_xDim this * m_yDim this * m_zDim this in
  for_range 0 numPixels (fun j this =>
    imageSrc ← deref (m_imageSrc this);
    imageGauss ← deref (m_imageGauss this);
    Ok (set_m_imageGauss
          (Some (set_elem imageGauss j (get_num imageSrc j))) this)) this.

Definition applyPartGaussSmooth (zStart zEnd rad : Z) (sigma : num)
    (this : ActiveVolume) : result ActiveVolume :=
  let THREE_DIMS := 3%num in
  let koef := (1 / (THREE_DIMS * sigma * sigma))%num in
  this ← (if (zStart =? 0)%Z then initGaussSmooth rad koef this else Ok this);
  let zs := if (zStart >? rad)%Z then zStart else rad in
  let ze := if (zEnd <? m_zDim this - rad)%Z then zEnd
            else m_zDim this - rad in
  for_range zs ze (smoothSlice rad) this.

End Smoother.

(** ** The classifier *)

(** [for (i = lo; i < hi; i++) if (cond(i)) break;] leaves in [i] the first
    index of [lo, hi) where the condition holds, and the first value that
    fails the loop test when there is none. *)
Definition find_from (cond : Z -> bool) (lo hi : Z) : Z :=
  match List.find cond (seqZ lo (hi - lo)) with
  | Some i => i
  | None => Z.max lo hi
  end.

(** The same for a loop variable that need not be an integer and a
    condition that reads an array: [n] bounds the number of iterations. *)
Fixpoint scan (step : Q) (cond : Q -> result bool) (x : Q) (n : nat)
    : result Q :=
  match n with
  | O => Ok x
  | Datatypes.S n' =>
      b ← cond x;
      if b : bool then Ok x else scan step cond (Qred (x + step)) n'
  end.

(** Element read of the [Int32Array] histogram, as a number. *)
Definition get_count (h : list Z) (i : Z) : num :=
  if (i <? 0)%Z then NaN
  else match h !! Z.to_nat i with Some c => (of_Z c) | None => NaN end.

(** [this.m_histogram[val]++]: the store wraps to 32 bits; a key that is
    not an index of the array leaves its elements as they are. *)
Definition hist_incr (h : list Z) (val : num) : list Z :=
  match to_index val with
  | Some i =>
      if (i <? 0)%Z then h
      else match h !! Z.to_nat i with
           | Some c => set_elem h i (to_int32 (c + 1))
           | None => h
           end
  | None => h
  end.

Definition hist_clear (h : list Z) : list Z :=
  loop 0 AV_NUM_COLORS (fun i h => set_elem h i 0%Z) h.

(** [this.m_colorProbability[i] = this.m_histogram[i] / n], all [i] *)
Definition probabilities (n : num) (this : ActiveVolume) : ActiveVolume :=
  loop 0 AV_NUM_COLORS (fun i this =>
    let h := get_count (m_histogram this) i in
    set_m_colorProbability
      (set_elem (m_colorProbability this) i (h / n)%num) this) this.

(** First pass (lines 451-466): histogram of the whole smoothed volume. *)
Definition histFull (this : ActiveVolume) : result ActiveVolume :=
  let this := set_m_histogram (hist_clear (m_histogram this)) this in
  let numPixels := m_xDim this * m_yDim this * m_zDim this in
  let MAX_COLOR := of_Z (AV_NUM_COLORS - 1) in
  this ← for_range 0 numPixels (fun i this =>
    imageGauss ← deref (m_imageGauss this);
    let val := floor (get_num imageGauss i) in
    let val := if (val <? MAX_COLOR)%num then val else MAX_COLOR in
    Ok (set_m_histogram (hist_incr (m_histogram this) val) this)) this;
  Ok (probabilities (of_Z numPixels) this).

(** Lines 467-477: the first local minimum among the first 64 colours. *)
Definition findMinColor (this : ActiveVolume) : ActiveVolume :=
  let MAGIC_PART_HIST := 64 in
  let p := m_colorProbability this in
  let isCurMin i :=
    (get_num p i <? get_num p (i + 1))%num &&
    (get_num p i <? get_num p (i - 1))%num in
  match List.find isCurMin (seqZ 1 (MAGIC_PART_HIST - 1)) with
  | Some i => set_m_indexMinColor i this
  | None => set_m_indexMinColor 0 this
  end.

Definition POW_KOEF : num := of_Q (0.3%Q).

Section Koefs.

(** The power operator [**] *)
Variable Math_pow : num -> num -> num.

(** Lines 478-484 *)
Definition buildColorKoefs (this : ActiveVolume) : ActiveVolume :=
  loop 0 AV_NUM_COLORS (fun i this =>
    let delta := abs ((of_Z i) - of_Z (m_indexMinColor this))%num in
    set_m_colorKoefs
      (set_elem (m_colorKoefs this) i
         (1 - 1 / (1 + Math_pow delta POW_KOEF))%num) this) this.

End Koefs.

(** *** The scan near the central line (lines 486-550) *)

Definition SCAN_RANGE : Q := 4.
Definition NUM_20 : Q := 20.
Definition NUM_526 : Q := 20.
Definition RATIO_BORDER : Q := NUM_20 / NUM_526.
Definition VAL_BORDER_ADD : Q := 40.

Record ScanWindow : Type := mkScanWindow {
  zMin : Q; zMax : Q; yMin : Q; yMax : Q; xMin : Q; xMax : Q
}.

Definition scanWindow (this : ActiveVolume) : ScanWindow :=
  let TWO := 2%Q in
  {| zMin := inject_Z (m_zDim this) / TWO - SCAN_RANGE;
     zMax := inject_Z (m_zDim this) / TWO + SCAN_RANGE;
     yMin := inject_Z (m_yDim this) / TWO - SCAN_RANGE;
     yMax := inject_Z (m_yDim this) / TWO + SCAN_RANGE;
     xMin := inject_Z (m_xDim this) * RATIO_BORDER;
     xMax := inject_Z (m_xDim this) - inject_Z (m_xDim this) * RATIO_BORDER |}.

(** Lines 499-520: the black level, a mean over the two border strips. *)
Definition getBlack (this : ActiveVolume) : result num :=
  let w := scanWindow this in
  let xDim := inject_Z (m_xDim this) in
  let yDim := inject_Z (m_yDim this) in
  let sample (yOff zOff : Q) (x : Q) '(colBlack, numPixelsBorder) :=
    let off := (x + yOff + zOff)%Q in
    imageGauss ← deref (m_imageGauss this);
    Ok ((colBlack + get_at imageGauss (of_Q off))%num,
        (numPixelsBorder + 1)%Z) in
  '(colBlack, numPixelsBorder) ←
    for_Q (zMin w) (zMax w) (fun z s =>
      let zOff := (z * xDim * yDim)%Q in
      for_Q (yMin w) (yMax w) (fun y s =>
        let yOff := (y * xDim)%Q in
        s ← for_Q 0 (xMin w) (sample yOff zOff) s;
        for_Q (xMax w) xDim (sample yOff zOff) s) s) (0%num, 0%Z);
  Ok (colBlack / (of_Z numPixelsBorder))%num.

(** Lines 522-550: where the border starts, from the left and the right. *)
Definition findBorders (colBlack : num) (this : ActiveVolume)
    : result (Q * Q) :=
  let w := scanWindow this in
  let TWO := 2%Q in
  let xDim := inject_Z (m_xDim this) in
  let yDim := inject_Z (m_yDim this) in
  let w2 := (xDim / TWO)%Q in
  let bright (yOff zOff : Q) (x : Q) : result bool :=
    let off := (x + yOff + zOff)%Q in
    imageGauss ← deref (m_imageGauss this);
    Ok (get_at imageGauss (of_Q off) >? colBlack + of_Q VAL_BORDER_ADD)%num in
  for_Q (zMin w) (zMax w) (fun z s =>
    let zOff := (z * xDim * yDim)%Q in
    for_Q (yMin w) (yMax w) (fun y '(xLeftMin, xRightMax) =>
      let yOff := (y * xDim)%Q in
      x ← scan 1 (bright yOff zOff) (xMin w)
            (Z.to_nat (Qceiling (w2 - xMin w)));
      let xBorder := x in
      let xLeftMin := if Qltb xBorder xLeftMin then xBorder else xLeftMin in
      x ← scan (-1) (bright yOff zOff) (xMax w)
            (Z.to_nat (Qceiling (xMax w - w2)));
      let xBorder := x in
      let xRightMax :=
        if Qltb xRightMax xBorder then xBorder else xRightMax in
      Ok (xLeftMin, xRightMax)) s) (xDim, 0%Q).

(** Second pass (lines 552-585): histogram of the two bands inside the
    borders; the engine with the new histogram, and [numPixHist]. *)
Definition histBands (xLeftMin xRightMax : Q) (this : ActiveVolume)
    : result (ActiveVolume * Z) :=
  let w := scanWindow this in
  let xDim := inject_Z (m_xDim this) in
  let yDim := inject_Z (m_yDim this) in
  let NUM_512 := 512%Q in
  let RANGE_SCAN := (xDim * VAL_BORDER_ADD / NUM_512)%Q in
  let xLeftMax := (xLeftMin + RANGE_SCAN)%Q in
  let xRightMin := (xRightMax - RANGE_SCAN)%Q in
  let this := set_m_histogram (hist_clear (m_histogram this)) this in
  for_Q (zMin w) (zMax w) (fun z s =>
    let zOff := (z * xDim * yDim)%Q in
    for_Q (yMin w) (yMax w) (fun y s =>
      let yOff := (y * xDim)%Q in
      s ← for_Q xLeftMin xLeftMax (fun x '(this, numPixHist) =>
        let off := (x + yOff + zOff)%Q in
        imageGauss ← deref (m_imageGauss this);
        let val := get_at imageGauss (of_Q off) in
        Ok (set_m_histogram (hist_incr (m_histogram this) val) this,
            (numPixHist + 1)%Z)) s;
      for_Q xRightMin xRightMax (fun x '(this, numPixHist) =>
        let off := (x + yOff + zOff)%Q in
        imageGauss ← deref (m_imageGauss this);
        let val := floor (get_at imageGauss (of_Q off)) in
        Ok (set_m_histogram (hist_incr (m_histogram this) val) this,
            (numPixHist + 1)%Z)) s) s) (this, 0%Z).

(** Lines 486-580: the scan and the second histogram. *)
Definition secondPass (this : ActiveVolume) : result (ActiveVolume * Z) :=
  colBlack ← getBlack this;
  '(xLeftMin, xRightMax) ← findBorders colBlack this;
  histBands xLeftMin xRightMax this.

Section Curve.

(** [Math.exp] *)
Variable Math_exp : num -> num.

(** *** smoothArray *)
Definition smoothArray (values : list num) (numValues gaussRad : Z)
    (gaussSigma : num) : list num :=
  let dst := replicate (Z.to_nat AV_NUM_COLORS) 0%num in
  let mult := (1 / (gaussSigma * gaussSigma))%num in
  let dst :=
    loop 0 numValues (fun ci dst =>
      let '(sum, sumWeight) :=
        loop (- gaussRad) (gaussRad + 1) (fun di '(sum, sumWeight) =>
          let i := ci + di in
          let i := if (i >=? 0)%Z then i else 0 in
          let i := if (i <? numValues)%Z then i else numValues - 1 in
          let t := (of_Z di / of_Z gaussRad)%num in
          let weight := (1 / Math_exp (t * t * mult))%num in
          let sumWeight := (sumWeight + weight)%num in
          ((sum + get_num values i * weight)%num, sumWeight))
          (0%num, 0%num) in
      let valSmoothed := (sum / sumWeight)%num in
      set_elem dst ci valSmoothed) dst in
  loop 0 numValues (fun i values => set_elem values i (get_num dst i)) values.

(** Lines 587-620: the smoothed curve, its two thresholds and the final
    smooth step written over [m_colorProbability]. *)
Definition buildCurve (this : ActiveVolume) : ActiveVolume :=
  let GAUSS_RAD := 12 in
  let GAUSS_SIGMA := of_Q (2.6%Q) in
  let this :=
    set_m_colorProbability
      (smoothArray (m_colorProbability this) AV_NUM_COLORS GAUSS_RAD
         GAUSS_SIGMA) this in
  let p := m_colorProbability this in
  let maxProb :=
    loop 0 AV_NUM_COLORS (fun i maxProb =>
      if (get_num p i >? maxProb)%num then get_num p i else maxProb)
      0%num in
  let NUM_3 := 3%num in
  let probBarrier := (maxProb * 1 / NUM_3)%num in
  let NUM_COLS_HALF := 128 in
  let i := find_from (fun i => (get_num p i >=? probBarrier)%num)
             0 NUM_COLS_HALF in
  let indBlackL := i in
  let isLocMin i :=
    (get_num p i <=? get_num p (i - 1))%num &&
    (get_num p i <=? get_num p (i + 1))%num in
  let i := find_from isLocMin (i + 1) NUM_COLS_HALF in
  let indBlackR := i in
  let indBlackL := indBlackL - 2 in
  let indBlackR := indBlackR + 2 in
  loop 0 AV_NUM_COLORS (fun i this =>
    set_m_colorProbability
      (set_elem (m_colorProbability this) i
         (smoothStep (of_Z indBlackL) (of_Z indBlackR) (of_Z i))) this) this.

(** The power operator [**] *)
Variable Math_pow : num -> num -> num.

(** *** getHistogram *)
Definition getHistogram (this : ActiveVolume) : result (Z * ActiveVolume) :=
  this ← histFull this;
  let this := findMinColor this in
  let this := buildColorKoefs Math_pow this in
  '(this, numPixHist) ← secondPass this;
  let this := probabilities (of_Z numPixHist) this in
  let this := buildCurve this in
  Ok (1, this).

End Curve.

(** ** The render geometry (external: georender.js)

    Only its interface is used: the vertex array (four numbers a vertex),
    the normals, the two counts.  Its methods and the tetrahedron generator
    are parameters of the sections below. *)

Record Vector3 : Type := mkVector3 { v_x : num; v_y : num; v_z : num }.

Record GeoRender : Type := mkGeoRender {
  geo_numVertices : Z;
  geo_vertices : list num;
  geo_normals : list Vector3;
  geo_numTriangles : Z
}.

(** ** The step function *)

(** The units of work a call of [updateGeo] performs, recorded in the
    order it performs them. *)
Inductive Work : Type :=
| W_startImageSmooth
| W_gaussBand (zStart zEnd : Z)
| W_uniformityBand
| W_getHistogram
| W_relax.

(** The state a unit of work belongs to. *)
Definition work_state (w : Work) : State :=
  match w with
  | W_startImageSmooth => AV_STATE_NOT_STARTED
  | W_gaussBand _ _ => AV_STATE_PREPARE_GAUSS
  | W_uniformityBand => AV_STATE_PREPARE_UNIFORMITY
  | W_getHistogram => AV_STATE_PREPARE_UNIFORMITY
  | W_relax => AV_STATE_UPDATE_GEO
  end.

(** What a call is working on: the engine, the geometry, and (a ghost
    field) the work done so far in the call. *)
Record Step : Type := mkStep {
  st_this : ActiveVolume;
  st_geo : GeoRender;
  st_work : list Work
}.

(** A block either falls through to the next statement or returns. *)
Inductive flow : Type :=
| Next (s : Step)
| Return (r : Z) (s : Step).

(** Lines 629-641: logs the first vertex and the first normal, returns
    nothing ([undefined], false to the caller's test); reading [.x] of a
    missing first normal throws. *)
Definition updateGeoNormalsUniformityColors (geo : GeoRender)
    (normalSpeed : num) : result bool :=
  match geo_normals geo with
  | [] => Throw TypeError
  | _ :: _ => Ok false
  end.

Section StepFunction.

Context {host : Host}.
Variable Math_exp : num -> num.
Variable Math_pow : num -> num -> num.
(** [geo.createNormalsForGeometry()]: its status and the geometry after *)
Variable createNormalsForGeometry : GeoRender -> Z * GeoRender.

(** Lines 654-664 *)
Definition stepNotStarted (s : Step) : result flow :=
  let this := st_this s in
  if State_eqb (m_state this) AV_STATE_NOT_STARTED then
    let '(okCreateNormals, geo) := createNormalsForGeometry (st_geo s) in
    if negb (okCreateNormals =? 1)%Z then
      Ok (Return okCreateNormals (mkStep this geo (st_work s)))
    else
      '(_, this) ← startImageSmooth this;
      let this := set_m_gaussStage 0 this in
      let this := set_m_state AV_STATE_PREPARE_GAUSS this in
      Ok (Next (mkStep this geo (st_work s ++ [W_startImageSmooth])))
  else Ok (Next s).

(** Lines 665-677 *)
Definition stepPrepareGauss (s : Step) : result Step :=
  let this := st_this s in
  if State_eqb (m_state this) AV_STATE_PREPARE_GAUSS then
    let GAUSS_RAD := 2 in
    let GAUSS_SIGMA := of_Q 1.8 in
    let zStart :=
      m_zDim this * (m_gaussStage this + 0) / ACT_VOL_NUM_SMOOTH_STAGES in
    let zEnd :=
      m_zDim this * (m_gaussStage this + 1) / ACT_VOL_NUM_SMOOTH_STAGES in
    this ← applyPartGaussSmooth Math_exp zStart zEnd GAUSS_RAD GAUSS_SIGMA
             this;
    let this := set_m_gaussStage (m_gaussStage this + 1) this in
    let this :=
      if (m_gaussStage this >=? ACT_VOL_NUM_SMOOTH_STAGES)%Z then
        let this := set_m_state AV_STATE_PREPARE_UNIFORMITY this in
        set_m_uniformityStage 0 this
      else this in
    Ok (mkStep this (st_geo s) (st_work s ++ [W_gaussBand zStart zEnd]))
  else Ok s.

(** Lines 678-691 *)
Definition stepPrepareUniformity (s : Step) : result Step :=
  let this := st_this s in
  if State_eqb (m_state this) AV_STATE_PREPARE_UNIFORMITY then
    let this := set_m_uniformityStage (m_uniformityStage this + 1) this in
    let work := st_work s ++ [W_uniformityBand] in
    if (m_uniformityStage this =? ACT_VOL_NUM_SMOOTH_STAGES)%Z then
      '(_, this) ← getHistogram Math_exp Math_pow this;
      let this := stopImageSmooth this in
      let this := set_m_geoStage 0 this in
      let this := set_m_state AV_STATE_UPDATE_GEO this in
      Ok (mkStep this (st_geo s) (work ++ [W_getHistogram]))
    else Ok (mkStep this (st_geo s) work)
  else Ok s.

(** Lines 693-718.  The class defines neither [updateGeoByVertexNormals]
    nor [updateGeoByVertexNormalsAndUniformity]: calling them throws. *)
Definition stepUpdateGeo (method : Z) (s : Step) : result Step :=
  let this := st_this s in
  let geo := st_geo s in
  if State_eqb (m_state this) AV_STATE_UPDATE_GEO then
    this ← match m_verticesNew this with
           | None =>
               let numVertices := geo_numVertices geo in
               let COORDS_IN_VERTREX := 4 in
               v ← new_Float32Array (numVertices * COORDS_IN_VERTREX);
               Ok (set_m_verticesNew (Some v) this)
           | Some _ => Ok this
           end;
    let updateNormals := negb (Z.land method AV_METHOD_NORMALS =? 0)%Z in
    let updateUniformity :=
      negb (Z.land method AV_METHOD_UNIFORMITY =? 0)%Z in
    let updateColorKoefs :=
      negb (Z.land method AV_METHOD_COLOR_KOEFS =? 0)%Z in
    let SPEED_NORMALS := of_Q 1.1 in
    _ ← (if updateNormals && negb updateUniformity
         then Throw TypeError else Ok tt);
    _ ← (if updateNormals && updateUniformity && negb updateColorKoefs
         then Throw TypeError else Ok tt);
    this ← (if updateNormals && updateUniformity && updateColorKoefs then
              isFinished ← updateGeoNormalsUniformityColors geo SPEED_NORMALS;
              Ok (if isFinished : bool
                  then set_m_state AV_STATE_FINISHED this else this)
            else Ok this);
    let this := set_m_geoStage (m_geoStage this + 1) this in
    Ok (mkStep this geo (st_work s ++ [W_relax]))
  else Ok s.

(** *** updateGeo, with the work it performed *)
Definition updateGeo_work (this : ActiveVolume) (geo : GeoRender)
    (method : Z) : result (Z * Step) :=
  let s := mkStep this geo [] in
  if State_eqb (m_state this) AV_STATE_FINISHED then Ok (1, s)
  else
    f ← stepNotStarted s;
    match f with
    | Return r s => Ok (r, s)
    | Next s =>
        s ← stepPrepareGauss s;
        s ← stepPrepareUniformity s;
        s ← stepUpdateGeo method s;
        Ok (1, s)
    end.

(** *** updateGeo: status, engine and geometry after the call *)
Definition updateGeo (this : ActiveVolume) (geo : GeoRender) (method : Z)
    : result (Z * ActiveVolume * GeoRender) :=
  '(r, s) ← updateGeo_work this geo method;
  Ok (r, st_this s, st_geo s).

End StepFunction.

(** ** The driver *)

(** Lines 136-140: one vertex, at [i4] in the array. *)
Definition scaleVertex (xDim2 yDim2 zDim2 : num) (i : Z)
    (s : Z * list num) : Z * list num :=
  let '(i4, vertices) := s in
  let COORDS_IN_VERTEX := 4 in
  let NUM_0 := 0 in
  let NUM_1 := 1 in
  let NUM_2 := 2 in
  let vertices :=
    set_elem vertices (i4 + NUM_0)
      (xDim2 + xDim2 * get_num vertices (i4 + NUM_0))%num in
  let vertices :=
    set_elem vertices (i4 + NUM_1)
      (yDim2 + yDim2 * get_num vertices (i4 + NUM_1))%num in
  let vertices :=
    set_elem vertices (i4 + NUM_2)
      (zDim2 + zDim2 * get_num vertices (i4 + NUM_2))%num in
  (i4 + COORDS_IN_VERTEX, vertices).

(** Lines 124-140: the vertices of the seed mesh, scaled in place. *)
Definition scaleVertices (xDim2 yDim2 zDim2 : num) (numVertices : Z)
    (vertices : list num) : list num :=
  snd (loop 0 numVertices (scaleVertex xDim2 yDim2 zDim2) (0, vertices)).

Definition scaleGeo (this : ActiveVolume) (geoRender : GeoRender)
    : GeoRender :=
  let xDim2 := (of_Z (m_xDim this - 1) * of_Q 0.5)%num in
  let yDim2 := (of_Z (m_yDim this - 1) * of_Q 0.5)%num in
  let zDim2 := (of_Z (m_zDim this - 1) * of_Q 0.5)%num in
  let numVertices := geo_numVertices geoRender in
  let vertices := geo_vertices geoRender in
  mkGeoRender numVertices
    (scaleVertices xDim2 yDim2 zDim2 numVertices vertices)
    (geo_normals geoRender) (geo_numTriangles geoRender).

Section Driver.

Context {host : Host}.
Variable Math_exp : num -> num.
Variable Math_pow : num -> num -> num.
Variable createNormalsForGeometry : GeoRender -> Z * GeoRender.
(** [new TetrahedronGenerator()] followed by [create(vRadius, n)]: the
    status and the generator (external: tetra.js) *)
Variable TetrahedronGenerator : Type.
Variable TetrahedronGenerator_create
  : Vector3 -> Z -> Z * TetrahedronGenerator.
(** [new GeoRender()] followed by [createFromTetrahedronGenerator(gen)] *)
Variable createFromTetrahedronGenerator
  : TetrahedronGenerator -> Z * GeoRender.

(** Lines 148-161: at most [n] updates, stopping once finished. *)
Fixpoint updateLoop (n : nat) (isFinished : bool) (this : ActiveVolume)
    (geoRender : GeoRender) : result (ActiveVolume * GeoRender) :=
  match n with
  | O => Ok (this, geoRender)
  | Datatypes.S n' =>
      if isFinished then Ok (this, geoRender)
      else
        '(_, this, geoRender) ←
          updateGeo Math_exp Math_pow createNormalsForGeometry this
            geoRender AV_METHOD_ALL;
        let isFinished := State_eqb (m_state this) AV_STATE_FINISHED in
        updateLoop n' isFinished this geoRender
  end.

(** *** skullRemove: the status, the engine and [volTexDst] after the
    call *)
Definition skullRemove (xDim yDim zDim : Z) (volTexSrc volTexDst : list num)
    (needCreateMask needLog : bool) (this : ActiveVolume)
    : result (Z * ActiveVolume * list num) :=
  let TOO_MUCH_SIZE := 8192 in
  if (xDim >=? TOO_MUCH_SIZE) || (yDim >=? TOO_MUCH_SIZE)
     || (zDim >=? TOO_MUCH_SIZE) then Ok (-1, this, volTexDst)
  else if (xDim <=? 1) || (yDim <=? 1) || (zDim <=? 1) then
    Ok (-1, this, volTexDst)
  else
    '(okCreate, this) ← create xDim yDim zDim volTexSrc this;
    if negb (okCreate =? 1) then Ok (okCreate, this, volTexDst)
    else
      let vRadius := mkVector3 (of_Q 0.5) (of_Q 0.5) (of_Q 0.5) in
      let NUM_SUBDIVIDES := 3 in
      let '(okCreateTetra, genTetra) :=
        TetrahedronGenerator_create vRadius NUM_SUBDIVIDES in
      if (okCreateTetra <? 1) then Ok (okCreateTetra, this, volTexDst)
      else
        let '(errGeo, geoRender) :=
          createFromTetrahedronGenerator genTetra in
        let GEO_OK := 1 in
        if negb (errGeo =? GEO_OK) then
          let ERR_CREATE_GEO := -3 in
          Ok (ERR_CREATE_GEO, this, volTexDst)
        else
          let geoRender := scaleGeo this geoRender in
          let numPredSteps := getPredictedStepsForActiveVolumeUpdate this in
          '(this, _) ←
            updateLoop (Z.to_nat (Qceiling (toQ numPredSteps))) false this
              geoRender;
          Ok (1, this, volTexDst).

End Driver.

(** ** Statements of the specification that the code does not meet *)

(** C1, as stated: all the work of one call belongs to one state. *)
Definition one_state_per_call_claim : Prop :=
  forall (host : Host) (Math_exp : num -> num) (Math_pow : num -> num -> num)
         (createNormalsForGeometry : GeoRender -> Z * GeoRender)
         (this : ActiveVolume) (geo : GeoRender) (method r : Z) (s : Step),
    updateGeo_work Math_exp Math_pow createNormalsForGeometry this geo method
    = Ok (r, s) ->
    forall w1 w2 : Work,
      w1 ∈ st_work s -> w2 ∈ st_work s -> work_state w1 = work_state w2.

(** C6, as stated: [create] itself rejects a dimension [<= 1] or
    [>= 8192] with an error status. *)
Definition create_validates_claim : Prop :=
  forall (host : Host) (xDim yDim zDim : Z) (volTexSrc : list num)
         (this : ActiveVolume),
    (xDim <= 1 \/ yDim <= 1 \/ zDim <= 1 \/
     8192 <= xDim \/ 8192 <= yDim \/ 8192 <= zDim) ->
    forall (r : Z) (this' : ActiveVolume),
      create xDim yDim zDim volTexSrc this = Ok (r, this') -> r < 0.


(** A finite binary64 value. *)
Definition finite64 (x : num) : Prop :=
  match x with
  | Zero _ => True
  | Fin q => B64.round q = Fin q
  | _ => False
  end.

(** C10, as stated: on finite numbers the result lies in [0,1], and in
    the degenerate case [maxRange == minRange] it is 0 when
    [arg <= minRange] and 1 when [arg > minRange]. *)
Definition smoothStep_claim : Prop :=
  forall mn mx a : num,
    finite64 mn -> finite64 mx -> finite64 a ->
    ((0 <=? smoothStep mn mx a)%num = true /\
     (smoothStep mn mx a <=? 1)%num = true) /\
    ((mx =? mn)%num = true ->
     ((a <=? mn)%num = true -> (smoothStep mn mx a =? 0)%num = true) /\
     ((a >? mn)%num = true -> (smoothStep mn mx a =? 1)%num = true)).

(** ** Notions used by the properties *)

(** The two clamps of [smoothStep], and its polynomial. *)
Definition clamp01 (t : num) : num :=
  let t := if (t >? 0)%num then t else 0%num in
  if (t <? 1)%num then t else 1%num.

Definition hermite (t : num) : num :=
  B64.mul (B64.mul t t) (B64.sub 3%num (B64.mul 2%num t)).

(** A binary64 value: finite, it is a number that rounding leaves as it
    is. *)
Definition binary64 (x : num) : Prop :=
  match x with Fin q => B64.round q = Fin q | _ => True end.

(** [smoothStep] once more, on the binary64 numbers of the machine, to
    compare the embedding with. *)
Definition smoothStep_f64 (minRange maxRange arg : float) : float :=
  let t := ((arg - minRange) / (maxRange - minRange))%float in
  let t := if (0 <? t)%float then t else 0%float in
  let t := if (t <? 1)%float then t else 1%float in
  let NUM_2 := 2%float in
  let NUM_3 := 3%float in
  (t * t * (NUM_3 - NUM_2 * t))%float.

(** Sample arguments [(minRange, maxRange, arg)]: a range that is the
    negative zero, an overflow ([arg - minRange] and [maxRange - minRange]
    are infinite), results that are rounded, degenerate ranges, arguments
    next to the ends of the range, subnormal numbers. *)
Definition smoothStep_samples : list (float * float * float) :=
  [(0, -0, 1);
   (-0x1.1ccf385ebc8ap+1023, 0x1.1ccf385ebc8ap+1023, 0x1.1ccf385ebc8ap+1023);
   (0, 3, 1); (5, 5, 6); (5, 5, 5); (5, 5, 4); (0, 255, 100);
   (0x1.999999999999ap-4, 0x1.6666666666666p-1, 0x1.3333333333333p-2);
   (0, 1, 0x1.fffffffffffffp-1); (0, 1, 0x1.0000000000001p-1);
   (-3, 0x1.7e43c8800759cp+996, 7);
   (0x0.00000000007e8p-1022, 0x0.00000000017b8p-1022,
    0x0.0000000000fdp-1022)]%float.

(** What the convolution loop needs and keeps: the source, the kernel and
    the smoothed image are allocated, and the dimensions stay. *)
Definition smooth_ready (x y z : Z) (this : ActiveVolume) : Prop :=
  m_xDim this = x /\ m_yDim this = y /\ m_zDim this = z /\
  is_Some (m_pixelsSrc this) /\ is_Some (m_gaussMatrix this) /\
  is_Some (m_imageGauss this).

(** [n] successive calls of the step function, the statuses they return
    and the engine and geometry after the last. *)
Fixpoint updateGeo_times
    (step : ActiveVolume -> GeoRender -> Z
            -> result (Z * ActiveVolume * GeoRender))
    (n : nat) (this : ActiveVolume) (geo : GeoRender) (method : Z)
    : result (list Z * ActiveVolume * GeoRender) :=
  match n with
  | O => Ok ([], this, geo)
  | Datatypes.S n' =>
      '(r, this, geo) ← step this geo method;
      '(rs, this, geo) ← updateGeo_times step n' this geo method;
      Ok (r :: rs, this, geo)
  end.

(** The control fields of the engine. *)
Definition control (X : State) (G U : Z) (this : ActiveVolume) : Prop :=
  m_state this = X /\ m_gaussStage this = G /\ m_uniformityStage this = U.

(** The work of a call that returned. *)
Definition work_of (res : result (Z * Step)) : option (list Work) :=
  match res with
  | Ok (_, s) => Some (st_work s)
  | Throw _ => None
  end.

(** [sum(histogram)] *)
Definition hist_sum (h : list Z) : Z := foldr Z.add 0 h.

(** Of a histogram pass that returned: [numPixHist], the sum of the 256
    counts and the count of bin 0. *)
Definition pass_counts (res : result (ActiveVolume * Z))
    : option (Z * Z * option Z) :=
  match res with
  | Ok (this, numPixHist) =>
      Some (numPixHist, hist_sum (m_histogram this),
            m_histogram this !! 0%nat)
  | Throw _ => None
  end.

(** What the classifier uses of [x ** 0.3] on the non-negative integers:
    it is 0 at 0, finite and not negative, and monotone. *)
Record pow_spec (Math_pow : num -> num -> num) : Prop := mk_pow_spec {
  pow_zero : Math_pow (of_Z 0) POW_KOEF = 0%num;
  pow_nonneg : forall d : Z, 0 <= d ->
    exists q : Q, (0 <= q)%Q /\ Math_pow (of_Z d) POW_KOEF = of_Q q;
  pow_mono : forall d1 d2 : Z, 0 <= d1 <= d2 ->
    (Math_pow (of_Z d1) POW_KOEF <=? Math_pow (of_Z d2) POW_KOEF)%num = true
}.

(** The weight of a colour at distance [d] from the minimal one. *)
Definition koef_at (Math_pow : num -> num -> num) (d : Z) : num :=
  (1 - 1 / (1 + Math_pow (of_Z d) POW_KOEF))%num.

(** ** Sample inputs

    Stand-ins for the external functions. *)

(** A host that grants no buffer of 2 GiB or more. *)
Definition small_host : Host := fun _ => false.

(** A host that grants every buffer. *)
Definition large_host : Host := fun _ => true.

(** In place of [Math.exp]: the constant 1 (a flat kernel). *)
Definition exp_one : num -> num := fun _ => 1%num.

(** In place of [Math.exp] in the driver's example: the identity. *)
Definition exp_id : num -> num := fun x => x.

(** In place of [**]: the identity of its base. *)
Definition pow_id : num -> num -> num := fun x _ => x.

(** A [createNormalsForGeometry] that succeeds and changes nothing. *)
Definition normals_done : GeoRender -> Z * GeoRender := fun g => (1, g).

(** A 3 x 3 x 4 volume of the value 100 with one corner voxel 0, on an
    engine ready for smoothing. *)
Definition sample_volume : list num :=
  0%num :: replicate 35 100%num.

Definition sample_engine : ActiveVolume :=
  set_m_imageSrc (Some sample_volume)
    (set_m_imageGauss (Some (replicate 36 0%num))
       (set_m_pixelsSrc (Some sample_volume)
          (set_m_xDim 3 (set_m_yDim 3 (set_m_zDim 4 constructor))))).

(** The engine after the smoothing of a 4 x 4 x 4 volume of zeros. *)
Definition zeros4 : ActiveVolume :=
  set_m_imageGauss (Some (replicate 64 0%num))
    (set_m_xDim 4 (set_m_yDim 4 (set_m_zDim 4 constructor))).

(** The engine after the smoothing of a 16 x 16 x 16 volume of zeros. *)
Definition zeros16 : ActiveVolume :=
  set_m_imageGauss (Some (replicate 4096 0%num))
    (set_m_xDim 16 (set_m_yDim 16 (set_m_zDim 16 constructor))).

(** The engine after the smoothing of a 64 x 10 x 10 volume of the value
    0.5. *)
Definition halves64 : ActiveVolume :=
  set_m_imageGauss (Some (replicate (Z.to_nat 6400) (of_Q 0.5)))
    (set_m_xDim 64 (set_m_yDim 10 (set_m_zDim 10 constructor))).

(** An engine about to leave PrepareUniformity: the 4 x 4 x 4 volume of
    zeros is smoothed, 17 of the 18 uniformity steps are done. *)
Definition last_uniformity_step : ActiveVolume :=
  set_m_state AV_STATE_PREPARE_UNIFORMITY
    (set_m_gaussStage 18 (set_m_uniformityStage 17 zeros4)).

(** A geometry of one vertex with its normal. *)
Definition one_vertex : GeoRender :=
  mkGeoRender 1 [1%num; 1%num; 1%num; 1%num]
    [mkVector3 1%num 0%num 0%num] 0.

(** ** saveVolumeSliceToFile (lines 188-286)

    The bytes of the bitmap file, as they are handed to [Blob]; the
    download that follows is outside the model. *)

(** The conversion of a store into a [Uint8Array]: the integer part,
    modulo 256; 0 for NaN and the infinities. *)
Definition to_uint8 (x : num) : Z :=
  match x with
  | Fin q => (if Qltb q 0 then Qceiling q else Qfloor q) mod 256
  | _ => 0
  end.

(** [new Uint8Array(n)]: [n] zeros. *)
Definition new_Uint8Array {host : Host} (n : Z) : result (list Z) :=
  if allocates n 1 then Ok (replicate (Z.to_nat n) 0%Z)
  else Throw RangeError.

(** [buf[i++] = b], [b] an integer *)
Definition put_byte (b : Z) (s : list Z * Z) : list Z * Z :=
  let '(buf, i) := s in (set_elem buf i (b mod 256), i + 1).

(** The four statements that write a 32-bit field, least significant byte
    first: [buf[i++] = v & BYTE_MASK; v >>= BITS_IN_BYTE;] three times, then
    [buf[i++] = v & BYTE_MASK;].  The operands of [&] and [>>] are taken as
    32-bit integers. *)
Definition put_dword (v : Z) (s : list Z * Z) : list Z * Z :=
  let BYTE_MASK := 255 in
  let BITS_IN_BYTE := 8 in
  let s := put_byte (Z.land (to_int32 v) BYTE_MASK) s in
  let v := Z.shiftr (to_int32 v) BITS_IN_BYTE in
  let s := put_byte (Z.land (to_int32 v) BYTE_MASK) s in
  let v := Z.shiftr (to_int32 v) BITS_IN_BYTE in
  let s := put_byte (Z.land (to_int32 v) BYTE_MASK) s in
  let v := Z.shiftr (to_int32 v) BITS_IN_BYTE in
  put_byte (Z.land (to_int32 v) BYTE_MASK) s.

(** [i += n] *)
Definition skip_bytes (n : Z) (s : list Z * Z) : list Z * Z :=
  let '(buf, i) := s in (buf, i + n).

(** Line 193-194: the length of a row of pixels in the file *)
Definition bmp_pixStride (xDim : Z) : Z :=
  let COMPS_IN_COLOR := 3 in
  let pixStride := COMPS_IN_COLOR * xDim in
  Z.land (to_int32 (pixStride + COMPS_IN_COLOR))
         (to_int32 (Z.lnot COMPS_IN_COLOR)).

(** Lines 205-265: the file header and the info header *)
Definition bmp_headers (xDim yDim : Z) (s : list Z * Z) : list Z * Z :=
  let SIZE_HEADER := 14 in
  let SIZE_INFO := 40 in
  let BYTES_IN_DWORD := 4 in
  let pixStride := bmp_pixStride xDim in
  let s := put_byte 66 s in
  let s := put_byte 77 s in
  let bfSize := SIZE_HEADER + SIZE_INFO + pixStride * yDim in
  let s := put_dword bfSize s in
  let s := skip_bytes BYTES_IN_DWORD s in
  let bfOffBits := SIZE_HEADER + SIZE_INFO in
  let s := put_dword bfOffBits s in
  let biSize := SIZE_INFO in
  let s := put_dword biSize s in
  let biWidth := xDim in
  let s := put_dword biWidth s in
  let biHeight := yDim in
  let s := put_dword biHeight s in
  let s := put_byte 1 s in
  let s := put_byte 0 s in
  let s := put_byte 24 s in
  let s := put_byte 0 s in
  let s := skip_bytes BYTES_IN_DWORD s in
  let biSizeImage := pixStride * yDim in
  let s := put_dword biSizeImage s in
  let s := skip_bytes BYTES_IN_DWORD s in
  let s := skip_bytes BYTES_IN_DWORD s in
  let s := skip_bytes BYTES_IN_DWORD s in
  skip_bytes BYTES_IN_DWORD s.

(** Lines 267-275: one pixel, its grey value three times.  The key
    [offSlice + j] is a number, an integer or not. *)
Definition bmp_pixel (pixelsSrc : list num) (offSlice : num) (j : Z)
    (s : list Z * Z) : list Z * Z :=
  let '(buf, i) := s in
  let valGrey := get_at pixelsSrc (B64.add offSlice (of_Z j)) in
  let buf := set_elem buf i (to_uint8 valGrey) in
  let buf := set_elem buf (i + 1) (to_uint8 valGrey) in
  let buf := set_elem buf (i + 2) (to_uint8 valGrey) in
  (buf, i + 3).

(** The dimensions are integers; [zSlice] is any number (the caller
    passes [m_zDim / 2]). *)
Definition saveVolumeSliceToFile {host : Host} (pixelsSrc : list num)
    (xDim yDim zDim : Z) (zSlice : num) : result (list Z) :=
  let SIZE_HEADER := 14 in
  let SIZE_INFO := 40 in
  let COMPS_IN_COLOR := 3 in
  let numPixels := xDim * yDim in
  let totalBufSize := SIZE_HEADER + SIZE_INFO + numPixels * COMPS_IN_COLOR in
  buf ← new_Uint8Array totalBufSize;
  let buf := loop 0 totalBufSize (fun j buf => set_elem buf j 0) buf in
  let s := bmp_headers xDim yDim (buf, 0) in
  let offSlice := B64.mul (B64.mul zSlice (of_Z xDim)) (of_Z yDim) in
  let s := loop 0 numPixels (bmp_pixel pixelsSrc offSlice) s in
  Ok (fst s).

(** The 54 bytes of the two headers. *)
Definition bmp_header_bytes (xDim yDim : Z) : list Z :=
  let dword v :=
    let b0 := Z.land (to_int32 v) 255 in
    let v1 := Z.shiftr (to_int32 v) 8 in
    let b1 := Z.land (to_int32 v1) 255 in
    let v2 := Z.shiftr (to_int32 v1) 8 in
    let b2 := Z.land (to_int32 v2) 255 in
    let v3 := Z.shiftr (to_int32 v2) 8 in
    let b3 := Z.land (to_int32 v3) 255 in
    [b0 mod 256; b1 mod 256; b2 mod 256; b3 mod 256] in
  [66; 77] ++ dword (14 + 40 + bmp_pixStride xDim * yDim) ++ [0; 0; 0; 0]
  ++ dword (14 + 40) ++ dword 40 ++ dword xDim ++ dword yDim
  ++ [1; 0; 24; 0] ++ [0; 0; 0; 0] ++ dword (bmp_pixStride xDim * yDim)
  ++ [0; 0; 0; 0] ++ [0; 0; 0; 0] ++ [0; 0; 0; 0] ++ [0; 0; 0; 0].

(** The 32-bit field stored at [k], least significant byte first. *)
Definition le32 (buf : list Z) (k : Z) : Z :=
  let b (i : Z) := default 0 (buf !! Z.to_nat i) in
  b k + 256 * b (k + 1) + 65536 * b (k + 2) + 16777216 * b (k + 3).

(** The byte stored at [k]. *)
Definition byte_at (buf : list Z) (k : Z) : option Z :=
  if (k <? 0)%Z then None else buf !! Z.to_nat k.

(** The number [x] is the integer [n]. *)
Definition int_val (x : num) (n : Z) : Prop :=
  match x with
  | Zero _ => n = 0
  | Fin q => (q == inject_Z n)%Q
  | _ => False
  end.

(** ** Notions used by the properties of the step function *)

(** An engine in UpdateGeo: the 4 x 4 x 4 volume of zeros, classified. *)
Definition relaxing : ActiveVolume :=
  set_m_state AV_STATE_UPDATE_GEO (set_m_geoStage 0 zeros4).

(** A fresh engine on a 2 x 2 x 2 volume, as [create] leaves it. *)
Definition created222 : ActiveVolume :=
  set_m_state AV_STATE_NOT_STARTED
    (set_m_pixelsSrc (Some (replicate 8 1%num))
       (set_m_imageGauss (Some (replicate 8 0%num))
          (set_m_imageUniformity (Some (replicate 8 0%num))
             (set_m_xDim 2 (set_m_yDim 2 (set_m_zDim 2 constructor)))))).

(** A [createNormalsForGeometry] that fails with the status [-2]. *)
Definition normals_fail : GeoRender -> Z * GeoRender := fun g => (-2, g).

(** A binary32 value, as a [Float32Array] holds them: finite, it has a
    mantissa of 24 bits, and a store into the array leaves it as it is. *)
Definition binary32 (x : num) : Prop :=
  match x with
  | Fin q => exists m e : Z,
      Z.abs m < 2 ^ 24 /\ -149 <= e <= 104 /\
      (q == inject_Z m * B64.pow2 e)%Q
  | _ => True
  end.

(** The counter of the state the engine is in. *)
Definition stage_of (this : ActiveVolume) : Z :=
  match m_state this with
  | AV_STATE_PREPARE_GAUSS => m_gaussStage this
  | AV_STATE_PREPARE_UNIFORMITY => m_uniformityStage this
  | AV_STATE_UPDATE_GEO => m_geoStage this
  | _ => 0
  end.

(** Where [k] calls of [updateGeo] bring a fresh engine: 17 calls in
    PrepareGauss, 17 in PrepareUniformity, then UpdateGeo. *)
Definition schedule (k : Z) : State * Z :=
  if (k <=? 0)%Z then (AV_STATE_NOT_STARTED, 0)
  else if (k <? 18)%Z then (AV_STATE_PREPARE_GAUSS, k)
  else if (k <? 35)%Z then (AV_STATE_PREPARE_UNIFORMITY, k - 17)
  else (AV_STATE_UPDATE_GEO, k - 34).

(** The engine after [k] calls: where it is, and the buffers the next
    call needs (the first call allocates two buffers of the size of the
    volume). *)
Definition on_schedule {host : Host} (k : Z) (this : ActiveVolume)
    : Prop :=
  (m_state this, stage_of this) = schedule k /\
  is_Some (m_imageGauss this) /\
  (k <= 0 ->
   is_Some (m_pixelsSrc this) /\ is_Some (m_imageUniformity this) /\
   allocates (m_xDim this * m_yDim this * m_zDim this) 4 = true) /\
  (0 < k < 18 ->
   is_Some (m_pixelsSrc this) /\ is_Some (m_imageSrc this) /\
   is_Some (m_gaussMatrix this)).

(** Dimensions as the driver admits them.  The counters of the loops of
    the engine (integers, and halves in the classifier) are then far below
    [2^53]: incrementing them is exact. *)
Definition dims_in_range (this : ActiveVolume) : Prop :=
  0 <= m_xDim this < 8192 /\ 0 <= m_yDim this < 8192 /\
  0 <= m_zDim this < 8192.

(** * Part II: properties *)

(** ** Facts about the number model *)

Section NumFacts.

Lemma Qltb_lt (p q : Q) : Qltb p q = true <-> (p < q)%Q.
Proof.
  unfold Qltb. rewrite negb_true_iff. split.
  - intros H. apply Qnot_le_lt. intros L.
    apply Qle_bool_iff in L. congruence.
  - intros H. destruct (Qle_bool q p) eqn:E; [|reflexivity].
    apply Qle_bool_iff in E. exfalso. apply (Qlt_not_le _ _ H E).
Qed.

Lemma Qltb_ge (p q : Q) : Qltb p q = false <-> (q <= p)%Q.
Proof.
  unfold Qltb. rewrite negb_false_iff. apply Qle_bool_iff.
Qed.

Lemma Qeq_bool_false (p q : Q) : Qeq_bool p q = false <-> ~ (p == q)%Q.
Proof.
  split.
  - intros H E. apply Qeq_bool_iff in E. congruence.
  - intros H. destruct (Qeq_bool p q) eqn:E; [|reflexivity].
    apply Qeq_bool_iff in E. contradiction.
Qed.

Lemma of_Q_nz (q : Q) : ~ (q == 0)%Q -> of_Q q = Fin (Qred q).
Proof.
  intros H. unfold of_Q. apply Qeq_bool_false in H. now rewrite H.
Qed.

Lemma of_Q_z (q : Q) : (q == 0)%Q -> of_Q q = Zero false.
Proof.
  intros H. unfold of_Q. apply Qeq_bool_iff in H. now rewrite H.
Qed.

Lemma of_Q_finite (q : Q) : finite (of_Q q).
Proof.
  unfold of_Q. destruct (Qeq_bool q 0) eqn:E; simpl; [exact I|].
  apply Qeq_bool_false in E. now rewrite Qred_correct.
Qed.

Lemma toQ_of_Q (q : Q) : (toQ (of_Q q) == q)%Q.
Proof.
  unfold of_Q. destruct (Qeq_bool q 0) eqn:E; simpl.
  - apply Qeq_bool_iff in E. now rewrite E.
  - apply Qred_correct.
Qed.

End NumFacts.

(** ** Binary64: powers of two *)

Lemma pow2_pos (e : Z) : (0 < B64.pow2 e)%Q.
Proof. apply Qpower_0_lt. reflexivity. Qed.

Lemma pow2_add (a b : Z) : (B64.pow2 (a + b) == B64.pow2 a * B64.pow2 b)%Q.
Proof. apply Qpower_plus. discriminate. Qed.

Lemma pow2_lt (a b : Z) : a < b -> (B64.pow2 a < B64.pow2 b)%Q.
Proof. intros H. apply Qpower_lt_compat_l; [exact H|reflexivity]. Qed.

Lemma pow2_le (a b : Z) : a <= b -> (B64.pow2 a <= B64.pow2 b)%Q.
Proof. intros H. apply Qpower_le_compat_l; [exact H|discriminate]. Qed.

Lemma pow2_lt_inv (a b : Z) : (B64.pow2 a < B64.pow2 b)%Q -> a < b.
Proof. intros H. apply (Qpower_lt_compat_l_inv 2); [exact H|reflexivity]. Qed.

Lemma pow2_Z (n : Z) : 0 <= n -> (B64.pow2 n == inject_Z (2 ^ n))%Q.
Proof. intros H. unfold B64.pow2. symmetry. now apply Zpower_Qpower. Qed.

(** ** Binary64: the binade of a number *)

Lemma ilog2_spec (q : Q) :
  (0 < q)%Q ->
  (B64.pow2 (B64.ilog2 q) <= q)%Q /\ (q < B64.pow2 (B64.ilog2 q + 1))%Q.
Proof.
  intros Hq.
  set (a := Qnum q). set (b := Zpos (Qden q)).
  assert (Ha : 0 < a).
  { unfold a. destruct q as [n d]. unfold Qlt in Hq. simpl in *. lia. }
  assert (Hb : 0 < b) by (unfold b; lia).
  assert (Hqb : (q * inject_Z b == inject_Z a)%Q).
  { unfold a, b. destruct q as [n d]. unfold Qeq, Qmult, inject_Z. simpl.
    lia. }
  destruct (Z.log2_spec a Ha) as [La Ua].
  destruct (Z.log2_spec b Hb) as [Lb Ub].
  pose proof (Z.log2_nonneg a) as Na. pose proof (Z.log2_nonneg b) as Nb.
  set (la := Z.log2 a) in *. set (lb := Z.log2 b) in *.
  assert (C1 : (B64.pow2 (la - lb - 1) <= q)%Q).
  { apply (Qmult_le_r _ _ (B64.pow2 (lb + 1))); [apply pow2_pos|].
    rewrite <- pow2_add. replace (la - lb - 1 + (lb + 1)) with la by lia.
    rewrite pow2_Z by lia.
    apply Qle_trans with (inject_Z a).
    - rewrite <- Zle_Qle. exact La.
    - rewrite <- Hqb. rewrite pow2_Z by lia.
      apply Qmult_le_l; [exact Hq|]. rewrite <- Zle_Qle.
      unfold Z.succ in Ub. lia. }
  assert (C2 : (q < B64.pow2 (la - lb + 1))%Q).
  { apply (Qmult_lt_r _ _ (B64.pow2 lb)); [apply pow2_pos|].
    rewrite <- pow2_add. replace (la - lb + 1 + lb) with (la + 1) by lia.
    rewrite (pow2_Z (la + 1)) by lia.
    apply Qle_lt_trans with (inject_Z a).
    - rewrite <- Hqb. rewrite pow2_Z by lia.
      apply Qmult_le_l; [exact Hq|]. rewrite <- Zle_Qle. exact Lb.
    - rewrite <- Zlt_Qlt. unfold Z.succ in Ua. exact Ua. }
  unfold B64.ilog2. fold a b la lb.
  destruct (Qle_bool (B64.pow2 (la - lb)) q) eqn:T.
  - apply Qle_bool_iff in T. split; [exact T|exact C2].
  - split; [exact C1|].
    replace (la - lb - 1 + 1) with (la - lb) by lia.
    apply Qnot_le_lt. intros T'. apply Qle_bool_iff in T'. congruence.
Qed.

Lemma ilog2_unique (q : Q) (e : Z) :
  (B64.pow2 e <= q)%Q -> (q < B64.pow2 (e + 1))%Q -> B64.ilog2 q = e.
Proof.
  intros L U.
  assert (Hq : (0 < q)%Q) by (eapply Qlt_le_trans; [apply pow2_pos|exact L]).
  destruct (ilog2_spec q Hq) as [L' U'].
  assert (B64.ilog2 q < e + 1).
  { apply pow2_lt_inv. eapply Qle_lt_trans; [exact L'|exact U]. }
  assert (e < B64.ilog2 q + 1).
  { apply pow2_lt_inv. eapply Qle_lt_trans; [exact L|exact U']. }
  lia.
Qed.

(** ** Binary64: the nearest integer *)

#[global] Instance rne_comp : Proper (Qeq ==> eq) B64.rne.
Proof.
  intros p q E. unfold B64.rne. rewrite (Qfloor_comp p q E).
  assert (E' : (p - inject_Z (Qfloor q) == q - inject_Z (Qfloor q))%Q)
    by (rewrite E; reflexivity).
  now rewrite (Qcompare_comp _ _ E' (1 # 2) (1 # 2) (Qeq_refl _)).
Qed.

Lemma rne_floor (q : Q) : Qfloor q <= B64.rne q <= Qfloor q + 1.
Proof.
  unfold B64.rne. destruct (_ ?= _)%Q; [destruct (Z.even _)| |]; lia.
Qed.

Lemma rne_error (q : Q) :
  (inject_Z (B64.rne q) <= q + (1 # 2))%Q /\
  (q - (1 # 2) <= inject_Z (B64.rne q))%Q.
Proof.
  pose proof (Qfloor_le q) as F1. pose proof (Qlt_floor q) as F2.
  rewrite inject_Z_plus in F2. change (inject_Z 1) with 1%Q in F2.
  unfold B64.rne.
  destruct (Qcompare_spec (q - inject_Z (Qfloor q)) (1 # 2)) as [E|E|E].
  - destruct (Z.even (Qfloor q)); rewrite ?inject_Z_plus;
      change (inject_Z 1) with 1%Q; split; lra.
  - split; lra.
  - rewrite inject_Z_plus. change (inject_Z 1) with 1%Q. split; lra.
Qed.

Lemma rne_ge (q : Q) (N : Z) : (inject_Z N <= q)%Q -> N <= B64.rne q.
Proof.
  intros H. apply Qfloor_resp_le in H. rewrite Qfloor_Z in H.
  pose proof (rne_floor q). lia.
Qed.

Lemma rne_le (q : Q) (N : Z) : (q <= inject_Z N)%Q -> B64.rne q <= N.
Proof.
  intros H.
  pose proof (Qfloor_resp_le _ _ H) as F. rewrite Qfloor_Z in F.
  pose proof (Qfloor_le q) as F1.
  unfold B64.rne.
  destruct (Z.eq_dec (Qfloor q) N) as [E|E].
  - assert (D : (q - inject_Z (Qfloor q) < 1 # 2)%Q) by (rewrite E; lra).
    destruct (Qcompare_spec (q - inject_Z (Qfloor q)) (1 # 2)) as [C|C|C];
      [lra|lia|lra].
  - destruct (_ ?= _)%Q; [destruct (Z.even _)| |]; lia.
Qed.

Lemma rne_Z (N : Z) : B64.rne (inject_Z N) = N.
Proof.
  pose proof (rne_le (inject_Z N) N ltac:(apply Qle_refl)).
  pose proof (rne_ge (inject_Z N) N ltac:(apply Qle_refl)). lia.
Qed.

Lemma rne_down (q : Q) (N : Z) :
  (inject_Z N <= q)%Q -> (q < inject_Z N + (1 # 2))%Q -> B64.rne q = N.
Proof.
  intros L U.
  assert (F : Qfloor q = N).
  { pose proof (Qfloor_resp_le _ _ L) as F. rewrite Qfloor_Z in F.
    assert (U' : (q <= inject_Z N + (1 # 2))%Q) by lra.
    pose proof (Qfloor_le q) as F1.
    destruct (Z.eq_dec (Qfloor q) N) as [E|E]; [exact E|].
    assert (N + 1 <= Qfloor q) by lia.
    rewrite Zle_Qle, inject_Z_plus in H. change (inject_Z 1) with 1%Q in H.
    lra. }
  unfold B64.rne. rewrite F.
  assert (D : (q - inject_Z N < 1 # 2)%Q) by lra.
  destruct (Qcompare_spec (q - inject_Z N) (1 # 2)) as [C|C|C];
    [lra|reflexivity|lra].
Qed.

(** ** Binary64: rounding a magnitude *)

Lemma ulp_pos (q : Q) : (0 < B64.ulp q)%Q.
Proof. apply pow2_pos. Qed.

Lemma ilog2_comp (p q : Q) : (0 < p)%Q -> (p == q)%Q ->
  B64.ilog2 p = B64.ilog2 q.
Proof.
  intros Hp E. destruct (ilog2_spec p Hp) as [L U].
  symmetry. apply ilog2_unique; rewrite <- E; assumption.
Qed.

Lemma ulp_comp (p q : Q) : (0 < p)%Q -> (p == q)%Q -> B64.ulp p = B64.ulp q.
Proof. intros Hp E. unfold B64.ulp. now rewrite (ilog2_comp p q Hp E). Qed.

Lemma round_mag_comp (s : bool) (p q : Q) :
  (0 < p)%Q -> (p == q)%Q -> B64.round_mag s p = B64.round_mag s q.
Proof.
  intros Hp E. unfold B64.round_mag. rewrite (ulp_comp p q Hp E).
  assert (M : B64.rne (p / B64.ulp q) = B64.rne (q / B64.ulp q))
    by (now rewrite E).
  now rewrite M.
Qed.

Lemma round_pos (q : Q) : (0 < q)%Q -> B64.round q = B64.round_mag false q.
Proof.
  intros Hq. unfold B64.round.
  destruct (Qeq_bool q 0) eqn:Z0.
  { apply Qeq_bool_iff in Z0. rewrite Z0 in Hq. discriminate Hq. }
  assert (S : Qltb q 0 = false).
  { unfold Qltb. apply negb_false_iff, Qle_bool_iff. now apply Qlt_le_weak. }
  rewrite S. apply round_mag_comp.
  - rewrite Qabs_pos by now apply Qlt_le_weak. exact Hq.
  - apply Qabs_pos. now apply Qlt_le_weak.
Qed.

Lemma round_neg (q : Q) : (q < 0)%Q -> B64.round q = B64.round_mag true (- q).
Proof.
  intros Hq. unfold B64.round.
  destruct (Qeq_bool q 0) eqn:Z0.
  { apply Qeq_bool_iff in Z0. rewrite Z0 in Hq. discriminate Hq. }
  assert (S : Qltb q 0 = true).
  { unfold Qltb. apply negb_true_iff.
    destruct (Qle_bool 0 q) eqn:L; [|reflexivity].
    apply Qle_bool_iff in L. lra. }
  rewrite S. apply round_mag_comp.
  - rewrite Qabs_neg by now apply Qlt_le_weak. lra.
  - apply Qabs_neg. now apply Qlt_le_weak.
Qed.

(** The mantissa of the rounded magnitude. *)
Lemma mantissa_bounds (q : Q) :
  (0 < q)%Q ->
  0 <= B64.rne (q / B64.ulp q) <= 2 ^ 53 /\
  (-1022 <= B64.ilog2 q -> 2 ^ 52 <= B64.rne (q / B64.ulp q)).
Proof.
  intros Hq. pose proof (ulp_pos q) as Hu.
  destruct (ilog2_spec q Hq) as [L U].
  set (i := B64.ilog2 q) in *.
  unfold B64.ulp in *. fold i in Hu |- *.
  set (E := Z.max i (-1022)) in *.
  split; [split|].
  - apply rne_ge. apply Qle_shift_div_l; [exact Hu|].
    change (inject_Z 0) with 0%Q. lra.
  - apply rne_le. apply Qle_shift_div_r; [exact Hu|].
    rewrite <- (pow2_Z 53) by lia. rewrite <- pow2_add.
    apply Qle_trans with (B64.pow2 (i + 1)); [now apply Qlt_le_weak|].
    apply pow2_le. lia.
  - intros Hi. apply rne_ge. apply Qle_shift_div_l; [exact Hu|].
    rewrite <- (pow2_Z 52) by lia. rewrite <- pow2_add.
    apply Qle_trans with (B64.pow2 i); [|exact L].
    apply pow2_le. lia.
Qed.

(** A magnitude that is not above a number of its grid is not rounded
    above it. *)
Lemma round_mag_upper (q g : Q) (G : Z) :
  (0 < q)%Q -> (q <= g)%Q -> (g == inject_Z G * B64.ulp q)%Q ->
  (g < B64.pow2 1024)%Q ->
  B64.round_mag false q = Zero false \/
  exists r, B64.round_mag false q = Fin r /\ (0 < r)%Q /\ (r <= g)%Q.
Proof.
  intros Hq Hg HG Hmax. pose proof (ulp_pos q) as Hu.
  destruct (mantissa_bounds q Hq) as [[M0 _] _].
  assert (M : B64.rne (q / B64.ulp q) <= G).
  { apply rne_le. apply Qle_shift_div_r; [exact Hu|]. now rewrite <- HG. }
  unfold B64.round_mag.
  set (m := B64.rne (q / B64.ulp q)) in *.
  destruct (Z.eqb_spec m 0) as [Z0|Z0]; [now left|right].
  assert (R : (inject_Z m * B64.ulp q <= g)%Q).
  { rewrite HG. apply Qmult_le_compat_r; [|now apply Qlt_le_weak].
    now rewrite <- Zle_Qle. }
  destruct (Qle_bool (B64.pow2 1024) (inject_Z m * B64.ulp q)) eqn:O.
  { apply Qle_bool_iff in O. lra. }
  eexists. split; [reflexivity|]. rewrite Qred_correct.
  split; [|exact R]. apply Qmult_lt_0_compat; [|exact Hu].
  change 0%Q with (inject_Z 0). rewrite <- Zlt_Qlt. lia.
Qed.

(** The same, the bound a multiple of a power of two. *)
Lemma round_mag_upper_pow (q : Q) (G j : Z) :
  (0 < q)%Q -> (q <= inject_Z G * B64.pow2 j)%Q ->
  (q < B64.pow2 (j + 53))%Q -> -1074 <= j ->
  (inject_Z G * B64.pow2 j < B64.pow2 1024)%Q ->
  B64.round_mag false q = Zero false \/
  exists r, B64.round_mag false q = Fin r /\ (0 < r)%Q /\
            (r <= inject_Z G * B64.pow2 j)%Q.
Proof.
  intros Hq Hg Hb Hj Hmax.
  destruct (ilog2_spec q Hq) as [L _].
  assert (I : B64.ilog2 q < j + 53).
  { apply pow2_lt_inv. eapply Qle_lt_trans; [exact L|exact Hb]. }
  apply (round_mag_upper q _ (G * 2 ^ (j - (Z.max (B64.ilog2 q) (-1022) - 52))));
    try assumption.
  unfold B64.ulp. rewrite inject_Z_mult, <- Qmult_assoc.
  rewrite <- pow2_Z by lia. rewrite <- pow2_add.
  apply Qmult_comp; [reflexivity|]. f_equiv. lia.
Qed.

(** A magnitude of its own grid is not rounded. *)
Lemma round_mag_exact (s : bool) (q : Q) (N : Z) :
  (0 < q)%Q -> (q == inject_Z N * B64.ulp q)%Q -> (q < B64.pow2 1024)%Q ->
  B64.round_mag s q = Fin (Qred (if s then - q else q)).
Proof.
  intros Hq HN Hmax. pose proof (ulp_pos q) as Hu.
  assert (M : B64.rne (q / B64.ulp q) = N).
  { rewrite <- (rne_Z N). apply rne_comp.
    rewrite HN at 1. field. intros Z0. rewrite Z0 in Hu. discriminate Hu. }
  unfold B64.round_mag. rewrite M.
  destruct (Z.eqb_spec N 0) as [Z0|Z0].
  { exfalso. rewrite Z0 in HN. rewrite HN in Hq. 
    assert (E : (inject_Z 0 * B64.ulp q == 0)%Q) by ring.
    rewrite E in Hq. discriminate Hq. }
  destruct (Qle_bool (B64.pow2 1024) (inject_Z N * B64.ulp q)) eqn:O.
  { apply Qle_bool_iff in O. rewrite <- HN in O. lra. }
  f_equal. apply Qred_complete. destruct s; rewrite <- HN; reflexivity.
Qed.

Lemma round_mag_exact_pow (s : bool) (q : Q) (N j : Z) :
  (0 < q)%Q -> (q == inject_Z N * B64.pow2 j)%Q ->
  (q < B64.pow2 (j + 53))%Q -> -1074 <= j -> (q < B64.pow2 1024)%Q ->
  B64.round_mag s q = Fin (Qred (if s then - q else q)).
Proof.
  intros Hq HN Hb Hj Hmax.
  destruct (ilog2_spec q Hq) as [L _].
  assert (I : B64.ilog2 q < j + 53).
  { apply pow2_lt_inv. eapply Qle_lt_trans; [exact L|exact Hb]. }
  apply (round_mag_exact s q
           (N * 2 ^ (j - (Z.max (B64.ilog2 q) (-1022) - 52))));
    try assumption.
  rewrite HN at 1.
  unfold B64.ulp. rewrite inject_Z_mult, <- Qmult_assoc.
  rewrite <- pow2_Z by lia. rewrite <- pow2_add.
  apply Qmult_comp; [reflexivity|]. f_equiv. lia.
Qed.

(** The result of a rounding: a zero, an infinity or a number of the
    sign. *)
Lemma round_mag_form (s : bool) (q : Q) :
  (0 < q)%Q ->
  B64.round_mag s q = Zero s \/ B64.round_mag s q = Inf s \/
  exists (m E : Z),
    1 <= m <= 2 ^ 53 /\ -1022 <= E /\
    B64.round_mag s q
    = Fin (Qred (if s then - (inject_Z m * B64.pow2 (E - 52))
                 else inject_Z m * B64.pow2 (E - 52))).
Proof.
  intros Hq. destruct (mantissa_bounds q Hq) as [[M0 M1] _].
  unfold B64.round_mag.
  set (m := B64.rne (q / B64.ulp q)) in *.
  destruct (Z.eqb_spec m 0) as [Z0|Z0]; [now left|right].
  destruct (Qle_bool _ _); [now left|right].
  exists m, (Z.max (B64.ilog2 q) (-1022)).
  split; [lia|]. split; [lia|]. reflexivity.
Qed.

(** Down to [2^-1074] nothing is rounded to zero. *)
Lemma round_mag_nonzero (s s' : bool) (q : Q) :
  (B64.pow2 (-1074) <= q)%Q -> B64.round_mag s q <> Zero s'.
Proof.
  intros Hq.
  assert (Hq0 : (0 < q)%Q)
    by (eapply Qlt_le_trans; [apply pow2_pos|exact Hq]).
  pose proof (ulp_pos q) as Hu.
  destruct (mantissa_bounds q Hq0) as [_ M].
  assert (M1 : 1 <= B64.rne (q / B64.ulp q)).
  { destruct (Z.le_gt_cases (-1022) (B64.ilog2 q)) as [I|I].
    - specialize (M I). lia.
    - apply rne_ge. apply Qle_shift_div_l; [exact Hu|].
      unfold B64.ulp. rewrite Z.max_r by lia.
      change (-1022 - 52) with (-1074). change (inject_Z 1) with 1%Q. lra. }
  unfold B64.round_mag.
  destruct (Z.eqb_spec (B64.rne (q / B64.ulp q)) 0) as [Z0|Z0]; [lia|].
  destruct (Qle_bool _ _); discriminate.
Qed.

(** ** Binary64: the numbers *)

Lemma Qred_idem (q : Q) : Qred (Qred q) = Qred q.
Proof. apply Qred_complete, Qred_correct. Qed.

(** The sign and the size of a binary64 number. *)
Lemma round_sign (q r : Q) :
  B64.round q = Fin r -> ((0 < q)%Q <-> (0 < r)%Q).
Proof.
  intros E.
  destruct (Qlt_le_dec 0 q) as [P|P].
  - split; [intros _|now intros _].
    rewrite (round_pos q P) in E.
    destruct (round_mag_form false q P) as [Z|[I|(m & e & M & _ & F)]];
      [congruence|congruence|].
    rewrite F in E. injection E as <-. rewrite Qred_correct.
    apply Qmult_lt_0_compat; [|apply pow2_pos].
    change 0%Q with (inject_Z 0). rewrite <- Zlt_Qlt. lia.
  - split; [intros P'; lra|intros R; exfalso].
    destruct (Qeq_dec q 0) as [Z0|Z0].
    + unfold B64.round in E. apply Qeq_bool_iff in Z0. rewrite Z0 in E.
      discriminate E.
    + assert (N : (q < 0)%Q) by (apply Qle_lt_or_eq in P; tauto).
      rewrite (round_neg q N) in E.
      assert (N' : (0 < - q)%Q) by lra.
      destruct (round_mag_form true (- q) N')
        as [Z|[I|(m & e & M & _ & F)]]; [congruence|congruence|].
      rewrite F in E. injection E as <-. rewrite Qred_correct in R.
      assert (0 < inject_Z m * B64.pow2 (e - 52))%Q.
      { apply Qmult_lt_0_compat; [|apply pow2_pos].
        change 0%Q with (inject_Z 0). rewrite <- Zlt_Qlt. lia. }
      lra.
Qed.

(** A binary64 number of the binade [e] is a multiple of [2^(e-52)]. *)
Lemma binary64_binade (q : Q) (e : Z) :
  B64.round q = Fin q ->
  (B64.pow2 e <= q)%Q -> (q < B64.pow2 (e + 1))%Q -> -1022 <= e ->
  exists k : Z, (q == inject_Z k * B64.pow2 (e - 52))%Q.
Proof.
  intros R L U He.
  assert (Hq : (0 < q)%Q) by (eapply Qlt_le_trans; [apply pow2_pos|exact L]).
  rewrite (round_pos q Hq) in R. unfold B64.round_mag in R.
  assert (Eu : B64.ulp q = B64.pow2 (e - 52)).
  { unfold B64.ulp. rewrite (ilog2_unique q e L U). f_equal. lia. }
  rewrite Eu in R.
  destruct (Z.eqb _ 0); [discriminate R|].
  destruct (Qle_bool _ _); [discriminate R|].
  injection R as R. eexists. rewrite <- R at 1. apply Qred_correct.
Qed.

(** Every binary64 number is a multiple of [2^-1074]. *)
Lemma binary64_grid (q : Q) :
  B64.round q = Fin q ->
  exists k : Z, (q == inject_Z k * B64.pow2 (-1074))%Q.
Proof.
  intros R.
  assert (G : forall (m e : Z), -1022 <= e ->
    (inject_Z m * B64.pow2 (e - 52)
     == inject_Z (m * 2 ^ (e + 1022)) * B64.pow2 (-1074))%Q).
  { intros m e He. rewrite inject_Z_mult, <- Qmult_assoc.
    rewrite <- pow2_Z by lia. rewrite <- pow2_add.
    apply Qmult_comp; [reflexivity|]. f_equiv. lia. }
  destruct (Qlt_le_dec 0 q) as [P|P].
  - rewrite (round_pos q P) in R.
    destruct (round_mag_form false q P) as [Z|[I|(m & e & M & He & F)]];
      [congruence|congruence|].
    rewrite F in R. injection R as R.
    exists (m * 2 ^ (e + 1022)). rewrite <- R at 1.
    rewrite Qred_correct. now apply G.
  - destruct (Qeq_dec q 0) as [Z0|Z0].
    + exists 0. rewrite Z0. ring.
    + assert (N : (q < 0)%Q) by (apply Qle_lt_or_eq in P; tauto).
      rewrite (round_neg q N) in R.
      assert (N' : (0 < - q)%Q) by lra.
      destruct (round_mag_form true (- q) N')
        as [Z|[I|(m & e & M & He & F)]]; [congruence|congruence|].
      rewrite F in R. injection R as R.
      exists (- (m * 2 ^ (e + 1022))). rewrite <- R at 1.
      rewrite Qred_correct, (G m e He).
      rewrite inject_Z_opp. ring.
Qed.

(** What a rounding returns is a binary64 number. *)
Lemma round_idem (r q : Q) : B64.round r = Fin q -> B64.round q = Fin q.
Proof.
  intros E.
  assert (C : Qred q = q).
  { unfold B64.round, B64.round_mag in E.
    destruct (Qeq_bool r 0); [discriminate E|].
    destruct (Z.eqb _ 0); [discriminate E|].
    destruct (Qle_bool _ _); [discriminate E|].
    injection E as <-. apply Qred_idem. }
  assert (K : forall (s : bool) (x : Q) (m e : Z),
    (0 < x)%Q -> 1 <= m <= 2 ^ 53 -> -1022 <= e ->
    (x == inject_Z m * B64.pow2 (e - 52))%Q -> (x < B64.pow2 1024)%Q ->
    B64.round_mag s x = Fin (Qred (if s then - x else x))).
  { intros s x m e Hx M He Ex Hmax.
    destruct (Z.eq_dec m (2 ^ 53)) as [T|T].
    - apply (round_mag_exact_pow s x 1 (e + 1)); try assumption; try lia.
      + rewrite Ex, T. rewrite <- (pow2_Z 53) by lia. rewrite <- pow2_add.
        change (inject_Z 1) with 1%Q. rewrite Qmult_1_l. f_equiv. lia.
      + rewrite Ex, T. rewrite <- (pow2_Z 53) by lia. rewrite <- pow2_add.
        apply pow2_lt. lia.
    - apply (round_mag_exact_pow s x m (e - 52)); try assumption; try lia.
      rewrite Ex. replace (e - 52 + 53) with (53 + (e - 52)) by lia.
      rewrite pow2_add. apply Qmult_lt_compat_r; [apply pow2_pos|].
      rewrite pow2_Z by lia. rewrite <- Zlt_Qlt. lia. }
  destruct (Qlt_le_dec 0 r) as [P|P].
  - rewrite (round_pos r P) in E. unfold B64.round_mag in E.
    destruct (mantissa_bounds r P) as [[M0 M1] _].
    destruct (Z.eqb_spec (B64.rne (r / B64.ulp r)) 0) as [Z0|Z0];
      [discriminate E|].
    destruct (Qle_bool _ _) eqn:O; [discriminate E|].
    injection E as E.
    assert (Eq : (q == inject_Z (B64.rne (r / B64.ulp r)) * B64.ulp r)%Q)
      by (rewrite <- E; apply Qred_correct).
    assert (Hq : (0 < q)%Q).
    { rewrite Eq. apply Qmult_lt_0_compat; [|apply ulp_pos].
      change 0%Q with (inject_Z 0). rewrite <- Zlt_Qlt. lia. }
    rewrite (round_pos q Hq).
    rewrite (K false q (B64.rne (r / B64.ulp r))
               (Z.max (B64.ilog2 r) (-1022))); try assumption; try lia.
    + now rewrite C.
    + rewrite Eq. apply Qnot_le_lt. intros O'.
      apply Qle_bool_iff in O'. congruence.
  - destruct (Qeq_dec r 0) as [Z0|Z0].
    { unfold B64.round in E. apply Qeq_bool_iff in Z0. rewrite Z0 in E.
      discriminate E. }
    assert (N : (r < 0)%Q) by (apply Qle_lt_or_eq in P; tauto).
    assert (N' : (0 < - r)%Q) by lra.
    rewrite (round_neg r N) in E. unfold B64.round_mag in E.
    destruct (mantissa_bounds (- r) N') as [[M0 M1] _].
    destruct (Z.eqb_spec (B64.rne (- r / B64.ulp (- r))) 0) as [Z1|Z1];
      [discriminate E|].
    destruct (Qle_bool _ _) eqn:O; [discriminate E|].
    injection E as E.
    assert (Eq : (- q == inject_Z (B64.rne (- r / B64.ulp (- r)))
                         * B64.ulp (- r))%Q).
    { rewrite <- E. rewrite Qred_correct. ring. }
    assert (Hq : (0 < - q)%Q).
    { rewrite Eq. apply Qmult_lt_0_compat; [|apply ulp_pos].
      change 0%Q with (inject_Z 0). rewrite <- Zlt_Qlt. lia. }
    assert (Hq' : (q < 0)%Q) by lra.
    rewrite (round_neg q Hq').
    rewrite (K true (- q)%Q (B64.rne (- r / B64.ulp (- r)))
               (Z.max (B64.ilog2 (- r)) (-1022))); try assumption; try lia.
    + f_equal. rewrite <- C at 2. apply Qred_complete. ring.
    + rewrite Eq. apply Qnot_le_lt. intros O'.
      apply Qle_bool_iff in O'. congruence.
Qed.

(** ** Binary64: the arithmetic of the polynomial near 1 *)

Lemma hermite_core_hi (T j m : Z) :
  0 < j < T ->
  (j * j < T -> m = 2 * T - 2 * j) ->
  4 * T * m <= 2 * ((2 * T - j) * (2 * T - j)) + 2 * T ->
  m * (T + j) <= 2 * (T * T).
Proof.
  intros Hj Hs Hm.
  destruct (Z.lt_ge_cases (j * j) T) as [S|S].
  - rewrite (Hs S). nia.
  - assert (A1 : j * j * j <= T * (j * j)) by nia.
    assert (A2 : T * T <= T * (j * j)) by nia.
    assert (A3 : T * j <= T * (j * j)) by nia.
    assert (A4 : 4 * T * (m * (T + j)) <= 4 * T * (2 * (T * T))) by nia.
    nia.
Qed.

Lemma hermite_core_lo (T j m : Z) :
  0 < j < T -> T <= 2 * j ->
  2 * T * m <= 2 * ((2 * T - j) * (2 * T - j)) + T ->
  m * (T + j) <= 4 * (T * T).
Proof.
  intros Hj Hh Hm.
  assert (A1 : j * j * j <= T * (j * j)) by nia.
  assert (A2 : T * T <= 2 * (T * (j * j))) by nia.
  assert (A3 : T * j <= T * (j * j)) by nia.
  assert (A4 : 2 * T * (m * (T + j)) <= 2 * T * (4 * (T * T))) by nia.
  nia.
Qed.

(** ** Binary64: the polynomial of [smoothStep] on the unit interval *)

Lemma pow2_1024_big : (4 < B64.pow2 1024)%Q.
Proof. vm_compute. reflexivity. Qed.

(** A positive number that is at most 1 (or 3) is not rounded above it. *)
Lemma round_upper_small (x : Q) (G j : Z) :
  (0 < x)%Q -> (x <= inject_Z G * B64.pow2 j)%Q ->
  0 < G < 2 ^ 53 -> -1074 <= j <= 2 ->
  (inject_Z G * B64.pow2 j < 4)%Q ->
  B64.round x = Zero false \/
  exists r, B64.round x = Fin r /\ (0 < r)%Q /\
            (r <= inject_Z G * B64.pow2 j)%Q.
Proof.
  intros Hx Hg HG Hj H4. rewrite (round_pos x Hx).
  apply round_mag_upper_pow; try assumption; try lia.
  - eapply Qle_lt_trans; [exact Hg|].
    replace (j + 53) with (53 + j) by lia. rewrite pow2_add.
    apply Qmult_lt_compat_r; [apply pow2_pos|].
    rewrite pow2_Z by lia. rewrite <- Zlt_Qlt. lia.
  - pose proof pow2_1024_big. lra.
Qed.

Lemma round_upper_1 (x : Q) :
  (0 < x)%Q -> (x <= 1)%Q ->
  B64.round x = Zero false \/
  exists r, B64.round x = Fin r /\ (0 < r)%Q /\ (r <= 1)%Q.
Proof.
  intros Hx H1.
  destruct (round_upper_small x 1 0) as [Z|(r & E & P & U)];
    try assumption; try lia; try reflexivity; [now left|right].
  exists r. split; [exact E|]. split; [exact P|exact U].
Qed.

Lemma hermite_low (q : Q) :
  (0 < q)%Q -> (q < 1 # 2)%Q ->
  hermite (Fin q) = Zero false \/
  exists r, hermite (Fin q) = Fin r /\ (0 < r)%Q /\ (r <= 1)%Q.
Proof.
  intros Hq Hh.
  change (hermite (Fin q))
    with (B64.mul (B64.round (q * q))
            (B64.add (Fin 3) (neg (B64.round (2 * q))))).
  (* t * t *)
  assert (A : B64.round (q * q) = Zero false \/
              exists a, B64.round (q * q) = Fin a /\ (0 < a)%Q /\
                        (a <= 1 # 4)%Q).
  { destruct (round_upper_small (q * q) 1 (-2)) as [Z|(r & E & P & U)];
      try lia; try reflexivity; [| |now left|right; now exists r].
    - now apply Qmult_lt_0_compat.
    - change (inject_Z 1 * B64.pow2 (-2))%Q with ((1 # 2) * (1 # 2))%Q.
      apply Qmult_le_compat_nonneg; split; lra. }
  (* 2 * t *)
  assert (C : B64.round (2 * q) = Zero false \/
              exists c, B64.round (2 * q) = Fin c /\ (0 < c)%Q /\
                        (c <= 1)%Q).
  { apply round_upper_1; lra. }
  (* 3 - 2 * t *)
  assert (B : exists b, B64.add (Fin 3) (neg (B64.round (2 * q))) = Fin b /\
                        (0 < b)%Q /\ (b <= 3)%Q).
  { destruct C as [->|(c & -> & Pc & Uc)].
    - exists 3%Q. split; [reflexivity|]. split; [reflexivity|discriminate].
    - cbn [neg B64.add].
      assert (X : (3 + Qred (- c) == 3 - c)%Q)
        by (rewrite Qred_correct; ring).
      assert (X0 : (0 < 3 + Qred (- c))%Q) by (rewrite X; lra).
      destruct (round_upper_small (3 + Qred (- c)) 3 0)
        as [Z|(r & E & P & U)]; try lia; try reflexivity;
        try assumption.
      + rewrite X. change (inject_Z 3 * B64.pow2 0)%Q with 3%Q. lra.
      + exfalso. rewrite (round_pos _ X0) in Z. revert Z.
        apply round_mag_nonzero. rewrite X.
        apply Qle_trans with 1%Q; [|lra].
        apply Qlt_le_weak. vm_compute. reflexivity.
      + exists r. split; [exact E|]. split; [exact P|exact U]. }
  destruct B as (b & -> & Pb & Ub).
  destruct A as [->|(a & -> & Pa & Ua)].
  - left. cbn [B64.mul sgn xorb].
    assert (S : Qltb b 0 = false).
    { unfold Qltb. apply negb_false_iff, Qle_bool_iff. lra. }
    now rewrite S.
  - cbn [B64.mul]. apply round_upper_1.
    + now apply Qmult_lt_0_compat.
    + apply Qle_trans with ((1 # 4) * 3)%Q; [|discriminate].
      apply Qmult_le_compat_nonneg; split; lra.
Qed.

Lemma binary64_canon (q : Q) : B64.round q = Fin q -> Qred q = q.
Proof.
  intros E. unfold B64.round, B64.round_mag in E.
  destruct (Qeq_bool q 0); [discriminate E|].
  destruct (Z.eqb _ 0); [discriminate E|].
  destruct (Qle_bool _ _); [discriminate E|].
  injection E as E.
  match type of E with Qred ?x = _ => pose proof (Qred_idem x) as I end.
  now rewrite E in I.
Qed.

(** The square of a binary64 number of [(1/2, 1)], rounded, times the
    exact [3 - 2 t] is at most 1. *)
Lemma square_rounded (k : Z) (q : Q) :
  4503599627370496 < k < 9007199254740992 ->
  (q == inject_Z k * (1 # 9007199254740992))%Q ->
  exists a, B64.round (q * q) = Fin a /\ (0 < a)%Q /\
            (a * (3 - 2 * q) <= 1)%Q.
Proof.
  intros Hk Ek.
  set (T := 4503599627370496) in *.
  set (j := 2 * T - k).
  assert (Hj : 0 < j < T) by (unfold j, T in *; lia).
  assert (Hq : (1 # 2 < q)%Q /\ (q < 1)%Q).
  { assert (K1 : (inject_Z T < inject_Z k)%Q)
      by (rewrite <- Zlt_Qlt; lia).
    assert (K2 : (inject_Z k < inject_Z (2 * T))%Q)
      by (rewrite <- Zlt_Qlt; unfold T; lia).
    unfold T in K1, K2.
    change (inject_Z 4503599627370496) with (4503599627370496 # 1)%Q in K1.
    change (inject_Z (2 * 4503599627370496))
      with (9007199254740992 # 1)%Q in K2.
    split; lra. }
  destruct Hq as [Hlo Hhi].
  assert (Hx : (0 < q * q)%Q) by (apply Qmult_lt_0_compat; lra).
  assert (Hx1 : (q * q < 1)%Q).
  { apply Qlt_le_trans with (1 * 1)%Q; [|discriminate].
    apply Qmult_lt_compat_nonneg; split; lra. }
  assert (Hx4 : (1 # 4 <= q * q)%Q).
  { apply Qle_trans with ((1 # 2) * (1 # 2))%Q; [discriminate|].
    apply Qmult_le_compat_nonneg; split; lra. }
  assert (B3 : (3 - 2 * q
                == inject_Z (T + j) * (1 # 4503599627370496))%Q).
  { unfold j. replace (T + (2 * T - k)) with (3 * T + - k) by lia.
    rewrite inject_Z_plus, inject_Z_opp. unfold T.
    change (inject_Z (3 * 4503599627370496))
      with (13510798882111488 # 1)%Q.
    rewrite Ek. ring. }
  rewrite (round_pos _ Hx). unfold B64.round_mag.
  destruct (Qlt_le_dec (q * q) (1 # 2)) as [Lo|Hi].
  - (* the binade of 1/4 *)
    assert (Eu : B64.ulp (q * q) = (1 # 18014398509481984)%Q).
    { unfold B64.ulp. rewrite (ilog2_unique (q * q) (-2));
        [reflexivity|exact Hx4|exact Lo]. }
    destruct (mantissa_bounds (q * q) Hx) as [[_ M1] M2].
    rewrite (ilog2_unique (q * q) (-2)) in M2 by assumption.
    specialize (M2 ltac:(lia)).
    rewrite Eu in *.
    set (m := B64.rne (q * q / (1 # 18014398509481984))) in *.
    destruct (Z.eqb_spec m 0) as [Z0|_]; [lia|].
    assert (Mq : (inject_Z m <= 9007199254740992 # 1)%Q).
    { change (9007199254740992 # 1)%Q with (inject_Z (2 ^ 53)).
      now rewrite <- Zle_Qle. }
    destruct (Qle_bool _ _) eqn:O.
    { apply Qle_bool_iff in O. pose proof pow2_1024_big. lra. }
    eexists. split; [reflexivity|]. rewrite Qred_correct.
    split.
    { apply Qmult_lt_0_compat; [|reflexivity].
      change 0%Q with (inject_Z 0). rewrite <- Zlt_Qlt. lia. }
    (* the mantissa is within a half of the quotient *)
    destruct (rne_error (q * q / (1 # 18014398509481984))) as [R1 _].
    fold m in R1.
    assert (X : (q * q / (1 # 18014398509481984)
                 == inject_Z (k * k) * (1 # 4503599627370496))%Q).
    { rewrite Ek, inject_Z_mult. field. }
    rewrite X in R1.
    assert (Z1 : 2 * T * m <= 2 * (k * k) + T).
    { rewrite Zle_Qle. rewrite inject_Z_plus, !inject_Z_mult.
      rewrite inject_Z_mult in R1. unfold T.
      change (inject_Z 4503599627370496) with (4503599627370496 # 1)%Q.
      change (inject_Z 2) with 2%Q. lra. }
    assert (Z2 : k * k < 2 * (T * T)).
    { rewrite Zlt_Qlt. rewrite !inject_Z_mult.
      assert (Y : (q * q == inject_Z k * inject_Z k
                   * (1 # 81129638414606681695789005144064))%Q)
        by (rewrite Ek; ring).
      rewrite Y in Lo. unfold T.
      change (inject_Z 4503599627370496) with (4503599627370496 # 1)%Q.
      change (inject_Z 2) with 2%Q. lra. }
    assert (Z3 : T <= 2 * j) by (unfold j; nia).
    assert (Z4 : m * (T + j) <= 4 * (T * T)).
    { apply hermite_core_lo; try assumption.
      replace (2 * T - j) with k by (unfold j; lia). exact Z1. }
    rewrite B3.
    rewrite Zle_Qle, !inject_Z_mult in Z4. unfold T in Z4.
    change (inject_Z 4503599627370496) with (4503599627370496 # 1)%Q in Z4.
    change (inject_Z 4) with 4%Q in Z4.
    rewrite inject_Z_plus in *. unfold T.
    change (inject_Z 4503599627370496) with (4503599627370496 # 1)%Q in *.
    lra.
  - (* the binade of 1/2 *)
    assert (Eu : B64.ulp (q * q) = (1 # 9007199254740992)%Q).
    { unfold B64.ulp. rewrite (ilog2_unique (q * q) (-1));
        [reflexivity|exact Hi|exact Hx1]. }
    destruct (mantissa_bounds (q * q) Hx) as [[_ M1] M2].
    rewrite (ilog2_unique (q * q) (-1)) in M2 by assumption.
    specialize (M2 ltac:(lia)).
    rewrite Eu in *.
    set (m := B64.rne (q * q / (1 # 9007199254740992))) in *.
    destruct (Z.eqb_spec m 0) as [Z0|_]; [lia|].
    assert (Mq : (inject_Z m <= 9007199254740992 # 1)%Q).
    { change (9007199254740992 # 1)%Q with (inject_Z (2 ^ 53)).
      now rewrite <- Zle_Qle. }
    destruct (Qle_bool _ _) eqn:O.
    { apply Qle_bool_iff in O. pose proof pow2_1024_big. lra. }
    eexists. split; [reflexivity|]. rewrite Qred_correct.
    split.
    { apply Qmult_lt_0_compat; [|reflexivity].
      change 0%Q with (inject_Z 0). rewrite <- Zlt_Qlt. lia. }
    destruct (rne_error (q * q / (1 # 9007199254740992))) as [R1 _].
    fold m in R1.
    assert (X : (q * q / (1 # 9007199254740992)
                 == inject_Z (k * k) * (1 # 9007199254740992))%Q).
    { rewrite Ek, inject_Z_mult. field. }
    assert (Z1 : 4 * T * m <= 2 * (k * k) + 2 * T).
    { rewrite X in R1.
      rewrite Zle_Qle. rewrite inject_Z_plus, !inject_Z_mult.
      rewrite inject_Z_mult in R1. unfold T.
      change (inject_Z 4503599627370496) with (4503599627370496 # 1)%Q.
      change (inject_Z 2) with 2%Q. change (inject_Z 4) with 4%Q. lra. }
    assert (Z2 : j * j < T -> m = 2 * T - 2 * j).
    { intros S. unfold m. apply rne_down; rewrite X.
      - replace (k * k) with (2 * T * (2 * T - 2 * j) + j * j)
          by (unfold j; ring).
        rewrite inject_Z_plus, !inject_Z_mult.
        assert (0 <= inject_Z j * inject_Z j)%Q
          by (apply Qmult_le_0_compat;
              change 0%Q with (inject_Z 0); rewrite <- Zle_Qle; lia).
        unfold T.
        change (inject_Z 4503599627370496) with (4503599627370496 # 1)%Q.
        change (inject_Z 2) with 2%Q. lra.
      - replace (k * k) with (2 * T * (2 * T - 2 * j) + j * j)
          by (unfold j; ring).
        rewrite Zlt_Qlt, inject_Z_mult in S.
        rewrite inject_Z_plus, !inject_Z_mult. unfold T in *.
        change (inject_Z 4503599627370496)
          with (4503599627370496 # 1)%Q in *.
        change (inject_Z 2) with 2%Q. lra. }
    assert (Z4 : m * (T + j) <= 2 * (T * T)).
    { apply hermite_core_hi; try assumption.
      replace (2 * T - j) with k by (unfold j; lia). exact Z1. }
    rewrite B3.
    rewrite Zle_Qle, !inject_Z_mult in Z4. unfold T in Z4.
    change (inject_Z 4503599627370496) with (4503599627370496 # 1)%Q in Z4.
    change (inject_Z 2) with 2%Q in Z4.
    rewrite inject_Z_plus in *. unfold T.
    change (inject_Z 4503599627370496) with (4503599627370496 # 1)%Q in *.
    lra.
Qed.

Lemma hermite_high (q : Q) :
  B64.round q = Fin q -> (1 # 2 <= q)%Q -> (q < 1)%Q ->
  hermite (Fin q) = Zero false \/
  exists r, hermite (Fin q) = Fin r /\ (0 < r)%Q /\ (r <= 1)%Q.
Proof.
  intros R Hlo Hhi.
  pose proof (binary64_canon q R) as Cq.
  destruct (binary64_binade q (-1) R) as [k Ek];
    [exact Hlo|exact Hhi|lia|].
  change (B64.pow2 (-1 - 52)) with (1 # 9007199254740992)%Q in Ek.
  assert (Kb : 4503599627370496 <= k < 9007199254740992).
  { split; [rewrite Zle_Qle|rewrite Zlt_Qlt].
    - change (inject_Z 4503599627370496) with (4503599627370496 # 1)%Q.
      lra.
    - change (inject_Z 9007199254740992) with (9007199254740992 # 1)%Q.
      lra. }
  destruct (Z.eq_dec k 4503599627370496) as [K|K].
  - assert (Q2 : q = (1 # 2)%Q).
    { rewrite <- Cq. change (1 # 2)%Q with (Qred (1 # 2)).
      apply Qred_complete. rewrite Ek, K. reflexivity. }
    rewrite Q2. right. exists (1 # 2)%Q.
    split; [vm_compute; reflexivity|]. split; [reflexivity|discriminate].
  - assert (Hlo' : (1 # 2 < q)%Q).
    { assert (K1 : (inject_Z 4503599627370496 < inject_Z k)%Q)
        by (rewrite <- Zlt_Qlt; lia).
      change (inject_Z 4503599627370496)
        with (4503599627370496 # 1)%Q in K1. lra. }
    change (hermite (Fin q))
      with (B64.mul (B64.round (q * q))
              (B64.add (Fin 3) (neg (B64.round (2 * q))))).
    (* 2 * t is not rounded *)
    assert (E2 : B64.round (2 * q) = Fin (Qred (2 * q))).
    { rewrite round_pos by lra.
      apply (round_mag_exact_pow false (2 * q) k (-52)); try lia.
      - lra.
      - change (B64.pow2 (-52)) with (1 # 4503599627370496)%Q. lra.
      - change (B64.pow2 (-52 + 53)) with 2%Q. lra.
      - pose proof pow2_1024_big. lra. }
    rewrite E2. cbn [neg B64.add].
    (* nor is 3 - 2 * t *)
    set (x3 := (3 + Qred (- Qred (2 * q)))%Q).
    assert (X3 : (x3 == 3 - 2 * q)%Q)
      by (unfold x3; rewrite !Qred_correct; ring).
    assert (E3 : B64.round x3 = Fin (Qred x3)).
    { rewrite round_pos by lra.
      apply (round_mag_exact_pow false x3 (13510798882111488 + - k) (-52));
        try lia.
      - lra.
      - change (B64.pow2 (-52)) with (1 # 4503599627370496)%Q.
        rewrite inject_Z_plus, inject_Z_opp.
        change (inject_Z 13510798882111488)
          with (13510798882111488 # 1)%Q. lra.
      - change (B64.pow2 (-52 + 53)) with 2%Q. lra.
      - pose proof pow2_1024_big. lra. }
    rewrite E3.
    destruct (square_rounded k q ltac:(lia) Ek) as (a & -> & Pa & Ua).
    cbn [B64.mul]. apply round_upper_1.
    + apply Qmult_lt_0_compat; [exact Pa|]. rewrite Qred_correct. lra.
    + rewrite Qred_correct, X3. exact Ua.
Qed.

(** On a binary64 number of (0,1) the polynomial has a value of [0,1]. *)
Lemma hermite_unit64 (q : Q) :
  B64.round q = Fin q -> (0 < q)%Q -> (q < 1)%Q ->
  hermite (Fin q) = Zero false \/
  exists r, hermite (Fin q) = Fin r /\ (0 < r)%Q /\ (r <= 1)%Q.
Proof.
  intros R P L. destruct (Qlt_le_dec q (1 # 2)) as [H|H].
  - now apply hermite_low.
  - now apply hermite_high.
Qed.

Lemma clamp01_cases (t : num) :
  clamp01 t = Zero false \/ clamp01 t = Fin 1 \/
  exists q, t = Fin q /\ (0 < q)%Q /\ (q < 1)%Q /\ clamp01 t = Fin q.
Proof.
  unfold clamp01.
  destruct t as [| [|] | [|] | q]; try (left; reflexivity);
    try (right; left; reflexivity).
  unfold gtb. cbn [ltb toQ].
  destruct (Qltb 0 q) eqn:P; [|left; reflexivity].
  cbn [ltb toQ].
  destruct (Qltb q 1) eqn:L; [|right; left; reflexivity].
  right. right. apply Qltb_lt in P, L. now exists q.
Qed.

Lemma div_binary64 (x y : num) : binary64 (B64.div x y).
Proof.
  destruct x as [|a|a|p], y as [|b|b|q]; try exact I.
  unfold B64.div, binary64.
  destruct (B64.round (p / q)) as [| | |r] eqn:E; try exact I.
  exact (round_idem _ _ E).
Qed.

(** The result of [smoothStep] is in [0,1], whatever the arguments. *)
Lemma smoothStep_range (mn mx a : num) :
  (Zero false <=? smoothStep mn mx a)%num = true /\
  (smoothStep mn mx a <=? 1)%num = true.
Proof.
  change (smoothStep mn mx a)
    with (hermite (clamp01 (B64.div (B64.sub a mn) (B64.sub mx mn)))).
  pose proof (div_binary64 (B64.sub a mn) (B64.sub mx mn)) as B.
  destruct (clamp01_cases (B64.div (B64.sub a mn) (B64.sub mx mn)))
    as [->|[->|(q & Et & P & L & ->)]].
  - split; vm_compute; reflexivity.
  - split; vm_compute; reflexivity.
  - rewrite Et in B.
    destruct (hermite_unit64 q B P L) as [->|(r & -> & Hp & Hl)].
    + split; reflexivity.
    + unfold leb. cbn [ltb eqb toQ]. split.
      * apply Qltb_lt in Hp. now rewrite Hp.
      * apply orb_true_iff. destruct (Qlt_le_dec r 1) as [S|S].
        -- left. now apply Qltb_lt.
        -- right. apply Qeq_bool_iff. lra.
Qed.

(** The sign of a difference of finite binary64 numbers: it is not
    rounded to zero. *)
Lemma sub_finite64_cases (a m : num) :
  finite64 a -> finite64 m ->
  ((a =? m)%num = true -> exists s, B64.sub a m = Zero s) /\
  ((a <? m)%num = true ->
   (exists q, B64.sub a m = Fin q /\ (q < 0)%Q) \/ B64.sub a m = Inf true) /\
  ((a >? m)%num = true ->
   (exists q, B64.sub a m = Fin q /\ (0 < q)%Q) \/ B64.sub a m = Inf false).
Proof.
  destruct a as [|a|a|p], m as [|b|b|q]; simpl; try tauto; intros Ha Hm;
    unfold gtb, B64.sub; cbn [neg B64.add ltb eqb toQ].
  - repeat split; intros H; try discriminate. now eexists.
  - assert (Nz : ~ (q == 0)%Q).
    { intros Z0. unfold B64.round in Hm. apply Qeq_bool_iff in Z0.
      rewrite Z0 in Hm. discriminate Hm. }
    repeat split; intros H.
    + apply Qeq_bool_iff in H. exfalso. apply Nz. lra.
    + apply Qltb_lt in H. left. exists (Qred (- q)). split; [reflexivity|].
      rewrite Qred_correct. lra.
    + apply Qltb_lt in H. left. exists (Qred (- q)). split; [reflexivity|].
      rewrite Qred_correct. lra.
  - assert (Nz : ~ (p == 0)%Q).
    { intros Z0. unfold B64.round in Ha. apply Qeq_bool_iff in Z0.
      rewrite Z0 in Ha. discriminate Ha. }
    repeat split; intros H.
    + apply Qeq_bool_iff in H. exfalso. apply Nz. lra.
    + apply Qltb_lt in H. left. now exists p.
    + apply Qltb_lt in H. left. now exists p.
  - assert (E : (p + Qred (- q) == p - q)%Q) by (rewrite Qred_correct; ring).
    destruct (binary64_grid p Ha) as [kp Ep].
    destruct (binary64_grid q Hm) as [kq Eq].
    pose proof (pow2_pos (-1074)) as G.
    assert (D : (p - q == inject_Z (kp - kq) * B64.pow2 (-1074))%Q).
    { rewrite Ep, Eq. unfold Z.sub.
      rewrite inject_Z_plus, inject_Z_opp. ring. }
    repeat split; intros H.
    + apply Qeq_bool_iff in H. exists false. unfold B64.round.
      assert (Z0 : (p + Qred (- q) == 0)%Q) by lra.
      apply Qeq_bool_iff in Z0. now rewrite Z0.
    + apply Qltb_lt in H.
      assert (N : (p + Qred (- q) < 0)%Q) by lra.
      rewrite (round_neg _ N).
      assert (N' : (0 < - (p + Qred (- q)))%Q) by lra.
      destruct (round_mag_form true _ N') as [Z|[I|(m & e & M & _ & F)]].
      * exfalso. revert Z. apply round_mag_nonzero.
        assert (K : kp - kq <= -1).
        { assert (K0 : kp - kq < 0); [|lia].
          rewrite Zlt_Qlt. change (inject_Z 0) with 0%Q.
          apply (Qmult_lt_r _ _ (B64.pow2 (-1074)) G).
          rewrite <- D. lra. }
        rewrite Zle_Qle in K. change (inject_Z (-1)) with (-1)%Q in K.
        assert ((inject_Z (kp - kq) * B64.pow2 (-1074)
                 <= -1 * B64.pow2 (-1074))%Q)
          by (apply Qmult_le_compat_r; [exact K|lra]).
        lra.
      * now right.
      * left. rewrite F. eexists. split; [reflexivity|].
        rewrite Qred_correct.
        assert (0 < inject_Z m * B64.pow2 (e - 52))%Q.
        { apply Qmult_lt_0_compat; [|apply pow2_pos].
          change 0%Q with (inject_Z 0). rewrite <- Zlt_Qlt. lia. }
        lra.
    + apply Qltb_lt in H.
      assert (P : (0 < p + Qred (- q))%Q) by lra.
      rewrite (round_pos _ P).
      destruct (round_mag_form false _ P) as [Z|[I|(m & e & M & _ & F)]].
      * exfalso. revert Z. apply round_mag_nonzero.
        assert (K : 1 <= kp - kq).
        { assert (K0 : 0 < kp - kq); [|lia].
          rewrite Zlt_Qlt. change (inject_Z 0) with 0%Q.
          apply (Qmult_lt_r _ _ (B64.pow2 (-1074)) G).
          rewrite <- D. lra. }
        rewrite Zle_Qle in K. change (inject_Z 1) with 1%Q in K.
        assert ((1 * B64.pow2 (-1074)
                 <= inject_Z (kp - kq) * B64.pow2 (-1074))%Q)
          by (apply Qmult_le_compat_r; [exact K|lra]).
        lra.
      * now right.
      * left. rewrite F. eexists. split; [reflexivity|].
        rewrite Qred_correct.
        apply Qmult_lt_0_compat; [|apply pow2_pos].
        change 0%Q with (inject_Z 0). rewrite <- Zlt_Qlt. lia.
Qed.

(** C10, counterexample: [smoothStep(0, -0, 1)] is 0, although
    [maxRange == minRange] and [arg > minRange]: the difference
    [maxRange - minRange] is the negative zero and the quotient is
    [-Infinity]. *)
Lemma smoothStep_negative_zero_range :
  smoothStep (Zero false) (Zero true) 1%num = Zero false /\
  ~ smoothStep_claim.
Proof.
  split; [vm_compute; reflexivity|].
  intros H.
  assert (F1 : finite64 1) by (vm_compute; reflexivity).
  destruct (H (Zero false) (Zero true) 1%num I I F1) as [_ H1].
  destruct (H1 eq_refl) as [_ H2].
  specialize (H2 eq_refl). vm_compute in H2. discriminate.
Qed.

(** The same on the binary64 numbers of the machine: [-0 == 0], [1 > 0]
    and [smoothStep(0, -0, 1)] is 0; in the other degenerate cases the
    result is as the claim says. *)
Lemma smoothStep_f64_negative_zero_range :
  (PrimFloat.eqb (-0) 0 = true /\ PrimFloat.ltb 0 1 = true /\
   smoothStep_f64 0 (-0) 1 = 0)%float /\
  (smoothStep_f64 5 5 6 = 1 /\ smoothStep_f64 5 5 5 = 0 /\
   smoothStep_f64 5 5 4 = 0)%float.
Proof. repeat split; vm_compute; reflexivity. Qed.

(** The embedding and the machine agree: on the sample arguments,
    [smoothStep] on the numbers of the binary64 values is the number of
    the binary64 result. *)
Lemma smoothStep_agrees_with_f64 :
  map (fun '(mn, mx, a) =>
         smoothStep (B64.of_float mn) (B64.of_float mx) (B64.of_float a))
    smoothStep_samples
  = map (fun '(mn, mx, a) => B64.of_float (smoothStep_f64 mn mx a))
      smoothStep_samples.
Proof. vm_compute. reflexivity. Qed.

(** C10, amended: [smoothStep] is total and its result lies in [0,1] (so it
    is never NaN or infinite), for all arguments and with every
    operation rounded to binary64.  When [maxRange == minRange], on finite
    arguments, the result is 0 for [arg == minRange]; for [arg > minRange]
    it is 1 and for [arg < minRange] it is 0, the two being exchanged when
    [maxRange - minRange] is the negative zero (that is, [maxRange = -0]
    and [minRange = +0]). *)
Theorem smoothStep_unit_interval (mn mx a : num) :
  ((Zero false <=? smoothStep mn mx a)%num = true /\
   (smoothStep mn mx a <=? 1)%num = true) /\
  (finite64 mn -> finite64 mx -> finite64 a ->
   (mx =? mn)%num = true ->
   ((a =? mn)%num = true -> (smoothStep mn mx a =? 0)%num = true) /\
   ((a <? mn)%num = true ->
    (smoothStep mn mx a
     =? (if sgn (B64.sub mx mn) then 1 else 0))%num = true) /\
   ((a >? mn)%num = true ->
    (smoothStep mn mx a
     =? (if sgn (B64.sub mx mn) then 0 else 1))%num = true)).
Proof.
  split; [apply smoothStep_range|].
  intros Hmn Hmx Ha E.
  change (smoothStep mn mx a)
    with (hermite (clamp01 (B64.div (B64.sub a mn) (B64.sub mx mn)))).
  destruct (sub_finite64_cases mx mn Hmx Hmn) as [Z _].
  destruct (Z E) as [s ->]. cbn [sgn].
  destruct (sub_finite64_cases a mn Ha Hmn) as (Ze & Ng & Ps).
  repeat split; intros H.
  - destruct (Ze H) as [s' ->]. vm_compute. reflexivity.
  - destruct (Ng H) as [(q & -> & Hq)| ->].
    + cbn [B64.div sgn]. apply Qltb_lt in Hq. rewrite Hq.
      destruct s; vm_compute; reflexivity.
    + destruct s; vm_compute; reflexivity.
  - destruct (Ps H) as [(q & -> & Hq)| ->].
    + cbn [B64.div sgn].
      assert (Hq' : Qltb q 0 = false) by (apply Qltb_ge; lra).
      rewrite Hq'. destruct s; vm_compute; reflexivity.
    + destruct s; vm_compute; reflexivity.
Qed.

Lemma smoothStep_unit_interval_witness :
  (finite64 5 /\ finite64 5 /\ finite64 6 /\ (5 =? 5)%num = true /\
   (6 >? 5)%num = true) /\
  (smoothStep 5 5 6 =? 1)%num = true /\
  (smoothStep 5 5 6 <=? 1)%num = true.
Proof.
  assert (H : finite64 5 /\ finite64 5 /\ finite64 6 /\
              (5 =? 5)%num = true /\ (6 >? 5)%num = true)
    by (repeat split; vm_compute; reflexivity).
  split; [exact H|]. destruct H as (F5 & _ & F6 & E & G).
  destruct (smoothStep_unit_interval 5 5 6) as ((_ & U) & D).
  destruct (D F5 F5 F6 E) as (_ & _ & P).
  split; [exact (P G)|exact U].
Defined.

(** ** Loops *)

Section Loops.
Context {A S : Type}.

Lemma for_each_throw (body : A -> S -> result S) (e : exn) (l : list A) :
  foldl (fun acc i => s' ← acc; body i s') (Throw e) l = Throw e.
Proof. induction l as [|i l IH]; simpl; [reflexivity|exact IH]. Qed.

Lemma for_each_cons (i : A) (l : list A) (body : A -> S -> result S)
    (s : S) :
  for_each (i :: l) body s = (s' ← body i s; for_each l body s').
Proof.
  unfold for_each. simpl. change (Ok s ≫= body i) with (body i s).
  destruct (body i s) as [s1|e]; [reflexivity|]. apply for_each_throw.
Qed.

Lemma for_each_app (l1 l2 : list A) (body : A -> S -> result S) (s : S) :
  for_each (l1 ++ l2) body s =
  (s' ← for_each l1 body s; for_each l2 body s').
Proof.
  revert s. induction l1 as [|i l1 IH]; intros s; [reflexivity|].
  rewrite <- app_comm_cons, !for_each_cons.
  destruct (body i s) as [s1|e]; [apply IH|reflexivity].
Qed.

(** An invariant that every iteration keeps, returning normally, is kept
    by the loop, which returns normally. *)
Lemma for_each_inv (P : S -> Prop) (l : list A) (body : A -> S -> result S)
    (s : S) :
  P s ->
  (forall i s, P s -> exists s', body i s = Ok s' /\ P s') ->
  exists s', for_each l body s = Ok s' /\ P s'.
Proof.
  intros Hs Hbody. revert s Hs.
  induction l as [|i l IH]; intros s Hs.
  - now exists s.
  - rewrite for_each_cons. destruct (Hbody i s Hs) as (s1 & -> & H1).
    now apply IH.
Qed.

End Loops.

Section RangeLoops.
Context {S : Type}.

(** A loop over [lo, hi) is the loop over [lo, mid) followed by the loop
    over [mid, hi). *)
Lemma for_range_split (lo mid hi : Z) (body : Z -> S -> result S) (s : S) :
  lo <= mid <= hi ->
  for_range lo hi body s =
  (s' ← for_range lo mid body s; for_range mid hi body s').
Proof.
  intros H. unfold for_range.
  replace (hi - lo) with ((mid - lo) + (hi - mid)) by lia.
  rewrite seqZ_app by lia.
  replace (lo + (mid - lo)) with mid by lia.
  apply for_each_app.
Qed.

Lemma for_range_empty (lo hi : Z) (body : Z -> S -> result S) (s : S) :
  hi <= lo -> for_range lo hi body s = Ok s.
Proof.
  intros H. unfold for_range. now rewrite seqZ_nil by lia.
Qed.

Lemma for_range_inv (P : S -> Prop) (lo hi : Z) (body : Z -> S -> result S)
    (s : S) :
  P s ->
  (forall i s, P s -> exists s', body i s = Ok s' /\ P s') ->
  exists s', for_range lo hi body s = Ok s' /\ P s'.
Proof. apply for_each_inv. Qed.

End RangeLoops.

(** ** The band smoother *)

Section SmootherFacts.

Context {host : Host}.

Variable Math_exp : num -> num.

Lemma convolveAt_ok (this : ActiveVolume) (rad cx cy cz : Z) :
  is_Some (m_pixelsSrc this) -> is_Some (m_gaussMatrix this) ->
  exists v, convolveAt this rad cx cy cz = Ok v.
Proof.
  intros [src Hs] [gm Hg]. unfold convolveAt.
  edestruct (for_range_inv (fun _ : Z * num => True)) as ([j v] & -> & _);
    [exact I| |now exists v].
  intros dz s _. apply for_range_inv; [exact I|].
  intros dy s1 _. apply for_range_inv; [exact I|].
  intros dx [j1 sum] _. rewrite Hs, Hg. simpl. now eexists.
Qed.

Lemma smoothSlice_ready (x y z rad cz : Z) (this : ActiveVolume) :
  smooth_ready x y z this ->
  exists this', smoothSlice rad cz this = Ok this' /\ smooth_ready x y z this'.
Proof.
  intros R. unfold smoothSlice.
  apply for_range_inv; [exact R|].
  intros cy t1 R1. apply for_range_inv; [exact R1|].
  intros cx t2 (Hx & Hy & Hz & Hs & Hg & [g Hi]).
  destruct (convolveAt_ok t2 rad cx cy cz Hs Hg) as [v ->].
  rewrite Hi. simpl. eexists. split; [reflexivity|].
  repeat split; simpl; try assumption. now eexists.
Qed.

Lemma initGaussSmooth_ready (rad : Z) (koef : num) (this : ActiveVolume) :
  is_Some (m_pixelsSrc this) -> is_Some (m_imageSrc this) ->
  is_Some (m_imageGauss this) ->
  exists this', initGaussSmooth Math_exp rad koef this = Ok this' /\
    smooth_ready (m_xDim this) (m_yDim this) (m_zDim this) this'.
Proof.
  intros Hs Hi Hg. unfold initGaussSmooth.
  change (new_Float32Array (GAUSS_MAX_DIA * GAUSS_MAX_DIA * GAUSS_MAX_DIA))
    with (Ok (replicate (Z.to_nat 6859) (Zero false))).
  cbn [mbind result_bind bind].
  destruct (fillGaussMatrix _ _ _ _) as [[gm j] wSum].
  match goal with |- context [set_m_gaussMatrix (Some ?m) this] =>
    generalize m end.
  intros gm'.
  edestruct (for_range_inv
    (fun t => smooth_ready (m_xDim this) (m_yDim this) (m_zDim this) t /\
              is_Some (m_imageSrc t))) as (t' & E & R & _);
    [| |exists t'; split; [exact E|exact R]].
  - repeat split; simpl; try assumption. now eexists.
  - intros i t ((Hx & Hy & Hz & Hp & Hm & [g Hgs]) & [src Hsrc]).
    rewrite Hsrc, Hgs. simpl. eexists. split; [reflexivity|].
    repeat split; simpl; try assumption; try (now eexists).
    rewrite Hsrc. now eexists.
Qed.

End SmootherFacts.

Section SmootherPartition.

Context {host : Host}.

Variable Math_exp : num -> num.

(** The two bands of a split at [k] cover the slices of the whole range,
    in the same order. *)
Lemma smooth_bands_split (rad k zDim : Z) (this : ActiveVolume) :
  0 < k < zDim ->
  let zs1 := if (0 >? rad)%Z then 0 else rad in
  let ze1 := if (k <? zDim - rad)%Z then k else zDim - rad in
  let zs2 := if (k >? rad)%Z then k else rad in
  let ze2 := if (zDim <? zDim - rad)%Z then zDim else zDim - rad in
  for_range zs1 ze2 (smoothSlice rad) this =
  (this1 ← for_range zs1 ze1 (smoothSlice rad) this;
   for_range zs2 ze2 (smoothSlice rad) this1).
Proof.
  intros Hk zs1 ze1 zs2 ze2. subst zs1 ze1 zs2 ze2.
  assert (Hskip : forall (r : result ActiveVolume) lo hi, hi <= lo ->
            (t ← r; for_range lo hi (smoothSlice rad) t) = r).
  { intros [t|e] lo hi H; simpl; [now apply for_range_empty|reflexivity]. }
  destruct (Z.gtb_spec 0 rad), (Z.ltb_spec k (zDim - rad)),
    (Z.gtb_spec k rad), (Z.ltb_spec zDim (zDim - rad)); try lia;
    first
      [ apply for_range_split; lia
      | match goal with
        | |- _ = mbind _ (for_range ?a ?b _ _) =>
            rewrite (for_range_empty a b) by lia; reflexivity
        end
      | rewrite Hskip by lia; reflexivity ].
Qed.

(** C5: on an engine whose source, source copy and smoothed image are
    allocated, smoothing the band [0,k) and then the band [k,zDim) returns
    normally with exactly the engine (so the same smoothed image, border
    shell included) that one call on [0,zDim) returns. *)
Theorem applyPartGaussSmooth_band_partition
    (this : ActiveVolume) (k rad : Z) (sigma : num) :
  0 < k < m_zDim this ->
  is_Some (m_pixelsSrc this) -> is_Some (m_imageSrc this) ->
  is_Some (m_imageGauss this) ->
  exists whole : ActiveVolume,
    applyPartGaussSmooth Math_exp 0 (m_zDim this) rad sigma this = Ok whole /\
    (this1 ← applyPartGaussSmooth Math_exp 0 k rad sigma this;
     applyPartGaussSmooth Math_exp k (m_zDim this) rad sigma this1) = Ok whole.
Proof.
  intros Hk Hs Hi Hg. unfold applyPartGaussSmooth.
  change (0 =? 0)%Z with true. cbv beta iota.
  destruct (initGaussSmooth_ready Math_exp rad
              (1 / (3 * sigma * sigma))%num this Hs Hi Hg)
    as (t0 & -> & R0).
  cbn [mbind result_bind bind].
  assert (Ez : m_zDim t0 = m_zDim this) by apply R0.
  rewrite Ez.
  pose proof (smooth_bands_split rad k (m_zDim this) t0 Hk) as Split.
  cbv zeta in Split.
  destruct (for_range_inv (smooth_ready (m_xDim this) (m_yDim this)
              (m_zDim this))
              (if (0 >? rad)%Z then 0 else rad)
              (if (k <? m_zDim this - rad)%Z then k else m_zDim this - rad)
              (smoothSlice rad) t0 R0) as (t1 & E1 & R1).
  { intros i s. apply smoothSlice_ready. }
  rewrite E1 in Split |- *. cbn [mbind result_bind bind] in Split |- *.
  assert (Ez1 : m_zDim t1 = m_zDim this) by apply R1.
  replace (k =? 0)%Z with false by (symmetry; apply Z.eqb_neq; lia).
  cbn [mbind result_bind bind]. rewrite Ez1.
  destruct (for_range_inv (smooth_ready (m_xDim this) (m_yDim this)
              (m_zDim this))
              (if (k >? rad)%Z then k else rad)
              (if (m_zDim this <? m_zDim this - rad)%Z then m_zDim this
               else m_zDim this - rad)
              (smoothSlice rad) t1 R1) as (t2 & E2 & R2).
  { intros i s. apply smoothSlice_ready. }
  exists t2. rewrite E2 in Split. split; [exact Split|exact E2].
Qed.

End SmootherPartition.

Lemma applyPartGaussSmooth_band_partition_witness :
  (0 < 2 < m_zDim sample_engine /\
   is_Some (m_pixelsSrc sample_engine) /\
   is_Some (m_imageSrc sample_engine) /\
   is_Some (m_imageGauss sample_engine)) /\
  exists whole : ActiveVolume,
    applyPartGaussSmooth (host := small_host) exp_one 0
      (m_zDim sample_engine) 1 1 sample_engine = Ok whole /\
    (this1 ← applyPartGaussSmooth (host := small_host) exp_one 0 2 1 1
               sample_engine;
     applyPartGaussSmooth (host := small_host) exp_one 2
       (m_zDim sample_engine) 1 1 this1)
    = Ok whole.
Proof.
  assert (H : 0 < 2 < m_zDim sample_engine /\
              is_Some (m_pixelsSrc sample_engine) /\
              is_Some (m_imageSrc sample_engine) /\
              is_Some (m_imageGauss sample_engine)).
  { split; [simpl; lia|]. repeat split; eexists; reflexivity. }
  split; [exact H|].
  destruct H as (H1 & H2 & H3 & H4).
  exact (applyPartGaussSmooth_band_partition exp_one sample_engine
           2 1 1 H1 H2 H3 H4).
Defined.

(** ** The driver: validation *)

Section DriverFacts.

Context {host : Host}.

Variable Math_exp : num -> num.
Variable Math_pow : num -> num -> num.
Variable createNormalsForGeometry : GeoRender -> Z * GeoRender.
Variable TetrahedronGenerator : Type.
Variable TetrahedronGenerator_create
  : Vector3 -> Z -> Z * TetrahedronGenerator.
Variable createFromTetrahedronGenerator
  : TetrahedronGenerator -> Z * GeoRender.

(** C2: with a dimension [<= 1] or [>= 8192], [skullRemove] returns the
    negative status [-1]; [volTexDst] (and the engine) are as before. *)
Theorem skullRemove_invalid_dimensions
    (xDim yDim zDim : Z) (volTexSrc volTexDst : list num)
    (needCreateMask needLog : bool) (this : ActiveVolume) :
  (xDim <= 1 \/ yDim <= 1 \/ zDim <= 1 \/
   8192 <= xDim \/ 8192 <= yDim \/ 8192 <= zDim) ->
  exists status : Z,
    skullRemove Math_exp Math_pow createNormalsForGeometry
      TetrahedronGenerator TetrahedronGenerator_create
      createFromTetrahedronGenerator
      xDim yDim zDim volTexSrc volTexDst needCreateMask needLog this
    = Ok (status, this, volTexDst) /\ status < 0.
Proof.
  intros H. exists (-1). split; [|lia]. unfold skullRemove.
  destruct (Z.geb_spec xDim 8192), (Z.geb_spec yDim 8192),
    (Z.geb_spec zDim 8192); try reflexivity.
  cbn [orb].
  destruct (Z.leb_spec xDim 1), (Z.leb_spec yDim 1), (Z.leb_spec zDim 1);
    try reflexivity.
  lia.
Qed.

End DriverFacts.

Lemma skullRemove_invalid_dimensions_witness :
  (1 <= 1 \/ 64 <= 1 \/ 64 <= 1 \/
   8192 <= 1 \/ 8192 <= 64 \/ 8192 <= 64) /\
  exists status : Z,
    skullRemove (host := small_host) exp_id pow_id normals_done unit
      (fun _ _ => (1, tt)) (fun _ => (1, mkGeoRender 0 [] [] 0))
      1 64 64 [] [7%num] false false constructor
    = Ok (status, constructor, [7%num]) /\ status < 0.
Proof.
  split; [lia|].
  apply (skullRemove_invalid_dimensions (host := small_host) exp_id pow_id
           normals_done unit (fun _ _ => (1, tt))
           (fun _ => (1, mkGeoRender 0 [] [] 0))
           1 64 64 [] [7%num] false false constructor).
  lia.
Defined.

(** ** create *)

(** The test of an allocation, spelled out. *)
Lemma allocates_spec {host : Host} (n b : Z) :
  allocates n b = true <->
  0 <= n <= 2 ^ 53 - 1 /\ (n * b < 2 ^ 31 \/ can_allocate (n * b) = true).
Proof.
  unfold allocates. rewrite !andb_true_iff, orb_true_iff.
  rewrite !Z.leb_le, Z.ltb_lt. tauto.
Qed.

(** C6, counterexample: [create(1, 1, 1, [])] returns 1, whatever the
    host. *)
Lemma create_does_not_validate :
  (forall host : Host,
     exists this', create 1 1 1 [] constructor = Ok (1, this')) /\
  ~ create_validates_claim.
Proof.
  split; [intros host; eexists; reflexivity|].
  intros H.
  assert (D : 1 <= 1 \/ 1 <= 1 \/ 1 <= 1 \/
              8192 <= 1 \/ 8192 <= 1 \/ 8192 <= 1) by lia.
  specialize (H small_host 1 1 1 [] constructor D 1 _ eq_refl). lia.
Qed.

(** C6, amended: [create] checks nothing (the check is in [skullRemove],
    before the call); it succeeds exactly when its buffers are allocated.
    With [n = xDim * yDim * zDim]: when [n] is between 0 and [2^53 - 1] and
    a buffer of [4 * n] bytes is granted (it is when it is smaller than
    2 GiB, and is the host's decision above), [create] returns 1, the
    smoothed and the uniformity buffers are new, of exactly [n] zeros, the
    dimensions and the source are recorded, the state is NotStarted and the
    new-vertex buffer is reset, every other field being kept; otherwise
    (a negative product, more than [2^53 - 1] elements, a buffer the host
    refuses) [new Float32Array] throws a RangeError. *)
Theorem create_allocates {host : Host} (xDim yDim zDim : Z)
    (volTexSrc : list num) (this : ActiveVolume) :
  let n := xDim * yDim * zDim in
  let zeros := replicate (Z.to_nat n) (Zero false) in
  let granted :=
    0 <= n <= 2 ^ 53 - 1 /\
    (n * 4 < 2 ^ 31 \/ can_allocate (n * 4) = true) in
  (granted ->
   create xDim yDim zDim volTexSrc this =
   Ok (1, {| m_state := AV_STATE_NOT_STARTED;
             m_pixelsSrc := Some volTexSrc;
             m_xDim := xDim;
             m_yDim := yDim;
             m_zDim := zDim;
             m_imageGauss := Some zeros;
             m_imageUniformity := Some zeros;
             m_verticesNew := None;
             m_imageSrc := m_imageSrc this;
             m_imageGrad := m_imageGrad this;
             m_gaussMatrix := m_gaussMatrix this;
             m_gaussStage := m_gaussStage this;
             m_uniformityStage := m_uniformityStage this;
             m_geoStage := m_geoStage this;
             m_histogram := m_histogram this;
             m_colorProbability := m_colorProbability this;
             m_colorKoefs := m_colorKoefs this;
             m_indexMinColor := m_indexMinColor this |}) /\
   length zeros = Z.to_nat n) /\
  (~ granted ->
   create xDim yDim zDim volTexSrc this = Throw RangeError).
Proof.
  intros n zeros granted. unfold create, new_Float32Array. fold n.
  pose proof (allocates_spec n 4) as A. fold granted in A.
  destruct (allocates n 4).
  - split; [intros _|intros G; exfalso; apply G; now apply A].
    split; [reflexivity|apply length_replicate].
  - split; [intros G; apply A in G; discriminate G|reflexivity].
Qed.

Lemma create_allocates_witness :
  (exists this',
     create (host := small_host) 2 3 4 [] constructor = Ok (1, this') /\
     m_imageGauss this' = Some (replicate 24 (Zero false))) /\
  create (host := small_host) 8191 8191 8191 [] constructor
  = Throw RangeError /\
  create (host := small_host) (-1) 1 1 [] constructor = Throw RangeError.
Proof.
  split; [|split].
  - destruct (create_allocates (host := small_host) 2 3 4 [] constructor)
      as [S _].
    destruct S as [E _]; [split; [lia|left; lia]|].
    eexists. split; [exact E|reflexivity].
  - apply (create_allocates (host := small_host) 8191 8191 8191 []
             constructor).
    intros (_ & [G|G]); [lia|discriminate G].
  - apply (create_allocates (host := small_host) (-1) 1 1 [] constructor).
    intros (G & _). lia.
Defined.

(** ** Typed-array accesses *)

Lemma length_set_elem {A : Type} (a : list A) (i : Z) (v : A) :
  length (set_elem a i v) = length a.
Proof.
  unfold set_elem. destruct (i <? 0)%Z; [reflexivity|apply length_insert].
Qed.

Lemma get_set_eq (a : list num) (i : Z) (v : num) :
  0 <= i < Z.of_nat (length a) -> get_num (set_elem a i v) i = v.
Proof.
  intros H. unfold get_num, set_elem.
  destruct (Z.ltb_spec i 0); [lia|].
  rewrite list_lookup_insert_eq by lia. reflexivity.
Qed.

Lemma get_set_ne (a : list num) (i j : Z) (v : num) :
  i <> j -> get_num (set_elem a i v) j = get_num a j.
Proof.
  intros H. unfold get_num, set_elem.
  destruct (Z.ltb_spec j 0); [reflexivity|].
  destruct (Z.ltb_spec i 0); [reflexivity|].
  rewrite list_lookup_insert_ne by lia. reflexivity.
Qed.

Lemma loop_snoc {S : Type} (lo : Z) (n : nat) (body : Z -> S -> S) (s : S) :
  loop lo (lo + Z.of_nat (Datatypes.S n)) body s =
  body (lo + Z.of_nat n) (loop lo (lo + Z.of_nat n) body s).
Proof.
  unfold loop.
  replace (lo + Z.of_nat (Datatypes.S n) - lo) with (Z.of_nat (Datatypes.S n))
    by lia.
  replace (lo + Z.of_nat n - lo) with (Z.of_nat n) by lia.
  rewrite seqZ_S, foldl_snoc. reflexivity.
Qed.

(** ** The driver: scaling of the seed mesh *)

Section Scale.

Variables X Y Z3 : num.



End Scale.




(** ** The step function after Finished *)

Section FinishedFacts.

Context {host : Host}.

Variable Math_exp : num -> num.
Variable Math_pow : num -> num -> num.
Variable createNormalsForGeometry : GeoRender -> Z * GeoRender.

Lemma updateGeo_finished_once (this : ActiveVolume) (geo : GeoRender)
    (method : Z) :
  m_state this = AV_STATE_FINISHED ->
  updateGeo_work Math_exp Math_pow createNormalsForGeometry this geo method
  = Ok (1, mkStep this geo []).
Proof.
  intros H. unfold updateGeo_work. rewrite H. reflexivity.
Qed.

Lemma updateGeo_finished_step (this : ActiveVolume) (geo : GeoRender)
    (method : Z) :
  m_state this = AV_STATE_FINISHED ->
  updateGeo Math_exp Math_pow createNormalsForGeometry this geo method
  = Ok (1, this, geo).
Proof.
  intros H. unfold updateGeo.
  now rewrite (updateGeo_finished_once this geo method H).
Qed.

(** C9: on an engine whose state is Finished, any number [n] of calls of
    the step function return 1 each, and leave the engine (its state
    Finished, every buffer) and the geometry (the mesh vertices) exactly as
    they were; no work is performed. *)
Theorem updateGeo_finished_noop (this : ActiveVolume) (geo : GeoRender)
    (method : Z) (n : nat) :
  m_state this = AV_STATE_FINISHED ->
  updateGeo_times (updateGeo Math_exp Math_pow createNormalsForGeometry)
    n this geo method = Ok (replicate n 1, this, geo) /\
  updateGeo_work Math_exp Math_pow createNormalsForGeometry this geo method
  = Ok (1, mkStep this geo []).
Proof.
  intros H. split; [|now apply updateGeo_finished_once].
  induction n as [|n IH]; [reflexivity|].
  cbn [updateGeo_times].
  rewrite (updateGeo_finished_step this geo method H).
  cbn [mbind result_bind bind]. rewrite IH. reflexivity.
Qed.

End FinishedFacts.

Lemma updateGeo_finished_noop_witness :
  let this := set_m_state AV_STATE_FINISHED constructor in
  let geo := mkGeoRender 1 [1%num; 2%num; 3%num; 1%num] [] 0 in
  m_state this = AV_STATE_FINISHED /\
  updateGeo_times (updateGeo (host := small_host) exp_id pow_id normals_done)
    3 this geo AV_METHOD_ALL
  = Ok ([1; 1; 1], this, geo).
Proof.
  intros this geo. split; [reflexivity|].
  destruct (updateGeo_finished_noop (host := small_host) exp_id pow_id
              normals_done this geo AV_METHOD_ALL 3) as [E _];
    [reflexivity|exact E].
Defined.

(** ** The classifier: histograms *)

Lemma RATIO_BORDER_one : (RATIO_BORDER == 1)%Q.
Proof. reflexivity. Qed.

Lemma scanWindow_x (this : ActiveVolume) :
  (xMin (scanWindow this) == inject_Z (m_xDim this))%Q /\
  (xMax (scanWindow this) == 0)%Q.
Proof.
  unfold scanWindow. cbn [xMin xMax]. rewrite RATIO_BORDER_one.
  split; ring.
Qed.

(** C8: the ratio of the border strips is [20/20 = 1], the constant named
    [NUM_526] being 20: the "strips" [0, xMin) and [xMax, xDim) are the
    whole row, twice, whatever the volume; at [xDim = 526] the left strip
    ends at 526 and not at 20. *)
Theorem border_strips_cover_row (this : ActiveVolume) :
  (RATIO_BORDER == 1)%Q /\
  (xMin (scanWindow this) == inject_Z (m_xDim this))%Q /\
  (xMax (scanWindow this) == 0)%Q /\
  (xMin (scanWindow (set_m_xDim 526 this)) == 526)%Q.
Proof.
  split; [exact RATIO_BORDER_one|].
  destruct (scanWindow_x this) as [A B].
  split; [exact A|]. split; [exact B|].
  exact (proj1 (scanWindow_x (set_m_xDim 526 this))).
Qed.

(** The inward scan never runs: the left border is always [xDim], the
    right border 0. *)
Lemma findBorders_degenerate (colBlack : num) (this : ActiveVolume) :
  0 <= m_xDim this ->
  findBorders colBlack this = Ok (inject_Z (m_xDim this), 0%Q).
Proof.
  intros Hx. unfold findBorders.
  assert (N0 : forall q : Q, (q <= 0)%Q -> Z.to_nat (Qceiling q) = 0%nat).
  { intros q Hq. assert (Qceiling q <= Qceiling 0) by now apply Qceiling_resp_le.
    change (Qceiling 0) with 0 in *. lia. }
  assert (Hpos : (0 <= inject_Z (m_xDim this))%Q).
  { change 0%Q with (inject_Z 0). now rewrite <- Zle_Qle. }
  destruct (scanWindow_x this) as (Emin & Emax).
  unfold for_Q.
  edestruct (for_each_inv (A:=Q)
               (fun s : Q * Q => s = (inject_Z (m_xDim this), 0%Q)))
    as (s' & -> & ->); [reflexivity| |reflexivity].
  intros z s ->. apply for_each_inv; [reflexivity|].
  intros y s ->.
  set (xd := inject_Z (m_xDim this)) in *.
  assert (L1 : (xd / 2 - xMin (scanWindow this) <= 0)%Q).
  { rewrite Emin. unfold Qdiv. change (/ 2)%Q with (Qmake 1 2). lra. }
  assert (L2 : (xMax (scanWindow this) - xd / 2 <= 0)%Q).
  { rewrite Emax. unfold Qdiv. change (/ 2)%Q with (Qmake 1 2). lra. }
  rewrite (N0 _ L1), (N0 _ L2).
  cbn [scan mbind result_bind bind].
  replace (Qltb (xMin (scanWindow this)) xd)
    with false by (symmetry; apply Qltb_ge; rewrite Emin; lra).
  replace (Qltb 0 (xMax (scanWindow this)))
    with false by (symmetry; apply Qltb_ge; rewrite Emax; lra).
  eexists. split; reflexivity.
Qed.

(** C3: on the engine that has smoothed a 16 x 16 x 16 volume of zeros,
    the second histogram pass samples [numPixHist = 256] voxels and the 256
    counts sum to 128: the samples of the right band, read at offsets that
    are not integers, are counted in [numPixHist] and in no bin. *)
Theorem secondPass_counts_differ :
  pass_counts (secondPass zeros16) = Some (256, 128, Some 128).
Proof. vm_compute. reflexivity. Qed.

(** The slip of line 569 alone: with [xDim = 64] the band bounds are
    integers; of the 640 samples of a volume of the value 0.5, the 320 of
    the right band, floored, fall in bin 0, and the 320 of the left band,
    used as they are read, fall in no bin. *)
Lemma secondPass_left_band_not_floored :
  pass_counts (secondPass halves64) = Some (640, 320, Some 320).
Proof. vm_compute. reflexivity. Qed.

(** ** Integers as numbers *)

Lemma of_Z_0 : of_Z 0 = Zero false.
Proof. reflexivity. Qed.

Lemma of_Z_nz (z : Z) : z <> 0 -> of_Z z = Fin (Qred (inject_Z z)).
Proof.
  intros H. apply of_Q_nz. intros E.
  unfold Qeq in E. simpl in E. lia.
Qed.

Lemma inject_Z_sub (i j : Z) :
  (inject_Z i + - inject_Z j == inject_Z (i - j))%Q.
Proof. unfold Qeq. simpl. lia. Qed.

Lemma sub_of_Z (i j : Z) : (of_Z i - of_Z j)%num = of_Z (i - j).
Proof.
  destruct (Z.eq_dec i 0) as [->|Hi], (Z.eq_dec j 0) as [->|Hj].
  - reflexivity.
  - rewrite of_Z_0, (of_Z_nz j Hj), (of_Z_nz (0 - j)) by lia.
    unfold sub. cbn [neg add]. f_equal. apply Qred_complete.
    rewrite Qred_correct, <- (inject_Z_sub 0 j). ring.
  - rewrite of_Z_0, Z.sub_0_r, (of_Z_nz i Hi). reflexivity.
  - rewrite (of_Z_nz i Hi), (of_Z_nz j Hj). unfold sub. cbn [neg add].
    assert (E : (Qred (inject_Z i) + Qred (- Qred (inject_Z j))
                 == inject_Z (i - j))%Q).
    { rewrite !Qred_correct. apply inject_Z_sub. }
    unfold of_Z, of_Q. rewrite (Qeqb_comp _ _ E 0%Q 0%Q (Qeq_refl 0)).
    destruct (Qeq_bool (inject_Z (i - j)) 0); [reflexivity|].
    f_equal. now apply Qred_complete.
Qed.

Lemma abs_of_Z (z : Z) : abs (of_Z z) = of_Z (Z.abs z).
Proof.
  destruct (Z.eq_dec z 0) as [->|Hz]; [reflexivity|].
  rewrite (of_Z_nz z Hz), (of_Z_nz (Z.abs z)) by lia.
  cbn [abs]. f_equal. apply Qred_complete.
  rewrite Qred_correct. reflexivity.
Qed.

Lemma leb_of_Q (p q : Q) : (of_Q p <=? of_Q q)%num = true <-> (p <= q)%Q.
Proof.
  assert (F : forall r, (of_Q r = Zero false \/ exists r', of_Q r = Fin r')).
  { intros r. unfold of_Q. destruct (Qeq_bool r 0); eauto. }
  pose proof (toQ_of_Q p) as Ep. pose proof (toQ_of_Q q) as Eq.
  assert (G : (of_Q p <=? of_Q q)%num
              = Qltb (toQ (of_Q p)) (toQ (of_Q q))
                || Qeq_bool (toQ (of_Q p)) (toQ (of_Q q))).
  { destruct (F p) as [->|[p' ->]], (F q) as [->|[q' ->]]; reflexivity. }
  rewrite G, orb_true_iff, Qltb_lt, Qeq_bool_iff, Ep, Eq.
  split; [intros [H|H]; lra|].
  intros H. destruct (Qlt_le_dec p q); [now left|right; lra].
Qed.

Lemma ltb_of_Q (p q : Q) : (of_Q p <? of_Q q)%num = true <-> (p < q)%Q.
Proof.
  assert (F : forall r, (of_Q r = Zero false \/ exists r', of_Q r = Fin r')).
  { intros r. unfold of_Q. destruct (Qeq_bool r 0); eauto. }
  pose proof (toQ_of_Q p) as Ep. pose proof (toQ_of_Q q) as Eq.
  assert (G : (of_Q p <? of_Q q)%num = Qltb (toQ (of_Q p)) (toQ (of_Q q))).
  { destruct (F p) as [->|[p' ->]], (F q) as [->|[q' ->]]; reflexivity. }
  rewrite G, Qltb_lt, Ep, Eq. reflexivity.
Qed.

(** ** The colour weights *)

(** [1 - 1 / (1 + p)] for a finite [p >= 0] *)
Lemma koef_value (q : Q) :
  (0 <= q)%Q ->
  exists k : Q, (1 - 1 / (1 + of_Q q))%num = of_Q k /\ (k == 1 - / (1 + q))%Q.
Proof.
  intros Hq.
  assert (E1 : (1 + of_Q q)%num = of_Q (1 + q)).
  { unfold of_Q at 1. destruct (Qeq_bool q 0) eqn:Z0.
    - apply Qeq_bool_iff in Z0. cbn [add].
      rewrite of_Q_nz by lra. f_equal. change 1%Q with (Qred 1) at 1.
      apply Qred_complete. rewrite Z0. reflexivity.
    - cbn [add]. unfold of_Q.
      assert (A : (1 + Qred q == 1 + q)%Q) by now rewrite Qred_correct.
      rewrite (Qeqb_comp _ _ A 0%Q 0%Q (Qeq_refl 0)).
      destruct (Qeq_bool (1 + q) 0); [reflexivity|].
      f_equal. now apply Qred_complete. }
  rewrite E1. rewrite (of_Q_nz (1 + q)) by lra.
  change 1%num with (Fin 1) at 2. cbn [div].
  assert (Hinv : (0 < / (1 + q))%Q) by (apply Qinv_lt_0_compat; lra).
  assert (E2 : (1 / Qred (1 + q) == / (1 + q))%Q).
  { rewrite Qred_correct. unfold Qdiv. ring. }
  assert (NZ : ~ (1 / Qred (1 + q) == 0)%Q).
  { intros C. rewrite E2 in C. lra. }
  rewrite (of_Q_nz _ NZ).
  change 1%num with (Fin 1). unfold sub. cbn [neg add].
  eexists. split; [reflexivity|].
  rewrite !Qred_correct. unfold Qdiv. ring.
Qed.

Lemma koef_bounds (q : Q) :
  (0 <= q)%Q -> (0 <= 1 - / (1 + q))%Q /\ (1 - / (1 + q) < 1)%Q.
Proof.
  intros Hq.
  assert (Hinv : (0 < / (1 + q))%Q) by (apply Qinv_lt_0_compat; lra).
  assert (Hle : (/ (1 + q) <= 1)%Q).
  { apply Qle_shift_inv_r; lra. }
  split; lra.
Qed.

Lemma koef_monotone (p q : Q) :
  (0 <= p)%Q -> (p <= q)%Q -> (1 - / (1 + p) <= 1 - / (1 + q))%Q.
Proof.
  intros Hp Hpq.
  assert (/ (1 + q) <= / (1 + p))%Q; [|lra].
  destruct (Qlt_le_dec p q) as [L|L].
  - apply Qlt_le_weak.
    assert (P1 : (0 < 1 + p)%Q) by lra. assert (Q1 : (0 < 1 + q)%Q) by lra.
    apply (proj1 (Qinv_lt_contravar (1 + p) (1 + q) P1 Q1)). lra.
  - assert (E : (p == q)%Q) by lra. rewrite E. apply Qle_refl.
Qed.

(** ** Frames: what the loops of the engine leave alone *)

Lemma for_each_preserve {A S : Type} (P : S -> Prop) (l : list A)
    (body : A -> S -> result S) (s s' : S) :
  P s ->
  (forall i s s', P s -> body i s = Ok s' -> P s') ->
  for_each l body s = Ok s' -> P s'.
Proof.
  intros Hs Hbody. revert s Hs.
  induction l as [|i l IH]; intros s Hs E.
  - injection E as <-. exact Hs.
  - rewrite for_each_cons in E. destruct (body i s) as [s1|e] eqn:B;
      [|discriminate E].
    apply (IH s1); [now apply (Hbody i s)|exact E].
Qed.

Lemma loop_preserve {S : Type} (P : S -> Prop) (lo hi : Z)
    (body : Z -> S -> S) (s : S) :
  P s -> (forall i s, P s -> P (body i s)) -> P (loop lo hi body s).
Proof.
  intros Hs Hbody. unfold loop. revert s Hs.
  induction (seqZ lo (hi - lo)) as [|i l IH]; intros s Hs; [exact Hs|].
  simpl. apply IH. now apply Hbody.
Qed.

Lemma bind_Ok {A B : Type} (m : result A) (k : A -> result B) (b : B) :
  (m ≫= k) = Ok b -> exists a, m = Ok a /\ k a = Ok b.
Proof.
  destruct m as [a|e]; [|discriminate]. intros H. now exists a.
Qed.

Section Frame.

Context {host : Host}.

(** A property of the engine that the assignments to the buffers and
    tables keep. *)
Variable P : ActiveVolume -> Prop.

Hypothesis P_histogram : forall v t, P t -> P (set_m_histogram v t).
Hypothesis P_colorProbability :
  forall v t, P t -> P (set_m_colorProbability v t).

Lemma probabilities_frame (n : num) (this : ActiveVolume) :
  P this -> P (probabilities n this).
Proof.
  intros H. unfold probabilities. apply loop_preserve; [exact H|].
  intros i t Ht. now apply P_colorProbability.
Qed.

Lemma histFull_frame (this this' : ActiveVolume) :
  P this -> histFull this = Ok this' -> P this'.
Proof.
  intros H E. unfold histFull in E.
  apply bind_Ok in E. destruct E as (t & E & R). injection R as <-.
  apply probabilities_frame.
  revert E. apply for_each_preserve; [now apply P_histogram|].
  intros i s s' Hs B. apply bind_Ok in B. destruct B as (g & _ & R).
  injection R as <-. now apply P_histogram.
Qed.

Lemma histBands_frame (l r : Q) (this this' : ActiveVolume) (n : Z) :
  P this -> histBands l r this = Ok (this', n) -> P this'.
Proof.
  intros H E. unfold histBands in E.
  change (P (fst (this', n))).
  set (PS := fun s : ActiveVolume * Z => P (fst s)).
  revert E. unfold for_Q.
  apply (for_each_preserve PS); [now apply P_histogram|].
  intros z s s' Hs. apply (for_each_preserve PS); [exact Hs|].
  intros y s1 s2 Hs1 B. apply bind_Ok in B. destruct B as (s3 & B1 & B2).
  assert (H3 : PS s3).
  { revert B1. apply (for_each_preserve PS); [exact Hs1|].
    intros x [t c] u Ht B. apply bind_Ok in B. destruct B as (g & _ & R).
    injection R as <-. now apply P_histogram. }
  revert B2. apply (for_each_preserve PS); [exact H3|].
  intros x [t c] u Ht B. apply bind_Ok in B. destruct B as (g & _ & R).
  injection R as <-. now apply P_histogram.
Qed.

Lemma secondPass_frame (this this' : ActiveVolume) (n : Z) :
  P this -> secondPass this = Ok (this', n) -> P this'.
Proof.
  intros H E. unfold secondPass in E.
  apply bind_Ok in E. destruct E as (c & _ & E).
  apply bind_Ok in E. destruct E as ([l r] & _ & E).
  now apply (histBands_frame l r this this' n).
Qed.

Lemma buildCurve_frame (Math_exp : num -> num) (this : ActiveVolume) :
  P this -> P (buildCurve Math_exp this).
Proof.
  intros H. unfold buildCurve.
  apply loop_preserve; [now apply P_colorProbability|].
  intros i t Ht. now apply P_colorProbability.
Qed.

Hypothesis P_colorKoefs : forall v t, P t -> P (set_m_colorKoefs v t).
Hypothesis P_indexMinColor : forall v t, P t -> P (set_m_indexMinColor v t).

Lemma getHistogram_frame (Math_exp : num -> num)
    (Math_pow : num -> num -> num) (this this' : ActiveVolume) (r : Z) :
  P this -> getHistogram Math_exp Math_pow this = Ok (r, this') -> P this'.
Proof.
  intros H E. unfold getHistogram in E.
  apply bind_Ok in E. destruct E as (t1 & E1 & E).
  apply bind_Ok in E. destruct E as ([t2 n] & E2 & E).
  injection E as _ <-.
  apply buildCurve_frame, probabilities_frame.
  revert E2. apply secondPass_frame.
  unfold buildColorKoefs. apply loop_preserve.
  - unfold findMinColor. destruct (List.find _ _); apply P_indexMinColor;
      now apply (histFull_frame this).
  - intros i t Ht. now apply P_colorKoefs.
Qed.

Hypothesis P_imageGauss : forall v t, P t -> P (set_m_imageGauss v t).
Hypothesis P_gaussMatrix : forall v t, P t -> P (set_m_gaussMatrix v t).

Lemma applyPartGaussSmooth_frame (Math_exp : num -> num)
    (zStart zEnd rad : Z) (sigma : num) (this this' : ActiveVolume) :
  P this ->
  applyPartGaussSmooth Math_exp zStart zEnd rad sigma this = Ok this' ->
  P this'.
Proof.
  intros H E. unfold applyPartGaussSmooth in E.
  apply bind_Ok in E. destruct E as (t0 & E0 & E).
  assert (H0 : P t0).
  { destruct (zStart =? 0)%Z; [|now injection E0 as <-].
    unfold initGaussSmooth in E0.
    apply bind_Ok in E0. destruct E0 as (gm & _ & E0).
    destruct (fillGaussMatrix _ _ _ _) as [[gm1 j] wSum].
    revert E0. apply for_each_preserve; [now apply P_gaussMatrix|].
    intros i s s' Hs B.
    apply bind_Ok in B. destruct B as (src & _ & B).
    apply bind_Ok in B. destruct B as (g & _ & B).
    injection B as <-. now apply P_imageGauss. }
  revert E. apply for_each_preserve; [exact H0|].
  intros cz s s' Hs. unfold smoothSlice.
  apply for_each_preserve; [exact Hs|].
  intros cy s1 s2 Hs1. apply for_each_preserve; [exact Hs1|].
  intros cx s3 s4 Hs3 B.
  apply bind_Ok in B. destruct B as (v & _ & B).
  apply bind_Ok in B. destruct B as (g & _ & B).
  injection B as <-. now apply P_imageGauss.
Qed.

Hypothesis P_imageUniformity :
  forall v t, P t -> P (set_m_imageUniformity v t).
Hypothesis P_imageSrc : forall v t, P t -> P (set_m_imageSrc v t).
Hypothesis P_imageGrad : forall v t, P t -> P (set_m_imageGrad v t).

Lemma startImageSmooth_frame (this this' : ActiveVolume) (r : Z) :
  P this -> startImageSmooth this = Ok (r, this') -> P this'.
Proof.
  intros H E. unfold startImageSmooth in E.
  apply bind_Ok in E. destruct E as (t1 & E1 & E).
  apply bind_Ok in E. destruct E as (src & _ & E).
  apply bind_Ok in E. destruct E as (grad & _ & E).
  apply bind_Ok in E. destruct E as (t2 & E2 & E).
  injection E as _ <-.
  assert (H1 : P t1).
  { revert E1. apply for_each_preserve; [exact H|].
    intros i s s' Hs B.
    apply bind_Ok in B. destruct B as (g & _ & B).
    apply bind_Ok in B. destruct B as (u & _ & B).
    injection B as <-. now apply P_imageUniformity, P_imageGauss. }
  revert E2. apply for_each_preserve;
    [now apply P_imageGrad, P_imageSrc|].
  intros i s s' Hs B.
  apply bind_Ok in B. destruct B as (g & _ & B).
  apply bind_Ok in B. destruct B as (p & _ & B).
  apply bind_Ok in B. destruct B as (q & _ & B).
  injection B as <-. now apply P_imageSrc, P_imageGrad.
Qed.

Lemma stopImageSmooth_frame (this : ActiveVolume) :
  P this -> P (stopImageSmooth this).
Proof.
  intros H. unfold stopImageSmooth. now apply P_imageSrc, P_imageGrad.
Qed.

End Frame.

(** *** The first pass keeps the invariant *)

Lemma hist_clear_zeros (h : list Z) :
  length h = 256%nat -> hist_clear h = replicate 256 0.
Proof.
  intros Hlen. unfold hist_clear.
  assert (S : forall k : nat, (k <= 256)%nat ->
    loop 0 (0 + Z.of_nat k) (fun i h => set_elem h i 0) h
    = replicate k 0 ++ drop k h).
  { induction k as [|k IH]; intros Hk.
    - unfold loop. simpl. now rewrite drop_0.
    - rewrite loop_snoc, IH by lia. unfold set_elem.
      destruct (Z.ltb_spec (0 + Z.of_nat k) 0); [lia|].
      replace (Z.to_nat (0 + Z.of_nat k)) with (length (replicate k 0%Z) + 0)%nat
        by (rewrite length_replicate; lia).
      rewrite insert_app_r.
      destruct (lookup_lt_is_Some_2 h k) as [x Hx]; [lia|].
      rewrite (drop_S _ _ _ Hx).
      rewrite replicate_S_end, <- app_assoc. reflexivity. }
  change AV_NUM_COLORS with (0 + Z.of_nat 256).
  rewrite S by lia. rewrite drop_ge by lia. apply app_nil_r.
Qed.

Lemma hist_sum_replicate_0 (n : nat) : hist_sum (replicate n 0) = 0.
Proof. induction n as [|n IH]; simpl; [reflexivity|exact IH]. Qed.

Lemma hist_sum_insert (h : list Z) (k : nat) (c v : Z) :
  h !! k = Some c -> hist_sum (<[k := v]> h) = hist_sum h - c + v.
Proof.
  revert k. induction h as [|x h IH]; intros [|k] H; try discriminate.
  - injection H as ->. simpl. lia.
  - simpl in *. rewrite (IH k H). lia.
Qed.

Lemma to_int32_small (z : Z) : - 2 ^ 31 <= z < 2 ^ 31 -> to_int32 z = z.
Proof.
  intros H. unfold to_int32. rewrite Z.mod_small by lia. lia.
Qed.

(** One sample that lands in a bin adds one to the sum. *)
Lemma hist_incr_sum (h : list Z) (val : num) (k : Z) :
  to_index val = Some k -> 0 <= k < Z.of_nat (length h) ->
  Forall (fun c => 0 <= c) h -> hist_sum h < 2 ^ 31 - 1 ->
  hist_sum (hist_incr h val) = hist_sum h + 1 /\
  length (hist_incr h val) = length h /\
  Forall (fun c => 0 <= c) (hist_incr h val).
Proof.
  intros Hk Hr Hpos Hsum. unfold hist_incr. rewrite Hk.
  destruct (Z.ltb_spec k 0); [lia|].
  destruct (lookup_lt_is_Some_2 h (Z.to_nat k)) as [c Hc]; [lia|].
  rewrite Hc. unfold set_elem. destruct (Z.ltb_spec k 0); [lia|].
  assert (Hc0 : 0 <= c) by (rewrite Forall_lookup in Hpos; eauto).
  assert (Hcs : c <= hist_sum h).
  { clear - Hc Hpos. revert Hc Hpos. generalize (Z.to_nat k) as n.
    induction h as [|x h IH]; intros [|n] Hc Hpos; try discriminate.
    - injection Hc as ->. inversion Hpos as [|? ? ? Hh]; subst. simpl.
      assert (0 <= hist_sum h).
      { clear - Hh. induction Hh; simpl; [lia|]. lia. }
      lia.
    - inversion Hpos; subst. simpl in *. specialize (IH n Hc ltac:(assumption)).
      lia. }
  rewrite to_int32_small by lia.
  split; [rewrite (hist_sum_insert h _ c) by exact Hc; lia|].
  split; [apply length_insert|].
  apply Forall_insert; [exact Hpos|lia].
Qed.

(** A sample that is not negative (NaN included, which the clamp sends to
    255) lands in one of the 256 bins. *)
Lemma first_pass_bin (v : num) :
  (v <? 0)%num = false ->
  let val := floor v in
  let val := if (val <? 255)%num then val else 255%num in
  exists k, to_index val = Some k /\ 0 <= k < 256.
Proof.
  intros Hn. cbn zeta.
  destruct v as [| [|] | s | q]; try discriminate Hn.
  - exists 255. split; [reflexivity|lia].
  - exists 255. split; [reflexivity|lia].
  - exists 0. destruct s; split; (reflexivity || lia).
  - cbn [ltb toQ] in Hn. apply Qltb_ge in Hn. cbn [floor].
    assert (F0 : 0 <= Qfloor q).
    { change 0 with (Qfloor 0). now apply Qfloor_resp_le. }
    destruct (Qeq_bool (inject_Z (Qfloor q)) 0) eqn:Z0.
    { exists 0. split; [reflexivity|lia]. }
    cbn [ltb toQ].
    destruct (Qltb (inject_Z (Qfloor q)) 255%Q) eqn:L.
    + apply Qltb_lt in L. change 255%Q with (inject_Z 255) in L.
      rewrite <- Zlt_Qlt in L.
      exists (Qfloor q). split; [|lia]. unfold to_index.
      rewrite Qfloor_Z.
      now rewrite (proj2 (Qeq_bool_iff _ _) (Qeq_refl (inject_Z (Qfloor q)))).
    + exists 255. split; [reflexivity|lia].
Qed.

Lemma for_range_snoc {S : Type} (lo : Z) (k : nat)
    (body : Z -> S -> result S) (s : S) :
  for_range lo (lo + Z.of_nat (Datatypes.S k)) body s =
  (s' ← for_range lo (lo + Z.of_nat k) body s; body (lo + Z.of_nat k) s').
Proof.
  rewrite (for_range_split lo (lo + Z.of_nat k)) by lia.
  destruct (for_range lo (lo + Z.of_nat k) body s) as [s'|e];
    [|reflexivity].
  cbn [mbind result_bind bind]. unfold for_range.
  replace (lo + Z.of_nat (Datatypes.S k) - (lo + Z.of_nat k)) with 1 by lia.
  change (seqZ (lo + Z.of_nat k) 1) with [0 + (lo + Z.of_nat k)].
  rewrite for_each_cons, Z.add_0_l.
  destruct (body (lo + Z.of_nat k) s'); reflexivity.
Qed.

(** The first pass, on a smoothed volume without negative samples and of
    fewer than 2^31 voxels: the 256 counts sum to the number of voxels. *)
Lemma histFull_counts_all (this : ActiveVolume) (g : list num) :
  length (m_histogram this) = 256%nat ->
  m_imageGauss this = Some g ->
  let numPixels := m_xDim this * m_yDim this * m_zDim this in
  numPixels < 2 ^ 31 ->
  (forall i, 0 <= i < numPixels -> (get_num g i <? 0)%num = false) ->
  exists this',
    histFull this = Ok this' /\
    hist_sum (m_histogram this') = Z.max 0 numPixels.
Proof.
  intros Hlen Hg numPixels Hn Hpos.
  set (t0 := set_m_histogram (replicate 256 0) this).
  set (body := fun (i : Z) (this : ActiveVolume) =>
    imageGauss ← deref (m_imageGauss this);
    let val := floor (get_num imageGauss i) in
    let val := if (val <? 255)%num then val else 255%num in
    Ok (set_m_histogram (hist_incr (m_histogram this) val) this)).
  assert (G : histFull this =
              (t ← for_range 0 numPixels body t0;
               Ok (probabilities (of_Z numPixels) t))).
  { unfold histFull. rewrite (hist_clear_zeros _ Hlen). reflexivity. }
  rewrite G. clear G.
  assert (S : forall k : nat, Z.of_nat k <= Z.max 0 numPixels ->
    exists t, for_range 0 (0 + Z.of_nat k) body t0 = Ok t /\
      m_imageGauss t = Some g /\ length (m_histogram t) = 256%nat /\
      Forall (fun c => 0 <= c) (m_histogram t) /\
      hist_sum (m_histogram t) = Z.of_nat k).
  { induction k as [|k IH]; intros Hk.
    - exists t0. split; [reflexivity|]. split; [exact Hg|].
      split; [reflexivity|]. split; [|apply hist_sum_replicate_0].
      apply Forall_replicate. lia.
    - destruct IH as (t & E & Gt & Lt & Pt & St); [lia|].
      rewrite for_range_snoc, E. cbn [mbind result_bind bind].
      unfold body at 1. rewrite Gt. cbn [deref mbind result_bind bind].
      destruct (first_pass_bin (get_num g (0 + Z.of_nat k)))
        as (b & Hb & Rb); [apply Hpos; lia|].
      cbn zeta in Hb.
      destruct (hist_incr_sum (m_histogram t) _ b Hb) as (S1 & L1 & P1);
        [lia|exact Pt|lia|].
      eexists. split; [reflexivity|].
      cbn [m_imageGauss m_histogram set_m_histogram].
      split; [exact Gt|].
      split; [etransitivity; [exact L1|exact Lt]|]. split; [exact P1|].
      etransitivity; [exact S1|]. rewrite St. lia. }
  destruct (S (Z.to_nat numPixels)) as (t & E & _ & _ & _ & St); [lia|].
  assert (R : for_range 0 numPixels body t0 = Ok t).
  { destruct (Z.le_gt_cases 0 numPixels).
    - now replace numPixels with (0 + Z.of_nat (Z.to_nat numPixels)) at 1 by lia.
    - rewrite for_range_empty by lia.
      replace (0 + Z.of_nat (Z.to_nat numPixels)) with 0 in E by lia.
      now rewrite for_range_empty in E by lia. }
  rewrite R. cbn [mbind result_bind bind]. eexists. split; [reflexivity|].
  assert (F : m_histogram (probabilities (of_Z numPixels) t) = m_histogram t).
  { apply (probabilities_frame (fun u => m_histogram u = m_histogram t));
      [intros; assumption|reflexivity]. }
  rewrite F, St. lia.
Qed.

Section KoefFacts.

Variable Math_pow : num -> num -> num.
Hypothesis Hpow : pow_spec Math_pow.

Lemma koef_at_zero : koef_at Math_pow 0 = Zero false.
Proof.
  unfold koef_at. rewrite (pow_zero _ Hpow). reflexivity.
Qed.

Lemma koef_at_bounds (d : Z) :
  0 <= d ->
  (Zero false <=? koef_at Math_pow d)%num = true /\
  (koef_at Math_pow d <? 1)%num = true.
Proof.
  intros Hd. destruct (pow_nonneg _ Hpow d Hd) as (q & Hq & E).
  unfold koef_at. rewrite E.
  destruct (koef_value q Hq) as (k & -> & Ek).
  destruct (koef_bounds q Hq) as [L U].
  split.
  - change (Zero false) with (of_Q 0). apply leb_of_Q. now rewrite Ek.
  - change 1%num with (of_Q 1). apply ltb_of_Q. now rewrite Ek.
Qed.

Lemma koef_at_monotone (d1 d2 : Z) :
  0 <= d1 <= d2 ->
  (koef_at Math_pow d1 <=? koef_at Math_pow d2)%num = true.
Proof.
  intros Hd. pose proof (pow_mono _ Hpow d1 d2 Hd) as M.
  destruct (pow_nonneg _ Hpow d1) as (q1 & Hq1 & E1); [lia|].
  destruct (pow_nonneg _ Hpow d2) as (q2 & Hq2 & E2); [lia|].
  unfold koef_at. rewrite E1, E2 in *. apply leb_of_Q in M.
  destruct (koef_value q1 Hq1) as (k1 & -> & Ek1).
  destruct (koef_value q2 Hq2) as (k2 & -> & Ek2).
  apply leb_of_Q. rewrite Ek1, Ek2. now apply koef_monotone.
Qed.

End KoefFacts.

(** After its loop, [buildColorKoefs] has written the weight of every
    colour. *)
Lemma buildColorKoefs_spec (Math_pow : num -> num -> num)
    (this : ActiveVolume) :
  length (m_colorKoefs this) = 256%nat ->
  m_indexMinColor (buildColorKoefs Math_pow this) = m_indexMinColor this /\
  forall i, 0 <= i < 256 ->
    get_num (m_colorKoefs (buildColorKoefs Math_pow this)) i
    = koef_at Math_pow (Z.abs (i - m_indexMinColor this)).
Proof.
  intros Hlen. unfold buildColorKoefs.
  set (body := fun (i : Z) (this : ActiveVolume) => _).
  assert (S : forall k : nat, (k <= 256)%nat ->
    let r := loop 0 (0 + Z.of_nat k) body this in
    m_indexMinColor r = m_indexMinColor this /\
    length (m_colorKoefs r) = 256%nat /\
    forall i, 0 <= i < Z.of_nat k ->
      get_num (m_colorKoefs r) i
      = koef_at Math_pow (Z.abs (i - m_indexMinColor this))).
  { induction k as [|k IH]; intros Hk; cbn zeta.
    - unfold loop. simpl. repeat split; [exact Hlen|lia].
    - rewrite loop_snoc. cbn zeta in IH.
      destruct IH as (Ei & El & Hdone); [lia|].
      set (r := loop 0 (0 + Z.of_nat k) body this) in *.
      unfold body. cbn [m_indexMinColor m_colorKoefs set_m_colorKoefs].
      split; [exact Ei|]. split; [now rewrite length_set_elem|].
      intros i Hi. destruct (Z.eq_dec i (Z.of_nat k)) as [->|Hne].
      + replace (0 + Z.of_nat k) with (Z.of_nat k) by lia.
        rewrite get_set_eq by lia.
        rewrite Ei, sub_of_Z, abs_of_Z. reflexivity.
      + rewrite get_set_ne by lia. apply Hdone. lia. }
  specialize (S 256%nat (le_n _)). cbn zeta in S.
  destruct S as (Ei & _ & Hdone).
  change AV_NUM_COLORS with (0 + Z.of_nat 256).
  split; [exact Ei|]. intros i Hi. apply Hdone. lia.
Qed.

Lemma findMinColor_spec (this : ActiveVolume) :
  m_colorKoefs (findMinColor this) = m_colorKoefs this /\
  0 <= m_indexMinColor (findMinColor this) < 64.
Proof.
  unfold findMinColor.
  destruct (List.find _ _) as [i|] eqn:F; cbn; [|split; [reflexivity|lia]].
  split; [reflexivity|].
  apply List.find_some in F. destruct F as [F _].
  apply list_elem_of_In, elem_of_seqZ in F. lia.
Qed.

Section ColorKoefs.

Variable Math_exp : num -> num.
Variable Math_pow : num -> num -> num.

(** The classifier leaves [m_colorKoefs] and [m_indexMinColor] as
    [buildColorKoefs] wrote them. *)
Lemma getHistogram_koefs (this this' : ActiveVolume) (r : Z) :
  getHistogram Math_exp Math_pow this = Ok (r, this') ->
  exists t1 : ActiveVolume,
    histFull this = Ok t1 /\
    m_colorKoefs this'
    = m_colorKoefs (buildColorKoefs Math_pow (findMinColor t1)) /\
    m_indexMinColor this'
    = m_indexMinColor (buildColorKoefs Math_pow (findMinColor t1)).
Proof.
  intros E. unfold getHistogram in E.
  apply bind_Ok in E. destruct E as (t1 & E1 & E).
  apply bind_Ok in E. destruct E as ([t2 n] & E2 & E).
  injection E as _ <-. exists t1. split; [exact E1|].
  set (t3 := buildColorKoefs Math_pow (findMinColor t1)) in *.
  set (P := fun t => m_colorKoefs t = m_colorKoefs t3 /\
                     m_indexMinColor t = m_indexMinColor t3).
  assert (Ph : forall v t, P t -> P (set_m_histogram v t)) by (intros; assumption).
  assert (Pp : forall v t, P t -> P (set_m_colorProbability v t))
    by (intros; assumption).
  assert (P3 : P t3) by (split; reflexivity).
  apply (buildCurve_frame P Pp), (probabilities_frame P Pp).
  exact (secondPass_frame P Ph t3 t2 n P3 E2).
Qed.

(** C4: after classification, with the tables of the constructor (256
    entries) and a power function that is 0 at 0, finite, not negative and
    monotone on the distances: [indexMinColor] is a colour; every
    [ColorKoefs[i]] lies in [0,1); [ColorKoefs[indexMinColor]] is 0; and
    [ColorKoefs] does not decrease when [|i - indexMinColor|] grows. *)
Theorem colorKoefs_after_classification
    (this this' : ActiveVolume) (r : Z) :
  pow_spec Math_pow ->
  length (m_colorKoefs this) = 256%nat ->
  getHistogram Math_exp Math_pow this = Ok (r, this') ->
  let idx := m_indexMinColor this' in
  let K := get_num (m_colorKoefs this') in
  0 <= idx < 256 /\
  (forall i, 0 <= i < 256 ->
     (Zero false <=? K i)%num = true /\ (K i <? 1)%num = true) /\
  K idx = Zero false /\
  (forall i j, 0 <= i < 256 -> 0 <= j < 256 ->
     Z.abs (i - idx) <= Z.abs (j - idx) -> (K i <=? K j)%num = true).
Proof.
  intros Hpow Hlen E idx K. subst idx K.
  destruct (getHistogram_koefs this this' r E) as (t1 & E1 & -> & ->).
  assert (L1 : length (m_colorKoefs t1) = 256%nat).
  { apply (histFull_frame (fun t => length (m_colorKoefs t) = 256%nat))
      with (this := this); auto. }
  destruct (findMinColor_spec t1) as [Ek Ir].
  destruct (buildColorKoefs_spec Math_pow (findMinColor t1)) as [-> Hk];
    [now rewrite Ek|].
  set (idx := m_indexMinColor (findMinColor t1)) in *.
  split; [lia|]. split; [|split].
  - intros i Hi. rewrite (Hk i Hi). apply koef_at_bounds; [exact Hpow|lia].
  - rewrite Hk by lia. rewrite Z.sub_diag. now apply koef_at_zero.
  - intros i j Hi Hj Hd. rewrite (Hk i Hi), (Hk j Hj).
    apply koef_at_monotone; [exact Hpow|lia].
Qed.

End ColorKoefs.

(** The identity has what [pow_spec] asks of a power function. *)
Lemma pow_spec_identity : pow_spec pow_id.
Proof.
  split.
  - reflexivity.
  - intros d Hd. exists (inject_Z d). split; [|reflexivity].
    change 0%Q with (inject_Z 0). now rewrite <- Zle_Qle.
  - intros d1 d2 Hd. apply leb_of_Q. rewrite <- Zle_Qle. lia.
Defined.

Lemma colorKoefs_after_classification_witness :
  exists (r : Z) (this' : ActiveVolume),
    (pow_spec pow_id /\
     length (m_colorKoefs zeros4) = 256%nat /\
     getHistogram exp_one pow_id zeros4 = Ok (r, this')) /\
    get_num (m_colorKoefs this') (m_indexMinColor this') = Zero false.
Proof.
  destruct (getHistogram exp_one pow_id zeros4)
    as [[r this']|e] eqn:E.
  - exists r, this'.
    split; [split; [exact pow_spec_identity|split; reflexivity]|].
    exact (proj1 (proj2 (proj2
      (colorKoefs_after_classification exp_one pow_id
         zeros4 this' r pow_spec_identity eq_refl E)))).
  - exfalso. vm_compute in E. discriminate E.
Defined.

(** ** The step function: the work of one call *)

Lemma State_eqb_eq (a b : State) : State_eqb a b = true <-> a = b.
Proof. destruct a, b; cbn; split; (reflexivity || discriminate). Qed.

Lemma State_eqb_neq (a b : State) : State_eqb a b = false <-> a <> b.
Proof.
  destruct a, b; cbn; split; try reflexivity; try discriminate; congruence.
Qed.

Section StepFacts.

Context {host : Host}.

Variable Math_exp : num -> num.
Variable Math_pow : num -> num -> num.
Variable createNormalsForGeometry : GeoRender -> Z * GeoRender.

Lemma stepNotStarted_spec (s : Step) (f : flow) :
  stepNotStarted createNormalsForGeometry s = Ok f ->
  (m_state (st_this s) <> AV_STATE_NOT_STARTED /\ f = Next s) \/
  (m_state (st_this s) = AV_STATE_NOT_STARTED /\
   ((exists r geo, f = Return r (mkStep (st_this s) geo (st_work s))) \/
    (exists t geo,
       f = Next (mkStep t geo (st_work s ++ [W_startImageSmooth])) /\
       control AV_STATE_PREPARE_GAUSS 0 (m_uniformityStage (st_this s)) t))).
Proof.
  unfold stepNotStarted. intros E.
  destruct (State_eqb _ _) eqn:S0.
  - right. apply State_eqb_eq in S0. split; [exact S0|].
    destruct (createNormalsForGeometry (st_geo s)) as [ok geo].
    destruct (negb (ok =? 1)).
    + injection E as <-. left. now eexists _, _.
    + apply bind_Ok in E. destruct E as ([r t] & E1 & E).
      injection E as <-. right. eexists _, _. split; [reflexivity|].
      apply (startImageSmooth_frame
               (fun t => m_uniformityStage t
                         = m_uniformityStage (st_this s))) in E1;
        try (intros; assumption); [|reflexivity].
      repeat split. exact E1.
  - left. apply State_eqb_neq in S0. injection E as <-. now split.
Qed.

Lemma stepPrepareGauss_spec (s s' : Step) :
  stepPrepareGauss Math_exp s = Ok s' ->
  (m_state (st_this s) <> AV_STATE_PREPARE_GAUSS /\ s' = s) \/
  (m_state (st_this s) = AV_STATE_PREPARE_GAUSS /\
   exists zs ze,
     st_work s' = st_work s ++ [W_gaussBand zs ze] /\
     ((m_gaussStage (st_this s) + 1 < 18 /\
       control AV_STATE_PREPARE_GAUSS (m_gaussStage (st_this s) + 1)
         (m_uniformityStage (st_this s)) (st_this s')) \/
      (18 <= m_gaussStage (st_this s) + 1 /\
       control AV_STATE_PREPARE_UNIFORMITY (m_gaussStage (st_this s) + 1)
         0 (st_this s')))).
Proof.
  unfold stepPrepareGauss. intros E.
  destruct (State_eqb _ _) eqn:S0.
  - right. apply State_eqb_eq in S0. split; [exact S0|].
    apply bind_Ok in E. destruct E as (t & E1 & E).
    apply (applyPartGaussSmooth_frame
             (control AV_STATE_PREPARE_GAUSS (m_gaussStage (st_this s))
                (m_uniformityStage (st_this s)))) in E1;
      try (intros; assumption); [|now repeat split].
    destruct E1 as (Xs & Xg & Xu).
    injection E as <-. eexists _, _. split; [reflexivity|].
    cbn [st_this m_gaussStage set_m_gaussStage]. rewrite Xg.
    unfold ACT_VOL_NUM_SMOOTH_STAGES.
    destruct (Z.geb_spec (m_gaussStage (st_this s) + 1) 18).
    + right. split; [lia|]. repeat split.
    + left. split; [lia|]. repeat split; assumption.
  - left. apply State_eqb_neq in S0. injection E as <-. now split.
Qed.

Lemma stepPrepareUniformity_spec (s s' : Step) :
  stepPrepareUniformity Math_exp Math_pow s = Ok s' ->
  (m_state (st_this s) <> AV_STATE_PREPARE_UNIFORMITY /\ s' = s) \/
  (m_state (st_this s) = AV_STATE_PREPARE_UNIFORMITY /\
   ((m_uniformityStage (st_this s) + 1 <> 18 /\
     st_work s' = st_work s ++ [W_uniformityBand] /\
     m_state (st_this s') = AV_STATE_PREPARE_UNIFORMITY) \/
    (m_uniformityStage (st_this s) + 1 = 18 /\
     st_work s' = st_work s ++ [W_uniformityBand; W_getHistogram] /\
     m_state (st_this s') = AV_STATE_UPDATE_GEO))).
Proof.
  unfold stepPrepareUniformity. intros E.
  destruct (State_eqb _ _) eqn:S0.
  - right. apply State_eqb_eq in S0. split; [exact S0|].
    cbn [m_uniformityStage set_m_uniformityStage] in E.
    unfold ACT_VOL_NUM_SMOOTH_STAGES in E.
    destruct (Z.eqb_spec (m_uniformityStage (st_this s) + 1) 18).
    + right. split; [assumption|].
      apply bind_Ok in E. destruct E as ([r t] & E1 & E).
      injection E as <-. cbn [st_work st_this]. split; [|reflexivity].
      now rewrite <- app_assoc.
    + left. split; [assumption|]. injection E as <-. now split.
  - left. apply State_eqb_neq in S0. injection E as <-. now split.
Qed.

Lemma stepUpdateGeo_spec (method : Z) (s s' : Step) :
  stepUpdateGeo method s = Ok s' ->
  (m_state (st_this s) <> AV_STATE_UPDATE_GEO /\ s' = s) \/
  (m_state (st_this s) = AV_STATE_UPDATE_GEO /\
   st_work s' = st_work s ++ [W_relax] /\
   m_state (st_this s') = AV_STATE_UPDATE_GEO).
Proof.
  unfold stepUpdateGeo. intros E.
  destruct (State_eqb _ _) eqn:S0.
  - right. apply State_eqb_eq in S0. split; [exact S0|].
    apply bind_Ok in E. destruct E as (t & E1 & E).
    assert (St : m_state t = AV_STATE_UPDATE_GEO).
    { destruct (m_verticesNew (st_this s)).
      - now injection E1 as <-.
      - apply bind_Ok in E1. destruct E1 as (v & _ & E1).
        now injection E1 as <-. }
    apply bind_Ok in E. destruct E as (_ & _ & E).
    apply bind_Ok in E. destruct E as (_ & _ & E).
    apply bind_Ok in E. destruct E as (t' & E2 & E).
    injection E as <-. cbn [st_work st_this]. split; [reflexivity|].
    cbn [m_state set_m_geoStage].
    destruct (_ && _) in E2.
    + apply bind_Ok in E2. destruct E2 as (fin & F & E2).
      unfold updateGeoNormalsUniformityColors in F.
      destruct (geo_normals (st_geo s)); [discriminate F|].
      injection F as <-. now injection E2 as <-.
    + now injection E2 as <-.
  - left. apply State_eqb_neq in S0. injection E as <-. now split.
Qed.

End StepFacts.

Section WorkOfACall.

Context {host : Host}.

Variable Math_exp : num -> num.
Variable Math_pow : num -> num -> num.
Variable createNormalsForGeometry : GeoRender -> Z * GeoRender.

(** The work of a call, by the state the call starts in. *)
Lemma updateGeo_work_cases (this : ActiveVolume) (geo : GeoRender)
    (method r : Z) (s : Step) :
  updateGeo_work Math_exp Math_pow createNormalsForGeometry this geo method
  = Ok (r, s) ->
  let w := st_work s in
  let X' := m_state (st_this s) in
  match m_state this with
  | AV_STATE_NA => w = [] /\ X' = AV_STATE_NA
  | AV_STATE_FINISHED => w = [] /\ X' = AV_STATE_FINISHED
  | AV_STATE_NOT_STARTED =>
      (w = [] /\ X' = AV_STATE_NOT_STARTED) \/
      (exists zs ze, w = [W_startImageSmooth; W_gaussBand zs ze] /\
                     X' = AV_STATE_PREPARE_GAUSS)
  | AV_STATE_PREPARE_GAUSS =>
      exists zs ze,
        (w = [W_gaussBand zs ze] /\ X' = AV_STATE_PREPARE_GAUSS) \/
        (w = [W_gaussBand zs ze; W_uniformityBand] /\
         X' = AV_STATE_PREPARE_UNIFORMITY)
  | AV_STATE_PREPARE_UNIFORMITY =>
      (w = [W_uniformityBand] /\ X' = AV_STATE_PREPARE_UNIFORMITY) \/
      (w = [W_uniformityBand; W_getHistogram; W_relax] /\
       X' = AV_STATE_UPDATE_GEO)
  | AV_STATE_UPDATE_GEO => w = [W_relax] /\ X' = AV_STATE_UPDATE_GEO
  end.
Proof.
  intros E. cbn zeta. unfold updateGeo_work in E.
  destruct (State_eqb (m_state this) AV_STATE_FINISHED) eqn:F.
  { apply State_eqb_eq in F. rewrite F. injection E as _ <-. now split. }
  apply State_eqb_neq in F.
  apply bind_Ok in E. destruct E as (f & E0 & E).
  apply stepNotStarted_spec in E0. cbn [st_this st_work] in E0.
  destruct E0 as [[N0 ->]|[N0 [(r0 & g0 & ->)|(t0 & g0 & -> & C0)]]].
  - (* not NotStarted *)
    apply bind_Ok in E. destruct E as (s1 & E1 & E).
    apply bind_Ok in E. destruct E as (s2 & E2 & E).
    apply bind_Ok in E. destruct E as (s3 & E3 & E).
    injection E as _ <-.
    apply stepPrepareGauss_spec in E1. cbn [st_this st_work] in E1.
    apply stepPrepareUniformity_spec in E2.
    apply stepUpdateGeo_spec in E3.
    destruct E1 as [[N1 ->]|[S1 (zs & ze & W1 & T1)]].
    + cbn [st_this st_work] in E2.
      destruct E2 as [[N2 ->]|[S2 T2]].
      * cbn [st_this st_work] in E3.
        destruct E3 as [[N3 ->]|[S3 (W3 & X3)]].
        -- cbn [st_this st_work].
           destruct (m_state this); try congruence; now split.
        -- rewrite S3. now split.
      * rewrite S2. destruct T2 as [(_ & W2 & X2)|(_ & W2 & X2)].
        -- destruct E3 as [[_ ->]|[S3 _]]; [|congruence]. left. now split.
        -- destruct E3 as [[N3 _]|[_ (W3 & X3)]]; [congruence|].
           right. rewrite W3, W2. now split.
    + rewrite S1. exists zs, ze.
      destruct T1 as [(_ & X1 & _)|(_ & X1 & _ & U1)].
      * destruct E2 as [[_ ->]|[S2 _]]; [|congruence].
        destruct E3 as [[_ ->]|[S3 _]]; [|congruence].
        left. now split.
      * destruct E2 as [[N2 _]|[_ T2]]; [congruence|].
        destruct T2 as [(_ & W2 & X2)|(U2 & _)]; [|lia].
        destruct E3 as [[_ ->]|[S3 _]]; [|congruence].
        right. rewrite W2, W1. now split.
  - (* NotStarted, the normals failed *)
    rewrite N0. injection E as _ <-. left. now split.
  - (* NotStarted, initialised *)
    rewrite N0.
    apply bind_Ok in E. destruct E as (s1 & E1 & E).
    apply bind_Ok in E. destruct E as (s2 & E2 & E).
    apply bind_Ok in E. destruct E as (s3 & E3 & E).
    injection E as _ <-.
    apply stepPrepareGauss_spec in E1. cbn [st_this st_work] in E1.
    apply stepPrepareUniformity_spec in E2.
    apply stepUpdateGeo_spec in E3.
    destruct C0 as (X0 & G0 & _).
    destruct E1 as [[N1 _]|[_ (zs & ze & W1 & T1)]]; [congruence|].
    rewrite G0 in T1.
    destruct T1 as [(_ & X1 & _)|(L & _)]; [|lia].
    destruct E2 as [[_ ->]|[S2 _]]; [|congruence].
    destruct E3 as [[_ ->]|[S3 _]]; [|congruence].
    right. exists zs, ze. now split.
Qed.

End WorkOfACall.

(** C1, counterexample: the call that performs the last uniformity step
    also runs the classifier and a relaxation pass, work of
    PrepareUniformity and of UpdateGeo in one call. *)
Lemma updateGeo_two_states_in_one_call :
  work_of (updateGeo_work (host := small_host) exp_one pow_id normals_done
             last_uniformity_step one_vertex AV_METHOD_ALL)
  = Some [W_uniformityBand; W_getHistogram; W_relax] /\
  ~ one_state_per_call_claim.
Proof.
  assert (W : work_of (updateGeo_work (host := small_host) exp_one pow_id
                         normals_done
                         last_uniformity_step one_vertex AV_METHOD_ALL)
              = Some [W_uniformityBand; W_getHistogram; W_relax])
    by (vm_compute; reflexivity).
  split; [exact W|].
  intros H.
  destruct (updateGeo_work (host := small_host) exp_one pow_id normals_done
              last_uniformity_step one_vertex AV_METHOD_ALL)
    as [[r s]|e] eqn:E; [|discriminate W].
  injection W as W.
  specialize (H _ _ _ _ _ _ _ _ _ E W_uniformityBand W_relax).
  rewrite W in H.
  assert (A : W_uniformityBand ∈ [W_uniformityBand; W_getHistogram; W_relax])
    by (apply list_elem_of_here).
  assert (B : W_relax ∈ [W_uniformityBand; W_getHistogram; W_relax])
    by (do 2 apply list_elem_of_further; apply list_elem_of_here).
  specialize (H A B). discriminate H.
Qed.

Section OneCall.

Context {host : Host}.

Variable Math_exp : num -> num.
Variable Math_pow : num -> num -> num.
Variable createNormalsForGeometry : GeoRender -> Z * GeoRender.

(** C1, amended: in a call of [updateGeo] that returns, no unit of work is
    performed twice and the work follows the order of the states (at most
    one initialisation, one smoothing band, one uniformity step with at
    most one classification pass, one relaxation pass); a call that leaves
    the state as it was performs work of that state only; a call on which
    the state changes performs, in that same call, work of the state it
    leaves and work of the state it enters. *)
Theorem updateGeo_work_per_call (this : ActiveVolume) (geo : GeoRender)
    (method r : Z) (s : Step) :
  updateGeo_work Math_exp Math_pow createNormalsForGeometry this geo method
  = Ok (r, s) ->
  (exists zs ze,
     sublist (st_work s)
       [W_startImageSmooth; W_gaussBand zs ze; W_uniformityBand;
        W_getHistogram; W_relax]) /\
  (m_state (st_this s) = m_state this ->
   forall w, w ∈ st_work s -> work_state w = m_state this) /\
  (m_state (st_this s) <> m_state this ->
   exists w1 w2, w1 ∈ st_work s /\ w2 ∈ st_work s /\
     work_state w1 = m_state this /\
     work_state w2 = m_state (st_this s)).
Proof.
  intros E.
  pose proof (updateGeo_work_cases Math_exp Math_pow
                createNormalsForGeometry this geo method r s E) as C.
  cbn zeta in C.
  destruct (m_state this) eqn:X.
  - destruct C as [-> ->]. split; [exists 0, 0; apply sublist_nil_l|].
    split; [intros _ w M; inversion M|congruence].
  - destruct C as [[-> ->]|(zs & ze & -> & ->)].
    + split; [exists 0, 0; apply sublist_nil_l|].
      split; [intros _ w M; inversion M|congruence].
    + split; [exists zs, ze; repeat constructor|].
      split; [discriminate|]. intros _.
      exists W_startImageSmooth, (W_gaussBand zs ze).
      repeat split; repeat constructor.
  - destruct C as (zs & ze & [[-> ->]|[-> ->]]).
    + split; [exists zs, ze; repeat constructor|].
      split; [|congruence]. intros _.
      apply Forall_forall. repeat constructor.
    + split; [exists zs, ze; repeat constructor|].
      split; [discriminate|]. intros _.
      exists (W_gaussBand zs ze), W_uniformityBand.
      repeat split; repeat constructor.
  - destruct C as [[-> ->]|[-> ->]].
    + split; [exists 0, 0; repeat constructor|].
      split; [|congruence]. intros _.
      apply Forall_forall. repeat constructor.
    + split; [exists 0, 0; repeat constructor|].
      split; [discriminate|]. intros _.
      exists W_uniformityBand, W_relax.
      repeat split; repeat constructor.
  - destruct C as [-> ->].
    split; [exists 0, 0; repeat constructor|].
    split; [|congruence]. intros _.
    apply Forall_forall. repeat constructor.
  - destruct C as [-> ->]. split; [exists 0, 0; apply sublist_nil_l|].
    split; [intros _ w M; inversion M|congruence].
Qed.

End OneCall.

Lemma updateGeo_work_per_call_witness :
  exists (r : Z) (s : Step),
    updateGeo_work (host := small_host) exp_one pow_id normals_done
      last_uniformity_step one_vertex AV_METHOD_ALL = Ok (r, s) /\
    exists zs ze,
      sublist (st_work s)
        [W_startImageSmooth; W_gaussBand zs ze; W_uniformityBand;
         W_getHistogram; W_relax].
Proof.
  destruct (updateGeo_work (host := small_host) exp_one pow_id normals_done
              last_uniformity_step one_vertex AV_METHOD_ALL)
    as [[r s]|e] eqn:E.
  - exists r, s. split; [reflexivity|].
    exact (proj1 (updateGeo_work_per_call (host := small_host) exp_one pow_id
                    normals_done last_uniformity_step one_vertex
                    AV_METHOD_ALL r s E)).
  - exfalso. vm_compute in E. discriminate E.
Defined.

(** ** The bitmap writer *)


(** The four bytes of a 32-bit field give the field back. *)
Lemma dword_bytes (v : Z) :
  0 <= v < 2 ^ 31 ->
  let b0 := Z.land (to_int32 v) 255 in
  let v1 := Z.shiftr (to_int32 v) 8 in
  let b1 := Z.land (to_int32 v1) 255 in
  let v2 := Z.shiftr (to_int32 v1) 8 in
  let b2 := Z.land (to_int32 v2) 255 in
  let v3 := Z.shiftr (to_int32 v2) 8 in
  let b3 := Z.land (to_int32 v3) 255 in
  b0 mod 256 + 256 * (b1 mod 256) + 65536 * (b2 mod 256)
  + 16777216 * (b3 mod 256) = v.
Proof.
  intros H. cbn zeta.
  assert (L : forall a, 0 <= a -> Z.land a 255 = a mod 256).
  { intros a Ha. change 255 with (Z.ones 8). now rewrite Z.land_ones by lia. }
  assert (S : forall a, Z.shiftr a 8 = a / 256).
  { intros a. now rewrite Z.shiftr_div_pow2 by lia. }
  rewrite (to_int32_small v) by lia. rewrite !S.
  assert (H1 : 0 <= v / 256 < 2 ^ 23).
  { split; [apply Z.div_pos; lia|apply Z.div_lt_upper_bound; lia]. }
  rewrite (to_int32_small (v / 256)) by lia.
  assert (H2 : 0 <= v / 256 / 256 < 2 ^ 15).
  { split; [apply Z.div_pos; lia|apply Z.div_lt_upper_bound; lia]. }
  rewrite (to_int32_small (v / 256 / 256)) by lia.
  assert (H3 : 0 <= v / 256 / 256 / 256 < 2 ^ 7).
  { split; [apply Z.div_pos; lia|apply Z.div_lt_upper_bound; lia]. }
  rewrite (to_int32_small (v / 256 / 256 / 256)) by lia.
  rewrite !L by lia. rewrite !Z.mod_mod by lia.
  rewrite (Z.mod_small (v / 256 / 256 / 256)) by lia.
  pose proof (Z.div_mod v 256 ltac:(lia)).
  pose proof (Z.div_mod (v / 256) 256 ltac:(lia)).
  pose proof (Z.div_mod (v / 256 / 256) 256 ltac:(lia)).
  lia.
Qed.

(** The row length is the next multiple of four. *)
Lemma bmp_pixStride_spec (xDim : Z) :
  0 <= xDim -> 3 * xDim + 3 < 2 ^ 31 ->
  bmp_pixStride xDim = 4 * ((3 * xDim + 3) / 4).
Proof.
  intros H0 H1. unfold bmp_pixStride.
  rewrite (to_int32_small (3 * xDim + 3)) by lia.
  change (to_int32 (Z.lnot 3)) with (Z.lnot (Z.ones 2)).
  change (Z.land (3 * xDim + 3) (Z.lnot (Z.ones 2)))
    with (Z.ldiff (3 * xDim + 3) (Z.ones 2)).
  rewrite Z.ldiff_ones_r by lia.
  rewrite Z.shiftl_mul_pow2, Z.shiftr_div_pow2 by lia.
  change (2 ^ 2) with 4. lia.
Qed.
(** Writing at the cursor: the bytes before it grow by one. *)
Lemma put_byte_cursor (pre : list Z) (x : Z) (suf : list Z) (b : Z) :
  put_byte b (pre ++ x :: suf, Z.of_nat (length pre))
  = ((pre ++ [b mod 256]) ++ suf, Z.of_nat (length (pre ++ [b mod 256]))).
Proof.
  unfold put_byte, set_elem.
  destruct (Z.ltb_spec (Z.of_nat (length pre)) 0); [lia|].
  rewrite Nat2Z.id.
  replace (length pre) with (length pre + 0)%nat at 1 by lia.
  rewrite insert_app_r. cbn [insert list_insert].
  rewrite <- app_assoc, length_app. cbn [app length].
  f_equal. lia.
Qed.

Lemma skip_bytes_cursor (pre : list Z) (a b c d : Z) (suf : list Z) :
  skip_bytes 4 (pre ++ a :: b :: c :: d :: suf, Z.of_nat (length pre))
  = ((pre ++ [a; b; c; d]) ++ suf,
     Z.of_nat (length (pre ++ [a; b; c; d]))).
Proof.
  unfold skip_bytes. rewrite <- app_assoc, length_app. cbn [app length].
  f_equal. lia.
Qed.

Lemma bmp_headers_zeros (xDim yDim : Z) (rest : list Z) :
  bmp_headers xDim yDim (replicate 54 0 ++ rest, 0)
  = (bmp_header_bytes xDim yDim ++ rest, 54).
Proof.
  unfold bmp_headers, put_dword. cbv zeta.
  change (replicate 54 0 ++ rest, 0)
    with (@nil Z ++ 0 :: (replicate 53 0 ++ rest), Z.of_nat (length (@nil Z))).
  cbn [replicate app] .
  repeat first [rewrite put_byte_cursor | rewrite skip_bytes_cursor].
  cbn [app length]. reflexivity.
Qed.
Lemma byte_at_set_eq (a : list Z) (i v : Z) :
  0 <= i < Z.of_nat (length a) -> byte_at (set_elem a i v) i = Some v.
Proof.
  intros H. unfold byte_at, set_elem.
  destruct (Z.ltb_spec i 0); [lia|].
  apply list_lookup_insert_eq. lia.
Qed.

Lemma byte_at_set_ne (a : list Z) (i j v : Z) :
  i <> j -> byte_at (set_elem a i v) j = byte_at a j.
Proof.
  intros H. unfold byte_at, set_elem.
  destruct (Z.ltb_spec j 0); [reflexivity|].
  destruct (Z.ltb_spec i 0); [reflexivity|].
  apply list_lookup_insert_ne. lia.
Qed.

(** The pixel loop from the cursor [i0]: after [k] pixels the bytes before
    [i0] are as they were and each pixel written holds its grey value three
    times. *)
Lemma bmp_pixels_spec (src : list num) (off : num) (i0 : Z)
    (buf : list Z) (k : nat) :
  0 <= i0 ->
  let r := loop 0 (0 + Z.of_nat k) (bmp_pixel src off) (buf, i0) in
  snd r = i0 + 3 * Z.of_nat k /\
  length (fst r) = length buf /\
  (forall j, j < i0 \/ i0 + 3 * Z.of_nat k <= j ->
     byte_at (fst r) j = byte_at buf j) /\
  (forall j c, 0 <= j < Z.of_nat k -> 0 <= c < 3 ->
     i0 + 3 * j + 2 < Z.of_nat (length buf) ->
     byte_at (fst r) (i0 + 3 * j + c)
     = Some (to_uint8 (get_at src (B64.add off (of_Z j))))).
Proof.
  intros Hi0. induction k as [|k IH].
  - cbn zeta. unfold loop. simpl. repeat split; try reflexivity; lia.
  - cbn zeta in IH |- *. rewrite loop_snoc.
    destruct (loop 0 (0 + Z.of_nat k) (bmp_pixel src off) (buf, i0))
      as [b i].
    cbn [fst snd] in IH. destruct IH as (Ei & El & Hout & Hdone). subst i.
    unfold bmp_pixel. cbn [fst snd].
    split; [lia|]. split; [now rewrite !length_set_elem|]. split.
    + intros j Hj. rewrite !byte_at_set_ne by lia. apply Hout. lia.
    + intros j c Hj Hc Hlen.
      destruct (Z.eq_dec j (Z.of_nat k)) as [-> | Hne].
      * replace (0 + Z.of_nat k) with (Z.of_nat k) by lia.
        assert (C : c = 0 \/ c = 1 \/ c = 2) by lia.
        destruct C as [-> | [-> | ->]].
        -- rewrite !byte_at_set_ne by lia.
           replace (i0 + 3 * Z.of_nat k + 0) with (i0 + 3 * Z.of_nat k)
             by lia.
           apply byte_at_set_eq. lia.
        -- rewrite byte_at_set_ne by lia. apply byte_at_set_eq.
           rewrite length_set_elem. lia.
        -- apply byte_at_set_eq. rewrite !length_set_elem. lia.
      * rewrite !byte_at_set_ne by lia. apply Hdone; lia.
Qed.

Lemma bmp_clear_zeros (n : Z) (m : nat) :
  loop 0 n (fun j buf => set_elem buf j 0) (replicate m 0) = replicate m 0.
Proof.
  apply (loop_preserve (fun b => b = replicate m 0)); [reflexivity|].
  intros i s ->. unfold set_elem. destruct (i <? 0)%Z; [reflexivity|].
  apply list_eq. intros j.
  destruct (decide (Z.to_nat i = j)) as [<- | Hne].
  - destruct (decide (Z.to_nat i < m)%nat).
    + rewrite list_lookup_insert_eq by (rewrite length_replicate; lia).
      symmetry. now apply lookup_replicate_2.
    + rewrite list_insert_ge by (rewrite length_replicate; lia).
      reflexivity.
  - now rewrite list_lookup_insert_ne.
Qed.

(** The file as a whole: the 54 header bytes, then the pixel loop. *)
Lemma saveVolumeSliceToFile_eq {host : Host} (src : list num)
    (xDim yDim zDim : Z) (zSlice : num) :
  0 <= xDim * yDim ->
  allocates (54 + 3 * (xDim * yDim)) 1 = true ->
  saveVolumeSliceToFile src xDim yDim zDim zSlice
  = Ok (fst (loop 0 (xDim * yDim)
               (bmp_pixel src (B64.mul (B64.mul zSlice (of_Z xDim))
                                       (of_Z yDim)))
               (bmp_header_bytes xDim yDim
                ++ replicate (Z.to_nat (xDim * yDim * 3)) 0, 54))).
Proof.
  intros H A. unfold saveVolumeSliceToFile, new_Uint8Array.
  replace (14 + 40 + xDim * yDim * 3) with (54 + 3 * (xDim * yDim)) by lia.
  rewrite A.
  cbn [mbind result_bind bind]. rewrite bmp_clear_zeros.
  replace (Z.to_nat (54 + 3 * (xDim * yDim)))
    with (54 + Z.to_nat (xDim * yDim * 3))%nat by lia.
  rewrite replicate_add, bmp_headers_zeros. reflexivity.
Qed.

Lemma saveVolumeSliceToFile_throws {host : Host} (src : list num)
    (xDim yDim zDim : Z) (zSlice : num) :
  allocates (54 + 3 * (xDim * yDim)) 1 = false ->
  saveVolumeSliceToFile src xDim yDim zDim zSlice = Throw RangeError.
Proof.
  intros A. unfold saveVolumeSliceToFile, new_Uint8Array.
  replace (14 + 40 + xDim * yDim * 3) with (54 + 3 * (xDim * yDim)) by lia.
  now rewrite A.
Qed.

(** A buffer of less than [2^31] bytes is allocated on every host. *)
Lemma allocates_small {host : Host} (n : Z) :
  0 <= n < 2 ^ 31 -> allocates n 1 = true.
Proof.
  intros H. unfold allocates.
  destruct (Z.leb_spec 0 n); [|lia].
  destruct (Z.leb_spec n (2 ^ 53 - 1)); [|lia].
  destruct (Z.ltb_spec (n * 1) (2 ^ 31)); [reflexivity|lia].
Qed.

Lemma le32_prefix (hdr rest buf : list Z) (k : Z) :
  0 <= k -> k + 3 < Z.of_nat (length hdr) ->
  (forall j, j < Z.of_nat (length hdr) ->
     byte_at buf j = byte_at (hdr ++ rest) j) ->
  le32 buf k = le32 hdr k.
Proof.
  intros Hk Hlen Hb. unfold le32.
  assert (E : forall i, 0 <= i < Z.of_nat (length hdr) ->
            buf !! Z.to_nat i = hdr !! Z.to_nat i).
  { intros i Hi. specialize (Hb i ltac:(lia)). unfold byte_at in Hb.
    destruct (Z.ltb_spec i 0); [lia|].
    rewrite Hb. apply lookup_app_l. lia. }
  rewrite !E by lia. reflexivity.
Qed.

Lemma byte_prefix (hdr rest buf : list Z) (k : Z) :
  0 <= k < Z.of_nat (length hdr) ->
  (forall j, j < Z.of_nat (length hdr) ->
     byte_at buf j = byte_at (hdr ++ rest) j) ->
  byte_at buf k = hdr !! Z.to_nat k.
Proof.
  intros Hk Hb. rewrite (Hb k) by lia. unfold byte_at.
  destruct (Z.ltb_spec k 0); [lia|]. apply lookup_app_l. lia.
Qed.

Lemma bmp_header_bytes_length (xDim yDim : Z) :
  length (bmp_header_bytes xDim yDim) = 54%nat.
Proof. reflexivity. Qed.

(** The file is the 54 header bytes followed by three bytes a pixel. *)
Lemma saveVolumeSliceToFile_parts {host : Host} (src : list num)
    (xDim yDim zDim : Z) (zSlice : num) :
  0 <= xDim * yDim ->
  allocates (54 + 3 * (xDim * yDim)) 1 = true ->
  exists buf : list Z,
    saveVolumeSliceToFile src xDim yDim zDim zSlice = Ok buf /\
    Z.of_nat (length buf) = 54 + 3 * (xDim * yDim) /\
    (forall j, j < 54 ->
       byte_at buf j
       = byte_at (bmp_header_bytes xDim yDim
                  ++ replicate (Z.to_nat (xDim * yDim * 3)) 0) j) /\
    (forall j c, 0 <= j < xDim * yDim -> 0 <= c < 3 ->
       byte_at buf (54 + 3 * j + c)
       = Some (to_uint8
                 (get_at src
                    (B64.add (B64.mul (B64.mul zSlice (of_Z xDim))
                                      (of_Z yDim)) (of_Z j))))).
Proof.
  intros H A. rewrite (saveVolumeSliceToFile_eq _ _ _ _ _ H A).
  eexists. split; [reflexivity|].
  pose proof (bmp_pixels_spec src
    (B64.mul (B64.mul zSlice (of_Z xDim)) (of_Z yDim)) 54
    (bmp_header_bytes xDim yDim ++ replicate (Z.to_nat (xDim * yDim * 3)) 0)
    (Z.to_nat (xDim * yDim)) ltac:(lia)) as S.
  cbn zeta in S.
  replace (0 + Z.of_nat (Z.to_nat (xDim * yDim))) with (xDim * yDim) in S
    by lia.
  destruct S as (_ & L & Hout & Hpix).
  assert (Len : Z.of_nat (length (bmp_header_bytes xDim yDim
                  ++ replicate (Z.to_nat (xDim * yDim * 3)) 0))
                = 54 + 3 * (xDim * yDim)).
  { rewrite length_app, bmp_header_bytes_length, length_replicate. lia. }
  split; [now rewrite L|]. split.
  - intros j Hj. apply Hout. lia.
  - intros j c Hj Hc. apply Hpix; lia.
Qed.

(** *** Keys that are integers *)

Lemma int_val_of_Z (n : Z) : int_val (of_Z n) n.
Proof.
  unfold of_Z, of_Q. destruct (Qeq_bool (inject_Z n) 0) eqn:E; cbn.
  - apply Qeq_bool_iff in E. unfold Qeq in E. cbn in E. lia.
  - apply Qred_correct.
Qed.

(** An integer below [2^53] in magnitude is a binary64 number. *)
Lemma round_int (q : Q) (n : Z) :
  (q == inject_Z n)%Q -> Z.abs n < 2 ^ 53 -> int_val (B64.round q) n.
Proof.
  intros E B.
  assert (P53 : (B64.pow2 53 == inject_Z (2 ^ 53))%Q) by (apply pow2_Z; lia).
  pose proof (pow2_lt 53 1024 ltac:(lia)) as Big.
  destruct (Qcompare_spec q 0) as [Z0|N|P].
  - unfold B64.round.
    destruct (Qeq_bool q 0) eqn:Q0.
    + cbn. rewrite Z0 in E. unfold Qeq in E. cbn in E. lia.
    + apply Qeq_bool_neq in Q0. contradiction.
  - rewrite (round_neg q N).
    assert (Hn : n < 0).
    { rewrite E in N. change 0%Q with (inject_Z 0) in N.
      now rewrite <- Zlt_Qlt in N. }
    assert (B' : (- q < B64.pow2 53)%Q).
    { rewrite P53, E, <- inject_Z_opp, <- Zlt_Qlt. lia. }
    rewrite (round_mag_exact_pow true (- q) (- n) 0).
    + cbn. rewrite Qred_correct, <- E. ring.
    + lra.
    + rewrite E, inject_Z_opp. unfold B64.pow2. cbn. ring.
    + exact B'.
    + lia.
    + lra.
  - rewrite (round_pos q P).
    assert (B' : (q < B64.pow2 53)%Q).
    { rewrite P53, E, <- Zlt_Qlt. lia. }
    rewrite (round_mag_exact_pow false q n 0).
    + cbn. rewrite Qred_correct. exact E.
    + exact P.
    + rewrite E. unfold B64.pow2. cbn. ring.
    + exact B'.
    + lia.
    + lra.
Qed.

Lemma int_val_mul (x y : num) (a b : Z) :
  int_val x a -> int_val y b -> Z.abs (a * b) < 2 ^ 53 ->
  int_val (B64.mul x y) (a * b).
Proof.
  intros Hx Hy B.
  destruct x as [|sx|sx|p], y as [|sy|sy|q]; cbn in Hx, Hy |- *;
    try contradiction; try (subst; lia).
  apply round_int; [|exact B]. rewrite Hx, Hy, inject_Z_mult. reflexivity.
Qed.

Lemma int_val_add (x y : num) (a b : Z) :
  int_val x a -> int_val y b -> Z.abs (a + b) < 2 ^ 53 ->
  int_val (B64.add x y) (a + b).
Proof.
  intros Hx Hy B.
  destruct x as [|sx|sx|p], y as [|sy|sy|q]; cbn in Hx, Hy |- *;
    try contradiction; try (subst; lia).
  - subst a. replace (0 + b) with b by lia. exact Hy.
  - subst b. replace (a + 0) with a by lia. exact Hx.
  - apply round_int; [|exact B]. rewrite Hx, Hy, inject_Z_plus. reflexivity.
Qed.

(** A key that is an integer reads the element of that index. *)
Lemma get_at_int (src : list num) (x : num) (n : Z) :
  int_val x n -> get_at src x = get_num src n.
Proof.
  intros H. unfold get_at.
  destruct x as [|s|s|q]; cbn in H |- *; try contradiction.
  - now subst n.
  - assert (F : Qfloor q = n) by (rewrite H; apply Qfloor_Z).
    rewrite F.
    destruct (Qeq_bool (inject_Z n) q) eqn:E; [reflexivity|].
    apply Qeq_bool_neq in E. symmetry in H. contradiction.
Qed.

(** The key of pixel [j] of slice [z], when the products are below
    [2^53]. *)
Lemma bmp_key_int (xDim yDim z j : Z) :
  Z.abs (z * xDim * yDim) + xDim * yDim <= 2 ^ 53 ->
  0 <= j < xDim * yDim ->
  int_val (B64.add (B64.mul (B64.mul (of_Z z) (of_Z xDim)) (of_Z yDim))
                   (of_Z j))
          (z * xDim * yDim + j).
Proof.
  intros B Hj.
  assert (Y : yDim <> 0) by nia.
  assert (ZX : Z.abs (z * xDim) <= Z.abs (z * xDim * yDim)).
  { rewrite (Z.abs_mul (z * xDim) yDim).
    assert (1 <= Z.abs yDim) by lia.
    pose proof (Z.abs_nonneg (z * xDim)). nia. }
  apply int_val_add; [|apply int_val_of_Z|lia].
  apply int_val_mul; [|apply int_val_of_Z|lia].
  apply int_val_mul; [apply int_val_of_Z|apply int_val_of_Z|lia].
Qed.

(** X1: the layout of the file.  For [xDim * yDim] not negative the call
    returns a buffer when the buffer of [54 + 3 * xDim * yDim] bytes is
    allocated (always below [2^31] bytes; above, when the host grants it
    and the length is at most [2^53 - 1]) and throws a RangeError when it
    is not.  The buffer has exactly that length, and pixel [j] of the slice
    occupies the three bytes from [54 + 3 * j], each the grey value read at
    the key [zSlice * xDim * yDim + j] (computed in binary64) and converted
    to a byte: 0 when the key is not the index of an element.  The rows are
    not padded.  For an integer [zSlice = z] with products below [2^53]
    the key is the index [z * xDim * yDim + j]. *)
Theorem saveVolumeSliceToFile_layout {host : Host} (src : list num)
    (xDim yDim zDim : Z) (zSlice : num) :
  0 <= xDim * yDim ->
  let size := 54 + 3 * (xDim * yDim) in
  let granted :=
    size <= 2 ^ 53 - 1 /\ (size < 2 ^ 31 \/ can_allocate size = true) in
  let offSlice := B64.mul (B64.mul zSlice (of_Z xDim)) (of_Z yDim) in
  (granted ->
   exists buf : list Z,
     saveVolumeSliceToFile src xDim yDim zDim zSlice = Ok buf /\
     Z.of_nat (length buf) = size /\
     (forall j c, 0 <= j < xDim * yDim -> 0 <= c < 3 ->
        byte_at buf (54 + 3 * j + c)
        = Some (to_uint8 (get_at src (B64.add offSlice (of_Z j))))) /\
     (forall z, zSlice = of_Z z ->
        Z.abs (z * xDim * yDim) + xDim * yDim <= 2 ^ 53 ->
        forall j c, 0 <= j < xDim * yDim -> 0 <= c < 3 ->
          byte_at buf (54 + 3 * j + c)
          = Some (to_uint8 (get_num src (z * xDim * yDim + j))))) /\
  (~ granted ->
   saveVolumeSliceToFile src xDim yDim zDim zSlice = Throw RangeError).
Proof.
  intros H size granted offSlice.
  assert (G : allocates size 1 = true <-> granted).
  { rewrite allocates_spec. unfold granted. rewrite Z.mul_1_r.
    subst size. intuition lia. }
  split.
  - intros Hg. apply G in Hg.
    destruct (saveVolumeSliceToFile_parts src xDim yDim zDim zSlice H Hg)
      as (buf & E & L & _ & P).
    exists buf. split; [exact E|]. split; [exact L|]. split; [exact P|].
    intros z -> B j c Hj Hc. rewrite (P j c Hj Hc).
    now rewrite (get_at_int src _ _ (bmp_key_int xDim yDim z j B Hj)).
  - intros Hg. apply saveVolumeSliceToFile_throws.
    apply not_true_is_false. intros A. apply Hg, G, A.
Qed.

Lemma saveVolumeSliceToFile_layout_witness :
  0 <= 3 * 2 /\
  (exists buf : list Z,
     saveVolumeSliceToFile (host := small_host)
       [1%num; 2%num; of_Q 300.7; neg 1; NaN; 7%num] 3 2 1 0%num = Ok buf /\
     Z.of_nat (length buf) = 54 + 3 * (3 * 2) /\
     byte_at buf (54 + 3 * 2 + 0) = Some 44) /\
  (exists buf : list Z,
     saveVolumeSliceToFile (host := small_host)
       [1%num; 2%num; 3%num] 1 1 3 (of_Q 1.5) = Ok buf /\
     byte_at buf (54 + 3 * 0 + 0) = Some 0) /\
  saveVolumeSliceToFile (host := small_host) [] 32768 32768 1 0%num
  = Throw RangeError.
Proof.
  split; [lia|]. split; [|split].
  - destruct (saveVolumeSliceToFile_layout (host := small_host)
                [1%num; 2%num; of_Q 300.7; neg 1; NaN; 7%num] 3 2 1 0%num
                ltac:(lia)) as [S _].
    destruct S as (buf & E & L & _ & P); [cbn; lia|].
    exists buf. split; [exact E|]. split; [exact L|].
    rewrite (P 0 eq_refl ltac:(cbn; lia) 2 0) by lia. reflexivity.
  - destruct (saveVolumeSliceToFile_layout (host := small_host)
                [1%num; 2%num; 3%num] 1 1 3 (of_Q 1.5) ltac:(lia))
      as [S _].
    destruct S as (buf & E & _ & P & _); [cbn; lia|].
    exists buf. split; [exact E|].
    rewrite (P 0 0) by lia. vm_compute. reflexivity.
  - apply (saveVolumeSliceToFile_layout (host := small_host)
             [] 32768 32768 1 0%num ltac:(lia)).
    cbn. intros [_ [L|F]]; [lia|discriminate F].
Defined.

(** X2: the headers read back.  For dimensions and a declared size below
    2^31, the file starts with "BM" and its 32-bit fields, read least
    significant byte first, are: the declared size [54 + stride * yDim], the
    offset 54 of the pixels, the size 40 of the info header, the width
    [xDim], the height [yDim], one plane of 24 bits, the image size
    [stride * yDim]; the reserved and unused fields are 0. *)
Theorem saveVolumeSliceToFile_header {host : Host} (src : list num)
    (xDim yDim zDim : Z) (zSlice : num) :
  0 <= xDim -> 3 * xDim + 3 < 2 ^ 31 -> 0 <= yDim < 2 ^ 31 ->
  54 + bmp_pixStride xDim * yDim < 2 ^ 31 ->
  exists buf : list Z,
    saveVolumeSliceToFile src xDim yDim zDim zSlice = Ok buf /\
    byte_at buf 0 = Some 66 /\ byte_at buf 1 = Some 77 /\
    le32 buf 2 = 54 + bmp_pixStride xDim * yDim /\
    le32 buf 6 = 0 /\
    le32 buf 10 = 54 /\
    le32 buf 14 = 40 /\
    le32 buf 18 = xDim /\
    le32 buf 22 = yDim /\
    byte_at buf 26 = Some 1 /\ byte_at buf 27 = Some 0 /\
    byte_at buf 28 = Some 24 /\ byte_at buf 29 = Some 0 /\
    le32 buf 30 = 0 /\
    le32 buf 34 = bmp_pixStride xDim * yDim /\
    le32 buf 38 = 0 /\ le32 buf 42 = 0 /\ le32 buf 46 = 0 /\
    le32 buf 50 = 0.
Proof.
  intros Hx Hx3 Hy Hs.
  assert (Hs0 : 0 <= bmp_pixStride xDim * yDim).
  { rewrite bmp_pixStride_spec by lia.
    assert (0 <= (3 * xDim + 3) / 4) by (apply Z.div_pos; lia). nia. }
  assert (Sr : 3 * xDim <= bmp_pixStride xDim).
  { rewrite bmp_pixStride_spec by lia.
    pose proof (Z.div_mod (3 * xDim + 3) 4 ltac:(lia)).
    pose proof (Z.mod_pos_bound (3 * xDim + 3) 4 ltac:(lia)). lia. }
  destruct (saveVolumeSliceToFile_parts src xDim yDim zDim zSlice)
    as (buf & E & L & Hh & _); [nia|apply allocates_small; nia|].
  exists buf. split; [exact E|].
  set (hdr := bmp_header_bytes xDim yDim) in *.
  set (rest := replicate (Z.to_nat (xDim * yDim * 3)) 0) in *.
  assert (B : forall k, 0 <= k < 54 -> byte_at buf k = hdr !! Z.to_nat k).
  { intros k Hk. now apply (byte_prefix hdr rest). }
  assert (W : forall k, 0 <= k -> k + 3 < 54 -> le32 buf k = le32 hdr k).
  { intros k H0 H3. now apply (le32_prefix hdr rest). }
  rewrite !B by lia. rewrite !W by lia.
  pose proof (dword_bytes (14 + 40 + bmp_pixStride xDim * yDim)
                ltac:(lia)) as D1.
  pose proof (dword_bytes (14 + 40) ltac:(lia)) as D2.
  pose proof (dword_bytes 40 ltac:(lia)) as D3.
  pose proof (dword_bytes xDim ltac:(lia)) as D4.
  pose proof (dword_bytes yDim ltac:(lia)) as D5.
  pose proof (dword_bytes (bmp_pixStride xDim * yDim) ltac:(lia)) as D6.
  cbn zeta in D1, D2, D3, D4, D5, D6.
  repeat split; try reflexivity;
    first [exact D1 | exact D2 | exact D3 | exact D4 | exact D5 | exact D6].
Qed.

Lemma saveVolumeSliceToFile_header_witness :
  (0 <= 3 /\ 3 * 3 + 3 < 2 ^ 31 /\ 0 <= 2 < 2 ^ 31 /\
   54 + bmp_pixStride 3 * 2 < 2 ^ 31) /\
  exists buf : list Z,
    saveVolumeSliceToFile (host := small_host)
      [1%num; 2%num; of_Q 300.7; neg 1; NaN; 7%num] 3 2 1 0%num = Ok buf /\
    le32 buf 2 = 78 /\ le32 buf 18 = 3 /\ le32 buf 22 = 2.
Proof.
  assert (H : 0 <= 3 /\ 3 * 3 + 3 < 2 ^ 31 /\ 0 <= 2 < 2 ^ 31 /\
              54 + bmp_pixStride 3 * 2 < 2 ^ 31).
  { repeat split; try lia; try (vm_compute; reflexivity). }
  split; [exact H|]. destruct H as (H1 & H2 & H3 & H4).
  destruct (saveVolumeSliceToFile_header (host := small_host)
              [1%num; 2%num; of_Q 300.7; neg 1; NaN; 7%num] 3 2 1 0%num
              H1 H2 H3 H4)
    as (buf & E & _ & _ & S & _ & _ & _ & W & Hh & _).
  exists buf. repeat split; assumption.
Defined.

(** X3: the rows are declared padded and written unpadded.  The row length
    [stride] used for the declared sizes is [3 * xDim] rounded up to a
    multiple of four, while the pixels are written three bytes each with no
    padding: the size the header declares exceeds the length of the file by
    [(stride - 3 * xDim) * yDim] bytes. *)
Theorem saveVolumeSliceToFile_declared_size {host : Host}
    (src : list num) (xDim yDim zDim : Z) (zSlice : num) :
  0 <= xDim -> 3 * xDim + 3 < 2 ^ 31 -> 0 <= yDim < 2 ^ 31 ->
  54 + bmp_pixStride xDim * yDim < 2 ^ 31 ->
  bmp_pixStride xDim mod 4 = 0 /\
  3 * xDim <= bmp_pixStride xDim < 3 * xDim + 4 /\
  exists buf : list Z,
    saveVolumeSliceToFile src xDim yDim zDim zSlice = Ok buf /\
    le32 buf 2
    = Z.of_nat (length buf) + (bmp_pixStride xDim - 3 * xDim) * yDim.
Proof.
  intros Hx Hx3 Hy Hs.
  pose proof (bmp_pixStride_spec xDim Hx Hx3) as St.
  assert (Sm : bmp_pixStride xDim mod 4 = 0).
  { rewrite St, Z.mul_comm. apply Z.mod_mul. lia. }
  assert (Sr : 3 * xDim <= bmp_pixStride xDim < 3 * xDim + 4).
  { rewrite St. pose proof (Z.div_mod (3 * xDim + 3) 4 ltac:(lia)).
    pose proof (Z.mod_pos_bound (3 * xDim + 3) 4 ltac:(lia)). lia. }
  split; [exact Sm|]. split; [exact Sr|].
  destruct (saveVolumeSliceToFile_parts src xDim yDim zDim zSlice)
    as (buf & E & L & Hh & _); [nia|apply allocates_small; nia|].
  exists buf. split; [exact E|].
  rewrite (le32_prefix (bmp_header_bytes xDim yDim)
             (replicate (Z.to_nat (xDim * yDim * 3)) 0) buf 2)
    by (try exact Hh; rewrite ?bmp_header_bytes_length; lia).
  pose proof (dword_bytes (14 + 40 + bmp_pixStride xDim * yDim)
                ltac:(nia)) as D1.
  cbn zeta in D1.
  transitivity (14 + 40 + bmp_pixStride xDim * yDim); [exact D1|]. lia.
Qed.

Lemma saveVolumeSliceToFile_declared_size_witness :
  (0 <= 3 /\ 3 * 3 + 3 < 2 ^ 31 /\ 0 <= 2 < 2 ^ 31 /\
   54 + bmp_pixStride 3 * 2 < 2 ^ 31) /\
  bmp_pixStride 3 = 12 /\
  exists buf : list Z,
    saveVolumeSliceToFile (host := small_host)
      [1%num; 2%num; of_Q 300.7; neg 1; NaN; 7%num] 3 2 1 0%num = Ok buf /\
    le32 buf 2 = Z.of_nat (length buf) + (bmp_pixStride 3 - 3 * 3) * 2.
Proof.
  assert (H : 0 <= 3 /\ 3 * 3 + 3 < 2 ^ 31 /\ 0 <= 2 < 2 ^ 31 /\
              54 + bmp_pixStride 3 * 2 < 2 ^ 31).
  { repeat split; try lia; try (vm_compute; reflexivity). }
  split; [exact H|]. destruct H as (H1 & H2 & H3 & H4).
  split; [reflexivity|].
  exact (proj2 (proj2 (saveVolumeSliceToFile_declared_size
           (host := small_host)
           [1%num; 2%num; of_Q 300.7; neg 1; NaN; 7%num] 3 2 1 0%num
           H1 H2 H3 H4))).
Defined.

(** ** The step function: what a call can and cannot do *)

Section StepOrder.

Variable Math_exp : num -> num.
Variable Math_pow : num -> num -> num.
Variable createNormalsForGeometry : GeoRender -> Z * GeoRender.
Context {host : Host}.

Lemma updateGeo_inv (this this' : ActiveVolume) (geo geo' : GeoRender)
    (method r : Z) :
  updateGeo Math_exp Math_pow createNormalsForGeometry this geo method
  = Ok (r, this', geo') ->
  exists s, updateGeo_work Math_exp Math_pow createNormalsForGeometry
              this geo method = Ok (r, s) /\
            st_this s = this' /\ st_geo s = geo'.
Proof.
  unfold updateGeo. intros E. apply bind_Ok in E.
  destruct E as ([r0 s] & E1 & E). injection E as -> <- <-.
  now exists s.
Qed.

(** X4: the states are passed in their order and FINISHED is never
    entered.  A call of [updateGeo] that returns leaves the state where it
    was or moves it to the next one, and the state after the call is
    FINISHED only if it was before: [updateGeoNormalsUniformityColors]
    returns nothing, so the assignment of FINISHED is never reached. *)
Theorem updateGeo_state_order (this this' : ActiveVolume)
    (geo geo' : GeoRender) (method r : Z) :
  updateGeo Math_exp Math_pow createNormalsForGeometry this geo method
  = Ok (r, this', geo') ->
  (m_state this' = AV_STATE_FINISHED -> m_state this = AV_STATE_FINISHED) /\
  state_code (m_state this) <= state_code (m_state this')
    <= state_code (m_state this) + 1.
Proof.
  intros E. apply updateGeo_inv in E. destruct E as (s & E & <- & _).
  apply updateGeo_work_cases in E. cbn zeta in E.
  destruct (m_state this); cbn [state_code].
  - destruct E as (_ & ->). cbn. split; [discriminate|lia].
  - destruct E as [(_ & ->)|(zs & ze & _ & ->)]; cbn;
      (split; [discriminate|lia]).
  - destruct E as (zs & ze & [(_ & ->)|(_ & ->)]); cbn;
      (split; [discriminate|lia]).
  - destruct E as [(_ & ->)|(_ & ->)]; cbn; (split; [discriminate|lia]).
  - destruct E as (_ & ->). cbn. split; [discriminate|lia].
  - destruct E as (_ & ->). cbn. split; [reflexivity|lia].
Qed.

(** X5: a failure of the normals is returned before any work.  In
    NOT_STARTED, when [geo.createNormalsForGeometry()] returns a status
    other than 1, [updateGeo] returns that status and the engine is as it
    was (the state stays NOT_STARTED, no buffer is touched). *)
Theorem updateGeo_normals_failure (this : ActiveVolume)
    (geo geo' : GeoRender) (method r : Z) :
  m_state this = AV_STATE_NOT_STARTED ->
  createNormalsForGeometry geo = (r, geo') -> r <> 1 ->
  updateGeo Math_exp Math_pow createNormalsForGeometry this geo method
  = Ok (r, this, geo').
Proof.
  intros S0 N R. unfold updateGeo, updateGeo_work, stepNotStarted.
  cbn [st_this st_geo st_work]. rewrite S0. cbn [State_eqb state_code Z.eqb].
  rewrite N. destruct (Z.eqb_spec r 1); [contradiction|]. reflexivity.
Qed.

End StepOrder.

Lemma updateGeo_state_order_witness :
  exists (r : Z) (this' : ActiveVolume) (geo' : GeoRender),
    updateGeo (host := small_host) exp_one pow_id normals_done last_uniformity_step one_vertex
      AV_METHOD_ALL = Ok (r, this', geo') /\
    state_code (m_state last_uniformity_step) <= state_code (m_state this')
      <= state_code (m_state last_uniformity_step) + 1.
Proof.
  destruct (updateGeo (host := small_host) exp_one pow_id normals_done last_uniformity_step
              one_vertex AV_METHOD_ALL) as [[[r this'] geo']|e] eqn:E.
  - exists r, this', geo'. split; [reflexivity|].
    exact (proj2 (updateGeo_state_order (host := small_host) exp_one pow_id normals_done
                    last_uniformity_step this' one_vertex geo'
                    AV_METHOD_ALL r E)).
  - exfalso. vm_compute in E. discriminate E.
Defined.

Lemma updateGeo_normals_failure_witness :
  (m_state created222 = AV_STATE_NOT_STARTED /\
   normals_fail one_vertex = (-2, one_vertex) /\ -2 <> 1) /\
  updateGeo (host := small_host) exp_one pow_id normals_fail created222 one_vertex AV_METHOD_ALL
  = Ok (-2, created222, one_vertex).
Proof.
  assert (H : m_state created222 = AV_STATE_NOT_STARTED /\
              normals_fail one_vertex = (-2, one_vertex) /\ -2 <> 1).
  { repeat split. lia. }
  split; [exact H|]. destruct H as (H1 & H2 & H3).
  exact (updateGeo_normals_failure (host := small_host) exp_one pow_id normals_fail created222
           one_vertex one_vertex AV_METHOD_ALL (-2) H1 H2 H3).
Defined.

(** ** The relaxation pass *)

Section Relax.

Variable Math_exp : num -> num.
Variable Math_pow : num -> num -> num.
Variable createNormalsForGeometry : GeoRender -> Z * GeoRender.
Context {host : Host}.

(** In UpdateGeo only the last block of [updateGeo] runs. *)
Lemma updateGeo_in_UPDATE_GEO (this : ActiveVolume) (geo : GeoRender)
    (method : Z) :
  m_state this = AV_STATE_UPDATE_GEO ->
  updateGeo Math_exp Math_pow createNormalsForGeometry this geo method
  = (s ← stepUpdateGeo method (mkStep this geo []);
     Ok (1, st_this s, st_geo s)).
Proof.
  intros S0. unfold updateGeo, updateGeo_work, stepNotStarted,
    stepPrepareGauss, stepPrepareUniformity.
  repeat progress
    (cbn [st_this st_geo st_work mbind result_bind bind]; rewrite ?S0;
     cbn [State_eqb state_code Z.eqb Pos.eqb]).
  destruct (stepUpdateGeo method (mkStep this geo [])); reflexivity.
Qed.

(** The relaxation block on an engine in UpdateGeo. *)
Lemma stepUpdateGeo_inv (this : ActiveVolume) (geo : GeoRender)
    (method : Z) (s : Step) :
  m_state this = AV_STATE_UPDATE_GEO ->
  stepUpdateGeo method (mkStep this geo []) = Ok s ->
  st_geo s = geo /\
  exists v : list num,
    (m_verticesNew this = Some v \/
     m_verticesNew this = None /\
     allocates (geo_numVertices geo * 4) 4 = true /\
     v = replicate (Z.to_nat (geo_numVertices geo * 4)) 0%num) /\
    st_this s = set_m_geoStage (m_geoStage this + 1)
                  (set_m_verticesNew (Some v) this).
Proof.
  intros S0 E. unfold stepUpdateGeo in E. cbn [st_this st_geo st_work] in E.
  rewrite S0 in E. cbn [State_eqb state_code Z.eqb] in E.
  apply bind_Ok in E. destruct E as (t & E1 & E).
  apply bind_Ok in E. destruct E as (_ & _ & E).
  apply bind_Ok in E. destruct E as (_ & _ & E).
  apply bind_Ok in E. destruct E as (t' & E2 & E).
  injection E as <-. cbn [st_this st_geo]. split; [reflexivity|].
  assert (T' : t' = t).
  { destruct (_ && _) in E2.
    - apply bind_Ok in E2. destruct E2 as (fin & F & E2).
      unfold updateGeoNormalsUniformityColors in F.
      destruct (geo_normals geo); [discriminate F|].
      injection F as <-. now injection E2 as <-.
    - now injection E2 as <-. }
  subst t'.
  destruct (m_verticesNew this) as [v|] eqn:V.
  - injection E1 as <-. exists v. split; [now left|].
    destruct this; cbn in V |- *. now subst.
  - apply bind_Ok in E1. destruct E1 as (v & A & E1). injection E1 as <-.
    unfold new_Float32Array in A.
    destruct (allocates (geo_numVertices geo * 4) 4) eqn:Al;
      [|discriminate A].
    injection A as <-. eexists.
    split; [right; split; [reflexivity|split; reflexivity]|].
    reflexivity.
Qed.

(** X6: a relaxation pass moves nothing.  A call of [updateGeo] in
    UpdateGeo that returns, returns 1 and leaves the geometry as it was:
    the engine allocates [m_verticesNew] (four zeros a vertex) when it is
    still null and advances [m_geoStage] by one, and nothing else of the
    engine changes; the state stays UpdateGeo. *)
Theorem updateGeo_relax_keeps_geometry (this this' : ActiveVolume)
    (geo geo' : GeoRender) (method r : Z) :
  m_state this = AV_STATE_UPDATE_GEO ->
  updateGeo Math_exp Math_pow createNormalsForGeometry this geo method
  = Ok (r, this', geo') ->
  r = 1 /\ geo' = geo /\
  exists v : list num,
    (m_verticesNew this = Some v \/
     m_verticesNew this = None /\
     v = replicate (Z.to_nat (geo_numVertices geo * 4)) 0%num) /\
    this' = set_m_geoStage (m_geoStage this + 1)
              (set_m_verticesNew (Some v) this).
Proof.
  intros S0 E. rewrite updateGeo_in_UPDATE_GEO in E by exact S0.
  apply bind_Ok in E. destruct E as (s & E1 & E).
  injection E as <- <- <-.
  destruct (stepUpdateGeo_inv this geo method s S0 E1)
    as (G & v & Hv & T).
  split; [reflexivity|]. split; [exact G|].
  exists v. split; [|exact T].
  destruct Hv as [Hv|(Hn & _ & Hv)]; [now left|now right].
Qed.

(** X7: a method without all three bits calls a function the class does
    not define.  In UpdateGeo, with [m_verticesNew] allocated or its
    allocation granted, a [method] that has the normals bit but lacks the
    uniformity bit or the colour bit makes [updateGeo] throw a TypeError;
    so does the full method on a geometry without normals. *)
Theorem updateGeo_partial_method_throws (this : ActiveVolume)
    (geo : GeoRender) (method : Z) :
  m_state this = AV_STATE_UPDATE_GEO ->
  is_Some (m_verticesNew this) \/
  allocates (geo_numVertices geo * 4) 4 = true ->
  Z.land method AV_METHOD_NORMALS <> 0 ->
  Z.land method AV_METHOD_UNIFORMITY = 0 \/
  Z.land method AV_METHOD_COLOR_KOEFS = 0 \/
  geo_normals geo = [] ->
  updateGeo Math_exp Math_pow createNormalsForGeometry this geo method
  = Throw TypeError.
Proof.
  intros S0 V N H. rewrite updateGeo_in_UPDATE_GEO by exact S0.
  unfold stepUpdateGeo. cbn [st_this st_geo st_work]. rewrite S0.
  cbn [State_eqb state_code Z.eqb].
  assert (A : exists t,
    match m_verticesNew this with
    | Some _ => Ok this
    | None => v ← new_Float32Array (geo_numVertices geo * 4);
              Ok (set_m_verticesNew (Some v) this)
    end = Ok t).
  { destruct (m_verticesNew this) as [v|] eqn:Ev; [now eexists|].
    destruct V as [[v V]|V]; [discriminate V|].
    unfold new_Float32Array. rewrite V. now eexists. }
  destruct A as (t & ->). cbn [mbind result_bind bind].
  destruct (Z.eqb_spec (Z.land method AV_METHOD_NORMALS) 0) as [|_];
    [contradiction|].
  cbn [negb andb].
  destruct (Z.eqb_spec (Z.land method AV_METHOD_UNIFORMITY) 0) as [U|U];
    cbn [negb andb]; [reflexivity|].
  destruct (Z.eqb_spec (Z.land method AV_METHOD_COLOR_KOEFS) 0) as [C|C];
    cbn [negb andb]; [reflexivity|].
  destruct H as [H|[H|H]]; [contradiction|contradiction|].
  unfold updateGeoNormalsUniformityColors. rewrite H. reflexivity.
Qed.

End Relax.

Lemma updateGeo_relax_keeps_geometry_witness :
  exists (r : Z) (this' : ActiveVolume) (geo' : GeoRender),
    (m_state relaxing = AV_STATE_UPDATE_GEO /\
     updateGeo (host := small_host) exp_one pow_id normals_done relaxing one_vertex
       AV_METHOD_ALL = Ok (r, this', geo')) /\
    r = 1 /\ geo' = one_vertex.
Proof.
  destruct (updateGeo (host := small_host) exp_one pow_id normals_done relaxing one_vertex
              AV_METHOD_ALL) as [[[r this'] geo']|e] eqn:E.
  - exists r, this', geo'. split; [now split|].
    destruct (updateGeo_relax_keeps_geometry (host := small_host) exp_one pow_id normals_done
                relaxing this' one_vertex geo' AV_METHOD_ALL r eq_refl E)
      as (R & G & _).
    now split.
  - exfalso. vm_compute in E. discriminate E.
Defined.

Lemma updateGeo_partial_method_throws_witness :
  (m_state relaxing = AV_STATE_UPDATE_GEO /\
   (is_Some (m_verticesNew relaxing) \/
    allocates (host := small_host) (geo_numVertices one_vertex * 4) 4
    = true) /\
   Z.land 3 AV_METHOD_NORMALS <> 0 /\
   (Z.land 3 AV_METHOD_UNIFORMITY = 0 \/
    Z.land 3 AV_METHOD_COLOR_KOEFS = 0 \/
    geo_normals one_vertex = [])) /\
  updateGeo (host := small_host) exp_one pow_id normals_done relaxing one_vertex 3
  = Throw TypeError.
Proof.
  assert (H : m_state relaxing = AV_STATE_UPDATE_GEO /\
   (is_Some (m_verticesNew relaxing) \/
    allocates (host := small_host) (geo_numVertices one_vertex * 4) 4
    = true) /\
   Z.land 3 AV_METHOD_NORMALS <> 0 /\
   (Z.land 3 AV_METHOD_UNIFORMITY = 0 \/
    Z.land 3 AV_METHOD_COLOR_KOEFS = 0 \/
    geo_normals one_vertex = [])).
  { split; [reflexivity|]. split; [right; vm_compute; reflexivity|].
    split; [vm_compute; discriminate|]. right. left. reflexivity. }
  split; [exact H|]. destruct H as (H1 & H2 & H3 & H4).
  exact (updateGeo_partial_method_throws (host := small_host) exp_one pow_id normals_done
           relaxing one_vertex 3 H1 H2 H3 H4).
Defined.

(** ** startImageSmooth *)

(** A loop that stores [f i] at every index [i] of an array. *)
Lemma loop_tabulate_prefix {A : Type} (f : Z -> A) (a : list A) (k : nat) :
  (k <= length a)%nat ->
  loop 0 (0 + Z.of_nat k) (fun i a => set_elem a i (f i)) a
  = (f <$> seqZ 0 (Z.of_nat k)) ++ drop k a.
Proof.
  induction k as [|k IH]; intros Hk.
  - unfold loop. simpl. now rewrite drop_0.
  - rewrite loop_snoc, IH by lia.
    destruct (lookup_lt_is_Some_2 a k ltac:(lia)) as [x Hx].
    rewrite (drop_S a x k Hx), seqZ_S, fmap_app.
    unfold set_elem. destruct (Z.ltb_spec (0 + Z.of_nat k) 0); [lia|].
    replace (Z.to_nat (0 + Z.of_nat k))
      with (length (f <$> seqZ 0 (Z.of_nat k)) + 0)%nat
      by (rewrite length_fmap, length_seqZ; lia).
    rewrite insert_app_r. cbn [fmap list_fmap insert list_insert app].
    now rewrite <- app_assoc.
Qed.

Lemma loop_tabulate {A : Type} (f : Z -> A) (a : list A) (n : Z) :
  0 <= n -> length a = Z.to_nat n ->
  loop 0 n (fun i a => set_elem a i (f i)) a = f <$> seqZ 0 n.
Proof.
  intros Hn Hl.
  replace n with (0 + Z.of_nat (Z.to_nat n)) at 1 by lia.
  rewrite loop_tabulate_prefix by lia.
  rewrite drop_ge by lia. rewrite app_nil_r. now rewrite Z2Nat.id.
Qed.

Lemma loop_fill {A : Type} (v : A) (a : list A) (n : Z) :
  0 <= n -> length a = Z.to_nat n ->
  loop 0 n (fun i a => set_elem a i v) a = replicate (Z.to_nat n) v.
Proof.
  intros Hn Hl. rewrite (loop_tabulate (fun _ => v)) by assumption.
  rewrite const_fmap with (y := v) by reflexivity.
  now rewrite length_seqZ.
Qed.

(** The first loop of [startImageSmooth], after [k] iterations. *)
Lemma startImageSmooth_clear (this : ActiveVolume) (g u : list num)
    (k : nat) :
  m_imageGauss this = Some g -> m_imageUniformity this = Some u ->
  for_range 0 (0 + Z.of_nat k) (fun i this =>
    g ← deref (m_imageGauss this);
    let this := set_m_imageGauss (Some (set_elem g i 0%num)) this in
    u ← deref (m_imageUniformity this);
    Ok (set_m_imageUniformity (Some (set_elem u i 0%num)) this)) this
  = Ok (set_m_imageUniformity
          (Some (loop 0 (0 + Z.of_nat k)
                   (fun i a => set_elem a i 0%num) u))
          (set_m_imageGauss
             (Some (loop 0 (0 + Z.of_nat k)
                      (fun i a => set_elem a i 0%num) g)) this)).
Proof.
  intros G U. induction k as [|k IH].
  - rewrite for_range_empty by lia. unfold loop. simpl.
    destruct this; cbn in G, U |- *. now subst.
  - rewrite for_range_snoc, IH, !loop_snoc. reflexivity.
Qed.

(** The second loop, after [k] iterations. *)
Lemma startImageSmooth_copy (this : ActiveVolume) (src s gr : list num)
    (k : nat) :
  m_pixelsSrc this = Some src -> m_imageSrc this = Some s ->
  m_imageGrad this = Some gr ->
  for_range 0 (0 + Z.of_nat k) (fun i this =>
    gr ← deref (m_imageGrad this);
    let this := set_m_imageGrad (Some (set_elem gr i 0%num)) this in
    src ← deref (m_pixelsSrc this);
    let val := get_num src i in
    s ← deref (m_imageSrc this);
    Ok (set_m_imageSrc (Some (set_elem s i val)) this)) this
  = Ok (set_m_imageSrc
          (Some (loop 0 (0 + Z.of_nat k)
                   (fun i a => set_elem a i (get_num src i)) s))
          (set_m_imageGrad
             (Some (loop 0 (0 + Z.of_nat k)
                      (fun i a => set_elem a i 0%num) gr)) this)).
Proof.
  intros P S G. induction k as [|k IH].
  - rewrite for_range_empty by lia. unfold loop. simpl.
    destruct this; cbn in P, S, G |- *. now subst.
  - rewrite for_range_snoc, IH, !loop_snoc.
    cbn [mbind result_bind bind deref m_imageGrad set_m_imageSrc
         set_m_imageGrad m_pixelsSrc m_imageSrc].
    rewrite P. reflexivity.
Qed.

(** X8: what [startImageSmooth] leaves.  On an engine whose two image
    buffers have the [numPixels = xDim * yDim * zDim] elements [create]
    gave them, whose source holds binary32 numbers (the bytes of a
    [Uint8Array] are; a store into a [Float32Array] leaves them as they
    are) and to which two more buffers of that length are granted, the call
    returns 1; [m_imageGauss], [m_imageUniformity] and the new
    [m_imageGrad] hold [numPixels] zeros, and the new [m_imageSrc] is the
    copy of the first [numPixels] voxels of the source, NaN where the
    source is shorter.  Nothing else changes. *)
Theorem startImageSmooth_spec {host : Host} (this : ActiveVolume)
    (src g u : list num) :
  let numPixels := m_xDim this * m_yDim this * m_zDim this in
  let zeros := replicate (Z.to_nat numPixels) 0%num in
  m_pixelsSrc this = Some src -> Forall binary32 src ->
  m_imageGauss this = Some g -> m_imageUniformity this = Some u ->
  0 <= numPixels -> allocates numPixels 4 = true ->
  length g = Z.to_nat numPixels -> length u = Z.to_nat numPixels ->
  startImageSmooth this
  = Ok (1, set_m_imageSrc (Some (get_num src <$> seqZ 0 numPixels))
             (set_m_imageGrad (Some zeros)
                (set_m_imageUniformity (Some zeros)
                   (set_m_imageGauss (Some zeros) this)))).
Proof.
  intros n zeros P _ G U Hn Al Lg Lu. unfold startImageSmooth. fold n.
  replace n with (0 + Z.of_nat (Z.to_nat n)) at 1 by lia.
  rewrite (startImageSmooth_clear this g u _ G U).
  cbn [mbind result_bind bind].
  replace (0 + Z.of_nat (Z.to_nat n)) with n by lia.
  rewrite !loop_fill by assumption. fold zeros.
  unfold new_Float32Array. rewrite Al.
  cbn [mbind result_bind bind]. fold zeros.
  replace n with (0 + Z.of_nat (Z.to_nat n)) at 1 by lia.
  rewrite (startImageSmooth_copy _ src zeros zeros);
    [|destruct this; exact P|reflexivity|reflexivity].
  cbn [mbind result_bind bind].
  replace (0 + Z.of_nat (Z.to_nat n)) with n by lia.
  rewrite loop_fill by (try assumption; apply length_replicate).
  rewrite loop_tabulate by (try assumption; apply length_replicate).
  fold zeros. destruct this; reflexivity.
Qed.

Lemma startImageSmooth_spec_witness :
  (m_pixelsSrc created222 = Some (replicate 8 1%num) /\
   Forall binary32 (replicate 8 1%num) /\
   m_imageGauss created222 = Some (replicate 8 0%num) /\
   m_imageUniformity created222 = Some (replicate 8 0%num) /\
   0 <= m_xDim created222 * m_yDim created222 * m_zDim created222 /\
   allocates (host := small_host)
     (m_xDim created222 * m_yDim created222 * m_zDim created222) 4 = true /\
   length (replicate 8 0%num)
   = Z.to_nat (m_xDim created222 * m_yDim created222 * m_zDim created222)) /\
  exists this',
    startImageSmooth (host := small_host) created222 = Ok (1, this') /\
    m_imageSrc this' = Some (replicate 8 1%num).
Proof.
  assert (B : Forall binary32 (replicate 8 1%num)).
  { apply Forall_replicate. exists 1, 0. repeat split; lia. }
  assert (H : m_pixelsSrc created222 = Some (replicate 8 1%num) /\
   m_imageGauss created222 = Some (replicate 8 0%num) /\
   m_imageUniformity created222 = Some (replicate 8 0%num) /\
   0 <= m_xDim created222 * m_yDim created222 * m_zDim created222 /\
   allocates (host := small_host)
     (m_xDim created222 * m_yDim created222 * m_zDim created222) 4 = true /\
   length (replicate 8 0%num)
   = Z.to_nat (m_xDim created222 * m_yDim created222 * m_zDim created222)).
  { repeat split. vm_compute. discriminate. }
  destruct H as (H1 & H2 & H3 & H4 & H5 & H6).
  split; [repeat split; assumption|].
  eexists. split.
  - exact (startImageSmooth_spec (host := small_host) created222 _ _ _
             H1 B H2 H3 H4 H5 H6 H6).
  - reflexivity.
Defined.

(** ** The blocks of a call return *)

Lemma is_Some_imageGauss_histogram (v : list Z) (t : ActiveVolume) :
  is_Some (m_imageGauss t) -> is_Some (m_imageGauss (set_m_histogram v t)).
Proof. now destruct t. Qed.

Lemma scan_ok (step : Q) (cond : Q -> result bool) (x : Q) (n : nat) :
  (forall x, exists b, cond x = Ok b) ->
  exists x', scan step cond x n = Ok x'.
Proof.
  intros H. revert x. induction n as [|n IH]; intros x; [now eexists|].
  cbn [scan]. destruct (H x) as [b ->]. cbn [mbind result_bind bind].
  destruct b; [now eexists|apply IH].
Qed.

Lemma histFull_ok (this : ActiveVolume) :
  is_Some (m_imageGauss this) -> exists this', histFull this = Ok this'.
Proof.
  intros G. unfold histFull.
  edestruct (for_range_inv (fun t => is_Some (m_imageGauss t)))
    as (t & -> & _); [| |now eexists].
  - now apply is_Some_imageGauss_histogram.
  - intros i t [g Hg]. rewrite Hg. cbn [deref mbind result_bind bind].
    eexists. split; [reflexivity|].
    apply is_Some_imageGauss_histogram. rewrite Hg. now eexists.
Qed.

Lemma getBlack_ok (this : ActiveVolume) :
  is_Some (m_imageGauss this) -> exists c, getBlack this = Ok c.
Proof.
  intros [g Hg]. unfold getBlack, for_Q.
  edestruct (for_each_inv (A:=Q) (fun _ : num * Z => True))
    as ([c n] & -> & _); [exact I| |now eexists].
  intros z s _. apply (for_each_inv (A:=Q)); [exact I|].
  intros y s1 _.
  edestruct (for_each_inv (A:=Q) (fun _ : num * Z => True))
    as (s2 & -> & _); [exact I| |].
  - intros x [c n] _. rewrite Hg. now eexists.
  - cbn [mbind result_bind bind].
    apply (for_each_inv (A:=Q)); [exact I|].
    intros x [c n] _. rewrite Hg. now eexists.
Qed.

Lemma findBorders_ok (colBlack : num) (this : ActiveVolume) :
  is_Some (m_imageGauss this) ->
  exists b, findBorders colBlack this = Ok b.
Proof.
  intros [g Hg]. unfold findBorders, for_Q.
  edestruct (for_each_inv (A:=Q) (fun _ : Q * Q => True))
    as (b & -> & _); [exact I| |now eexists].
  intros z s _. apply (for_each_inv (A:=Q)); [exact I|].
  intros y [l r] _.
  match goal with |- context [scan 1 ?c ?x ?n] =>
    destruct (scan_ok 1 c x n) as [x1 ->] end.
  { intros x. rewrite Hg. now eexists. }
  cbn [mbind result_bind bind].
  match goal with |- context [scan (-1) ?c ?x ?n] =>
    destruct (scan_ok (-1) c x n) as [x2 ->] end.
  { intros x. rewrite Hg. now eexists. }
  now eexists.
Qed.

Lemma histBands_ok (l r : Q) (this : ActiveVolume) :
  is_Some (m_imageGauss this) -> exists res, histBands l r this = Ok res.
Proof.
  intros G. unfold histBands, for_Q.
  set (PS := fun s : ActiveVolume * Z => is_Some (m_imageGauss (fst s))).
  edestruct (for_each_inv (A:=Q) PS) as (res & -> & _); [| |now eexists].
  - now apply is_Some_imageGauss_histogram.
  - intros z s Hs. apply (for_each_inv (A:=Q) PS); [exact Hs|].
    intros y s1 Hs1.
    edestruct (for_each_inv (A:=Q) PS) as (s2 & -> & Hs2); [exact Hs1| |].
    + intros x [t n] [g Hg]. cbn [fst] in Hg. rewrite Hg.
      cbn [deref mbind result_bind bind]. eexists. split; [reflexivity|].
      apply is_Some_imageGauss_histogram. rewrite Hg. now eexists.
    + cbn [mbind result_bind bind].
      apply (for_each_inv (A:=Q) PS); [exact Hs2|].
      intros x [t n] [g Hg]. cbn [fst] in Hg. rewrite Hg.
      cbn [deref mbind result_bind bind]. eexists. split; [reflexivity|].
      apply is_Some_imageGauss_histogram. rewrite Hg. now eexists.
Qed.

Lemma secondPass_ok (this : ActiveVolume) :
  is_Some (m_imageGauss this) -> exists res, secondPass this = Ok res.
Proof.
  intros G. unfold secondPass.
  destruct (getBlack_ok this G) as [c ->]. cbn [mbind result_bind bind].
  destruct (findBorders_ok c this G) as [[l r] ->].
  cbn [mbind result_bind bind]. now apply histBands_ok.
Qed.

Lemma bind_Ok_intro {A B : Type} (m : result A) (k : A -> result B)
    (a : A) (b : B) :
  m = Ok a -> k a = Ok b -> (m ≫= k) = Ok b.
Proof. intros -> H. exact H. Qed.

Section Returns.

Variable Math_exp : num -> num.
Variable Math_pow : num -> num -> num.

Lemma getHistogram_ok (this : ActiveVolume) :
  is_Some (m_imageGauss this) ->
  exists this', getHistogram Math_exp Math_pow this = Ok (1, this').
Proof.
  intros G.
  destruct (histFull_ok this G) as [t1 E1].
  assert (G1 : is_Some (m_imageGauss t1)).
  { revert E1. apply (histFull_frame (fun t => is_Some (m_imageGauss t)));
      [now destruct t|now destruct t|exact G]. }
  assert (G2 : is_Some (m_imageGauss
                          (buildColorKoefs Math_pow (findMinColor t1)))).
  { unfold buildColorKoefs. apply loop_preserve.
    - unfold findMinColor. destruct (List.find _ _); now destruct t1.
    - intros i t. now destruct t. }
  destruct (secondPass_ok _ G2) as [[t2 n] E2].
  eexists. unfold getHistogram.
  eapply bind_Ok_intro; [exact E1|].
  eapply bind_Ok_intro; [exact E2|]. reflexivity.
Qed.


End Returns.


(** ** The calls of a run *)

Lemma startImageSmooth_ok {host : Host} (this : ActiveVolume) :
  is_Some (m_pixelsSrc this) -> is_Some (m_imageGauss this) ->
  is_Some (m_imageUniformity this) ->
  allocates (m_xDim this * m_yDim this * m_zDim this) 4 = true ->
  exists this',
    startImageSmooth this = Ok (1, this') /\
    is_Some (m_pixelsSrc this') /\ is_Some (m_imageGauss this') /\
    is_Some (m_imageSrc this').
Proof.
  intros Hp Hg Hu Hn. unfold startImageSmooth.
  edestruct (for_range_inv
    (fun t => is_Some (m_pixelsSrc t) /\ is_Some (m_imageGauss t) /\
              is_Some (m_imageUniformity t) /\
              m_xDim t * m_yDim t * m_zDim t
              = m_xDim this * m_yDim this * m_zDim this))
    as (t1 & -> & Hp1 & Hg1 & Hu1 & Hd1).
  { repeat split; assumption. }
  { intros i t (Ap & [g Ag] & [u Au] & Ad). rewrite Ag.
    cbn [deref mbind result_bind bind m_imageUniformity set_m_imageGauss].
    rewrite Au. cbn [deref mbind result_bind bind].
    eexists. split; [reflexivity|].
    repeat split; try assumption; now eexists. }
  cbn [mbind result_bind bind]. unfold new_Float32Array. rewrite Hn.
  cbn [mbind result_bind bind].
  edestruct (for_range_inv
    (fun t => is_Some (m_pixelsSrc t) /\ is_Some (m_imageGauss t) /\
              is_Some (m_imageSrc t) /\ is_Some (m_imageGrad t)))
    as (t2 & -> & Hp2 & Hg2 & Hs2 & _).
  { repeat split; try assumption; now eexists. }
  { intros i t ([p Ap] & Ag & [s As] & [gr Agr]). rewrite Agr.
    cbn [deref mbind result_bind bind m_pixelsSrc m_imageSrc
         set_m_imageGrad].
    rewrite Ap, As. cbn [deref mbind result_bind bind].
    eexists. split; [reflexivity|].
    destruct t; cbn in Ap, Ag, As |- *. subst.
    repeat split; try assumption; now eexists. }
  cbn [mbind result_bind bind]. eexists. split; [reflexivity|].
  repeat split; assumption.
Qed.

Section RunFacts.

Variable Math_exp : num -> num.
Variable Math_pow : num -> num -> num.
Variable createNormalsForGeometry : GeoRender -> Z * GeoRender.
Context {host : Host}.

Lemma applyPartGaussSmooth_ok (zStart zEnd rad : Z) (sigma : num)
    (this : ActiveVolume) :
  is_Some (m_pixelsSrc this) -> is_Some (m_imageSrc this) ->
  is_Some (m_imageGauss this) ->
  (zStart <> 0 -> is_Some (m_gaussMatrix this)) ->
  exists this',
    applyPartGaussSmooth Math_exp zStart zEnd rad sigma this = Ok this' /\
    smooth_ready (m_xDim this) (m_yDim this) (m_zDim this) this'.
Proof.
  intros Hp Hs Hg Hm. unfold applyPartGaussSmooth.
  assert (E : exists t,
    (if (zStart =? 0)%Z
     then initGaussSmooth Math_exp rad (1 / (3 * sigma * sigma))%num this
     else Ok this) = Ok t /\
    smooth_ready (m_xDim this) (m_yDim this) (m_zDim this) t).
  { destruct (Z.eqb_spec zStart 0) as [Z0|Z0].
    - now apply initGaussSmooth_ready.
    - exists this. split; [reflexivity|].
      repeat split; try assumption. now apply Hm. }
  destruct E as (t & -> & R). cbn [mbind result_bind bind].
  apply for_range_inv; [exact R|].
  intros cz t1 R1. now apply smoothSlice_ready.
Qed.

(** The first block on a fresh engine. *)
Lemma stepNotStarted_ok (this : ActiveVolume) (geo geo1 : GeoRender)
    (w : list Work) :
  on_schedule 0 this ->
  createNormalsForGeometry geo = (1, geo1) ->
  exists t,
    stepNotStarted createNormalsForGeometry (mkStep this geo w)
    = Ok (Next (mkStep t geo1 (w ++ [W_startImageSmooth]))) /\
    m_state t = AV_STATE_PREPARE_GAUSS /\ m_gaussStage t = 0 /\
    is_Some (m_pixelsSrc t) /\ is_Some (m_imageSrc t) /\
    is_Some (m_imageGauss t).
Proof.
  intros (C & Hg & H0 & _) N.
  destruct (H0 ltac:(lia)) as (Hp & Hu & Hn).
  assert (S0 : m_state this = AV_STATE_NOT_STARTED).
  { now injection C as -> _. }
  unfold stepNotStarted. cbn [st_this st_geo st_work]. rewrite S0, N.
  cbn [State_eqb state_code Z.eqb Pos.eqb negb].
  destruct (startImageSmooth_ok this Hp Hg Hu Hn)
    as (t & -> & Hp1 & Hg1 & Hs1).
  cbn [mbind result_bind bind]. eexists. split; [reflexivity|].
  repeat split; assumption.
Qed.

(** The second block in PrepareGauss. *)
Lemma stepPrepareGauss_ok (this : ActiveVolume) (geo : GeoRender)
    (w : list Work) :
  m_state this = AV_STATE_PREPARE_GAUSS ->
  is_Some (m_pixelsSrc this) -> is_Some (m_imageSrc this) ->
  is_Some (m_imageGauss this) ->
  (m_gaussStage this = 0 \/ is_Some (m_gaussMatrix this)) ->
  exists t zs ze,
    stepPrepareGauss Math_exp (mkStep this geo w)
    = Ok (mkStep t geo (w ++ [W_gaussBand zs ze])) /\
    m_gaussStage t = m_gaussStage this + 1 /\
    is_Some (m_pixelsSrc t) /\ is_Some (m_imageSrc t) /\
    is_Some (m_imageGauss t) /\ is_Some (m_gaussMatrix t) /\
    (m_gaussStage this + 1 < 18 -> m_state t = AV_STATE_PREPARE_GAUSS) /\
    (18 <= m_gaussStage this + 1 ->
     m_state t = AV_STATE_PREPARE_UNIFORMITY /\ m_uniformityStage t = 0).
Proof.
  intros S0 Hp Hs Hg Hm. unfold stepPrepareGauss.
  cbn [st_this st_geo st_work]. rewrite S0.
  cbn [State_eqb state_code Z.eqb Pos.eqb].
  match goal with |- context [applyPartGaussSmooth _ ?a ?b ?c ?d this] =>
    destruct (applyPartGaussSmooth_ok a b c d this Hp Hs Hg) as (t & E & R)
  end.
  { intros Z0. destruct Hm as [Hm|Hm]; [|exact Hm].
    exfalso. apply Z0. rewrite Hm. now rewrite Z.add_0_r, Z.mul_0_r. }
  rewrite E. cbn [mbind result_bind bind].
  assert (F : m_gaussStage t = m_gaussStage this /\
              is_Some (m_imageSrc t)).
  { revert E. apply (applyPartGaussSmooth_frame
      (fun t => m_gaussStage t = m_gaussStage this /\
                is_Some (m_imageSrc t))); try (intros; assumption).
    now split. }
  destruct F as (Fg & Fs). destruct R as (_ & _ & _ & Rp & Rm & Rg).
  eexists _, _, _. split; [reflexivity|].
  cbn [m_gaussStage set_m_gaussStage]. rewrite Fg.
  unfold ACT_VOL_NUM_SMOOTH_STAGES.
  destruct (Z.geb_spec (m_gaussStage this + 1) 18).
  - repeat split; try assumption; try lia.
  - repeat split; try assumption; try lia.
    intros _. change (m_state t = AV_STATE_PREPARE_GAUSS). revert E.
    apply (applyPartGaussSmooth_frame
             (fun t => m_state t = AV_STATE_PREPARE_GAUSS));
      intros; assumption.
Qed.

Lemma getHistogram_keeps_imageGauss (this : ActiveVolume) :
  is_Some (m_imageGauss this) ->
  exists this',
    getHistogram Math_exp Math_pow this = Ok (1, this') /\
    is_Some (m_imageGauss this').
Proof.
  intros G. destruct (getHistogram_ok Math_exp Math_pow this G) as [t E].
  exists t. split; [exact E|].
  revert E. apply (getHistogram_frame (fun t => is_Some (m_imageGauss t)));
    [intros v t'; destruct t'; exact id ..|exact G].
Qed.

(** The third block in PrepareUniformity. *)
Lemma stepPrepareUniformity_ok (this : ActiveVolume) (geo : GeoRender)
    (w : list Work) :
  m_state this = AV_STATE_PREPARE_UNIFORMITY ->
  is_Some (m_imageGauss this) ->
  exists t w',
    stepPrepareUniformity Math_exp Math_pow (mkStep this geo w)
    = Ok (mkStep t geo w') /\
    is_Some (m_imageGauss t) /\
    (m_uniformityStage this + 1 <> 18 ->
     m_state t = AV_STATE_PREPARE_UNIFORMITY /\
     m_uniformityStage t = m_uniformityStage this + 1) /\
    (m_uniformityStage this + 1 = 18 ->
     m_state t = AV_STATE_UPDATE_GEO /\ m_geoStage t = 0).
Proof.
  intros S0 Hg. unfold stepPrepareUniformity.
  cbn [st_this st_geo st_work]. rewrite S0.
  cbn [State_eqb state_code Z.eqb Pos.eqb].
  cbn [m_uniformityStage set_m_uniformityStage].
  unfold ACT_VOL_NUM_SMOOTH_STAGES.
  destruct (Z.eqb_spec (m_uniformityStage this + 1) 18) as [U|U].
  - destruct (getHistogram_keeps_imageGauss
                (set_m_uniformityStage (m_uniformityStage this + 1) this)
                Hg) as (t & E & G).
    rewrite E. cbn [mbind result_bind bind].
    eexists _, _. split; [reflexivity|].
    split; [|split; [lia|intros _; now split]].
    cbn. exact G.
  - eexists _, _. split; [reflexivity|].
    split; [exact Hg|]. split; [intros _; now split|lia].
Qed.

(** The last block in UpdateGeo, with the full method. *)
Lemma stepUpdateGeo_ok (this : ActiveVolume) (geo : GeoRender)
    (w : list Work) :
  m_state this = AV_STATE_UPDATE_GEO ->
  geo_normals geo <> [] ->
  allocates (geo_numVertices geo * 4) 4 = true ->
  exists t,
    stepUpdateGeo AV_METHOD_ALL (mkStep this geo w)
    = Ok (mkStep t geo (w ++ [W_relax])) /\
    m_state t = AV_STATE_UPDATE_GEO /\
    m_geoStage t = m_geoStage this + 1 /\
    m_imageGauss t = m_imageGauss this.
Proof.
  intros S0 Hn Hv. unfold stepUpdateGeo.
  cbn [st_this st_geo st_work]. rewrite S0.
  cbn [State_eqb state_code Z.eqb Pos.eqb].
  assert (A : exists t,
    match m_verticesNew this with
    | Some _ => Ok this
    | None => v ← new_Float32Array (geo_numVertices geo * 4);
              Ok (set_m_verticesNew (Some v) this)
    end = Ok t /\ m_state t = AV_STATE_UPDATE_GEO /\
    m_geoStage t = m_geoStage this /\ m_imageGauss t = m_imageGauss this).
  { destruct (m_verticesNew this) as [v|] eqn:Ev; [now eexists|].
    unfold new_Float32Array. rewrite Hv.
    eexists. split; [reflexivity|]. now repeat split. }
  destruct A as (t & -> & St & Sg & Si). cbn [mbind result_bind bind].
  change (Z.land AV_METHOD_ALL AV_METHOD_NORMALS =? 0)%Z with false.
  change (Z.land AV_METHOD_ALL AV_METHOD_UNIFORMITY =? 0)%Z with false.
  change (Z.land AV_METHOD_ALL AV_METHOD_COLOR_KOEFS =? 0)%Z with false.
  cbn [negb andb mbind result_bind bind].
  unfold updateGeoNormalsUniformityColors.
  destruct (geo_normals geo); [contradiction|].
  cbn [mbind result_bind bind]. eexists. split; [reflexivity|].
  destruct t; cbn in St, Sg, Si |- *. subst. now repeat split.
Qed.

End RunFacts.

(** ** The schedule of a run *)

Lemma schedule_iff (k : Z) (this : ActiveVolume) :
  (m_state this, stage_of this) = schedule k <->
  (k <= 0 -> m_state this = AV_STATE_NOT_STARTED) /\
  (0 < k < 18 ->
   m_state this = AV_STATE_PREPARE_GAUSS /\ m_gaussStage this = k) /\
  (18 <= k < 35 ->
   m_state this = AV_STATE_PREPARE_UNIFORMITY /\
   m_uniformityStage this = k - 17) /\
  (35 <= k ->
   m_state this = AV_STATE_UPDATE_GEO /\ m_geoStage this = k - 34).
Proof.
  unfold schedule, stage_of.
  destruct (Z.leb_spec k 0); [|destruct (Z.ltb_spec k 18);
    [|destruct (Z.ltb_spec k 35)]].
  - split.
    + intros E. injection E as E _. repeat split; intros; try lia. exact E.
    + intros (E & _). rewrite (E ltac:(lia)). reflexivity.
  - split.
    + intros E. injection E as E E'. rewrite E in E'.
      repeat split; intros; try lia; assumption.
    + intros (_ & E & _). destruct (E ltac:(lia)) as (-> & ->). reflexivity.
  - split.
    + intros E. injection E as E E'. rewrite E in E'.
      repeat split; intros; try lia; assumption.
    + intros (_ & _ & E & _). destruct (E ltac:(lia)) as (-> & ->).
      reflexivity.
  - split.
    + intros E. injection E as E E'. rewrite E in E'.
      repeat split; intros; try lia; assumption.
    + intros (_ & _ & _ & E). destruct (E ltac:(lia)) as (-> & ->).
      reflexivity.
Qed.

Section Schedule.

Variable Math_exp : num -> num.
Variable Math_pow : num -> num -> num.
Variable createNormalsForGeometry : GeoRender -> Z * GeoRender.
Context {host : Host}.

Lemma stepNotStarted_skip (s : Step) :
  m_state (st_this s) <> AV_STATE_NOT_STARTED ->
  stepNotStarted createNormalsForGeometry s = Ok (Next s).
Proof.
  intros N. unfold stepNotStarted. apply State_eqb_neq in N. now rewrite N.
Qed.

Lemma stepPrepareGauss_skip (s : Step) :
  m_state (st_this s) <> AV_STATE_PREPARE_GAUSS ->
  stepPrepareGauss Math_exp s = Ok s.
Proof.
  intros N. unfold stepPrepareGauss. apply State_eqb_neq in N.
  now rewrite N.
Qed.

Lemma stepPrepareUniformity_skip (s : Step) :
  m_state (st_this s) <> AV_STATE_PREPARE_UNIFORMITY ->
  stepPrepareUniformity Math_exp Math_pow s = Ok s.
Proof.
  intros N. unfold stepPrepareUniformity. apply State_eqb_neq in N.
  now rewrite N.
Qed.

Lemma stepUpdateGeo_skip (method : Z) (s : Step) :
  m_state (st_this s) <> AV_STATE_UPDATE_GEO ->
  stepUpdateGeo method s = Ok s.
Proof.
  intros N. unfold stepUpdateGeo. apply State_eqb_neq in N. now rewrite N.
Qed.

(** One call of a run: the engine that [k] calls have brought on
    schedule is brought on by the next. *)
Lemma updateGeo_on_schedule (k : Z) (this : ActiveVolume)
    (geo geo1 : GeoRender) :
  0 <= k -> on_schedule k this ->
  (k = 0 -> createNormalsForGeometry geo = (1, geo1)) ->
  (0 < k -> geo = geo1) ->
  geo_normals geo1 <> [] ->
  allocates (geo_numVertices geo1 * 4) 4 = true ->
  exists this',
    updateGeo Math_exp Math_pow createNormalsForGeometry this geo
      AV_METHOD_ALL = Ok (1, this', geo1) /\
    on_schedule (k + 1) this'.
Proof.
  intros Hk (C & Hg & R0 & R1) N0 N1 Hn Hv.
  apply schedule_iff in C. destruct C as (C0 & C1 & C2 & C3).
  unfold updateGeo, updateGeo_work. unfold on_schedule.
  setoid_rewrite schedule_iff.
  assert (K : k = 0 \/ 0 < k < 17 \/ k = 17 \/ 18 <= k < 34 \/ k = 34 \/
              35 <= k) by lia.
  destruct K as [K|[K|[K|[K|[K|K]]]]].
  - (* the first call *)
    rewrite (C0 ltac:(lia)). cbn [State_eqb state_code Z.eqb Pos.eqb].
    destruct (stepNotStarted_ok createNormalsForGeometry this geo geo1 [])
      as (t & -> & St & Gt & Pt & It & Gt').
    { subst k. split; [apply schedule_iff; repeat split; intros; try lia;
        now apply C0|]. split; [exact Hg|]. split; [exact R0|intros; lia]. }
    { now apply N0. }
    cbn [mbind result_bind bind].
    destruct (stepPrepareGauss_ok Math_exp t geo1 ([] ++ [W_startImageSmooth])
                St Pt It Gt' (or_introl Gt))
      as (t2 & zs & ze & -> & G2 & P2 & I2 & Ga2 & M2 & X2 & _).
    cbn [mbind result_bind bind].
    rewrite Gt in G2, X2. specialize (X2 ltac:(lia)).
    rewrite stepPrepareUniformity_skip by (cbn [st_this]; congruence).
    cbn [mbind result_bind bind].
    rewrite stepUpdateGeo_skip by (cbn [st_this]; congruence).
    cbn [mbind result_bind bind st_this st_geo].
    eexists. split; [reflexivity|].
    split; [repeat split; intros; try lia; try assumption; lia|].
    split; [exact Ga2|]. split; [intros; lia|]. intros _. now repeat split.
  - (* a band of the smoothing *)
    destruct (C1 ltac:(lia)) as (S0 & G0).
    destruct (R1 ltac:(lia)) as (P0 & I0 & M0).
    rewrite S0. cbn [State_eqb state_code Z.eqb Pos.eqb].
    rewrite stepNotStarted_skip by (cbn [st_this]; congruence).
    cbn [mbind result_bind bind].
    destruct (stepPrepareGauss_ok Math_exp this geo [] S0 P0 I0 Hg
                (or_intror M0))
      as (t2 & zs & ze & -> & G2 & P2 & I2 & Ga2 & M2 & X2 & _).
    cbn [mbind result_bind bind].
    rewrite G0 in G2, X2. specialize (X2 ltac:(lia)).
    rewrite stepPrepareUniformity_skip by (cbn [st_this]; congruence).
    cbn [mbind result_bind bind].
    rewrite stepUpdateGeo_skip by (cbn [st_this]; congruence).
    cbn [mbind result_bind bind st_this st_geo].
    rewrite (N1 ltac:(lia)).
    eexists. split; [reflexivity|].
    split; [repeat split; intros; try lia; try assumption; lia|].
    split; [exact Ga2|]. split; [intros; lia|]. intros _. now repeat split.
  - (* the last band, and the first uniformity step *)
    destruct (C1 ltac:(lia)) as (S0 & G0).
    destruct (R1 ltac:(lia)) as (P0 & I0 & M0).
    rewrite S0. cbn [State_eqb state_code Z.eqb Pos.eqb].
    rewrite stepNotStarted_skip by (cbn [st_this]; congruence).
    cbn [mbind result_bind bind].
    destruct (stepPrepareGauss_ok Math_exp this geo [] S0 P0 I0 Hg
                (or_intror M0))
      as (t2 & zs & ze & -> & G2 & P2 & I2 & Ga2 & M2 & _ & X2).
    cbn [mbind result_bind bind].
    rewrite G0 in X2. destruct (X2 ltac:(lia)) as (S2 & U2).
    destruct (stepPrepareUniformity_ok Math_exp Math_pow t2 geo
                ([] ++ [W_gaussBand zs ze]) S2 Ga2)
      as (t3 & w3 & -> & Ga3 & X3 & _).
    cbn [mbind result_bind bind].
    rewrite U2 in X3. destruct (X3 ltac:(lia)) as (S3 & U3).
    rewrite stepUpdateGeo_skip by (cbn [st_this]; congruence).
    cbn [mbind result_bind bind st_this st_geo].
    rewrite (N1 ltac:(lia)).
    eexists. split; [reflexivity|].
    split; [repeat split; intros; try lia; try assumption; lia|].
    split; [exact Ga3|]. split; intros; lia.
  - (* a uniformity step *)
    destruct (C2 ltac:(lia)) as (S0 & U0).
    rewrite S0. cbn [State_eqb state_code Z.eqb Pos.eqb].
    rewrite stepNotStarted_skip by (cbn [st_this]; congruence).
    cbn [mbind result_bind bind].
    rewrite stepPrepareGauss_skip by (cbn [st_this]; congruence).
    cbn [mbind result_bind bind].
    destruct (stepPrepareUniformity_ok Math_exp Math_pow this geo [] S0 Hg)
      as (t3 & w3 & -> & Ga3 & X3 & _).
    cbn [mbind result_bind bind].
    rewrite U0 in X3. destruct (X3 ltac:(lia)) as (S3 & U3).
    rewrite stepUpdateGeo_skip by (cbn [st_this]; congruence).
    cbn [mbind result_bind bind st_this st_geo].
    rewrite (N1 ltac:(lia)).
    eexists. split; [reflexivity|].
    split; [repeat split; intros; try lia; try assumption; lia|].
    split; [exact Ga3|]. split; intros; lia.
  - (* the last uniformity step, the classifier, the first relaxation *)
    destruct (C2 ltac:(lia)) as (S0 & U0).
    rewrite S0. cbn [State_eqb state_code Z.eqb Pos.eqb].
    rewrite stepNotStarted_skip by (cbn [st_this]; congruence).
    cbn [mbind result_bind bind].
    rewrite stepPrepareGauss_skip by (cbn [st_this]; congruence).
    cbn [mbind result_bind bind].
    destruct (stepPrepareUniformity_ok Math_exp Math_pow this geo [] S0 Hg)
      as (t3 & w3 & -> & Ga3 & _ & X3).
    cbn [mbind result_bind bind].
    rewrite U0 in X3. destruct (X3 ltac:(lia)) as (S3 & U3).
    rewrite (N1 ltac:(lia)) in *.
    destruct (stepUpdateGeo_ok t3 geo1 w3 S3 Hn Hv)
      as (t4 & -> & S4 & G4 & I4).
    cbn [mbind result_bind bind st_this st_geo].
    eexists. split; [reflexivity|].
    split; [repeat split; intros; try lia; try assumption; lia|].
    split; [now rewrite I4|]. split; intros; lia.
  - (* a relaxation pass *)
    destruct (C3 ltac:(lia)) as (S0 & G0).
    rewrite S0. cbn [State_eqb state_code Z.eqb Pos.eqb].
    rewrite stepNotStarted_skip by (cbn [st_this]; congruence).
    cbn [mbind result_bind bind].
    rewrite stepPrepareGauss_skip by (cbn [st_this]; congruence).
    cbn [mbind result_bind bind].
    rewrite stepPrepareUniformity_skip by (cbn [st_this]; congruence).
    cbn [mbind result_bind bind].
    rewrite (N1 ltac:(lia)) in *.
    destruct (stepUpdateGeo_ok this geo1 [] S0 Hn Hv)
      as (t4 & -> & S4 & G4 & I4).
    cbn [mbind result_bind bind st_this st_geo].
    eexists. split; [reflexivity|].
    split; [repeat split; intros; try lia; try assumption; lia|].
    split; [now rewrite I4|]. split; intros; lia.
Qed.

End Schedule.

Section Run.

Variable Math_exp : num -> num.
Variable Math_pow : num -> num -> num.
Variable createNormalsForGeometry : GeoRender -> Z * GeoRender.
Context {host : Host}.

(** [n] more calls on an engine that [k] calls have brought on schedule. *)
Lemma updateGeo_times_on_schedule (n : nat) (k : Z) (this : ActiveVolume)
    (geo geo1 : GeoRender) :
  0 <= k -> on_schedule k this ->
  (k = 0 -> createNormalsForGeometry geo = (1, geo1)) ->
  (0 < k -> geo = geo1) ->
  geo_normals geo1 <> [] ->
  allocates (geo_numVertices geo1 * 4) 4 = true ->
  exists this',
    updateGeo_times (updateGeo Math_exp Math_pow createNormalsForGeometry)
      n this geo AV_METHOD_ALL
    = Ok (replicate n 1, this', match n with O => geo | _ => geo1 end) /\
    on_schedule (k + Z.of_nat n) this'.
Proof.
  revert k this geo. induction n as [|n IH]; intros k this geo Hk Sk N0 N1 Hn Hv.
  - exists this. split; [reflexivity|]. now rewrite Z.add_0_r.
  - destruct (updateGeo_on_schedule Math_exp Math_pow
                createNormalsForGeometry k this geo geo1 Hk Sk N0 N1 Hn Hv)
      as (this1 & E1 & S1).
    destruct (IH (k + 1) this1 geo1 ltac:(lia) S1 ltac:(lia)
                ltac:(reflexivity) Hn Hv) as (this' & E & S').
    exists this'. split.
    + cbn [updateGeo_times]. eapply bind_Ok_intro; [exact E1|].
      eapply bind_Ok_intro; [exact E|].
      cbn [replicate]. destruct n; reflexivity.
    + replace (k + Z.of_nat (Datatypes.S n)) with (k + 1 + Z.of_nat n) by lia.
      exact S'.
Qed.

(** X10: the calls of a run.  On an engine as [create] leaves it (in
    NotStarted, its source and its two buffers allocated), with
    dimensions below 8192 and a geometry
    whose normals are created with success and are not empty, and when the
    buffers of the first call and of the relaxation are granted, every one
    of [n] successive calls of [updateGeo] with the full method returns 1.
    After them the engine is where [schedule n] says: the first 17 calls
    leave it in PrepareGauss with [m_gaussStage] the number of the call,
    the next 17 in PrepareUniformity, and from the 35th on it is in
    UpdateGeo, [m_geoStage] counting the calls since; the state Finished is
    not reached. *)
Theorem updateGeo_run (n : nat) (this : ActiveVolume)
    (geo geo1 : GeoRender) :
  on_schedule 0 this -> dims_in_range this ->
  createNormalsForGeometry geo = (1, geo1) ->
  geo_normals geo1 <> [] ->
  allocates (geo_numVertices geo1 * 4) 4 = true ->
  exists this',
    updateGeo_times (updateGeo Math_exp Math_pow createNormalsForGeometry)
      n this geo AV_METHOD_ALL
    = Ok (replicate n 1, this', match n with O => geo | _ => geo1 end) /\
    (m_state this', stage_of this') = schedule (Z.of_nat n) /\
    m_state this' <> AV_STATE_FINISHED.
Proof.
  intros S0 _ N Hn Hv.
  destruct (updateGeo_times_on_schedule n 0 this geo geo1 ltac:(lia) S0
              ltac:(intros _; exact N) ltac:(lia) Hn Hv)
    as (this' & E & (C & _)).
  exists this'. split; [exact E|]. rewrite Z.add_0_l in C.
  split; [exact C|].
  intros F. rewrite F in C. unfold schedule in C.
  destruct (Z.of_nat n <=? 0)%Z; [discriminate C|].
  destruct (Z.of_nat n <? 18)%Z; [discriminate C|].
  destruct (Z.of_nat n <? 35)%Z; discriminate C.
Qed.

End Run.

Lemma updateGeo_run_witness :
  (on_schedule (host := small_host) 0 created222 /\
   dims_in_range created222 /\
   normals_done one_vertex = (1, one_vertex) /\
   geo_normals one_vertex <> [] /\
   allocates (host := small_host) (geo_numVertices one_vertex * 4) 4
   = true) /\
  exists this',
    updateGeo_times (updateGeo (host := small_host) exp_one pow_id
                       normals_done) 36 created222 one_vertex AV_METHOD_ALL
    = Ok (replicate 36 1, this', one_vertex) /\
    m_state this' = AV_STATE_UPDATE_GEO /\ m_geoStage this' = 2.
Proof.
  assert (H : on_schedule (host := small_host) 0 created222 /\
              dims_in_range created222 /\
              normals_done one_vertex = (1, one_vertex) /\
              geo_normals one_vertex <> [] /\
              allocates (host := small_host)
                (geo_numVertices one_vertex * 4) 4 = true).
  { split; [|split; [repeat split; cbn; lia|
      split; [reflexivity|split; [discriminate|reflexivity]]]].
    split; [reflexivity|]. split; [now eexists|].
    split; [intros _|intros K; lia].
    split; [now eexists|]. split; [now eexists|reflexivity]. }
  split; [exact H|]. destruct H as (H1 & H0 & H2 & H3 & H4).
  destruct (updateGeo_run (host := small_host) exp_one pow_id normals_done
              36 created222 one_vertex one_vertex H1 H0 H2 H3 H4)
    as (this' & E & C & _).
  exists this'. split; [exact E|].
  change (schedule (Z.of_nat 36)) with (AV_STATE_UPDATE_GEO, 2) in C.
  injection C as C1 C2. unfold stage_of in C2. rewrite C1 in C2.
  split; assumption.
Defined.
